(** * Ride-hailing dispatch core: a shallow embedding of the Go services

    The development follows the layout of the repository.  First the
    program:
    - [GoNum]      the numeric primitives of Go the code relies on
                   ([float64(int)], [math.Round], [math.Ceil], [int(float64)]);
    - [Pricing]    the pricing service (fares, surge, ETA);
    - [Errors]     [internal/errors];
    - [Models]     [internal/models]: rows, status constants, transition tables;
    - [Store]      the PostgreSQL tables of the initial migration with their
                   constraints, and the repositories of [internal/repository];
    - [Cache]      the Redis presence cache of [internal/cache];
    - [GoSort]     [sort.Slice];
    - [Service]    ride, trip, driver and matching services;
    - [Middleware] idempotency layer and rate limiter;
    - [TripLifecycle] reading, pausing and resuming a trip;
    - [Fleet]      registering a driver, going online and offline, the
                   offers a driver is shown;
    - [Payments]   the [payments] table, its repository and the payment
                   service;
    - [Handlers]   how a handler answers an error of a service;
    - [System]     the services as a transition system;
    - [Fixtures]   concrete worlds for the examples.
    Then what holds of it: [PricingProps], [RideProps], [OfferProps],
    [InvariantProps], [MatchingProps], [MiddlewareProps], and, across the
    operations, [LifecycleProps] (rides and trips from start to bill),
    [DispatchProps] (riders, drivers and rides over the runs of the system),
    [FleetProps] (who is offered what), [PaymentProps] and [TrafficProps]
    (bursts, replays and failures as a client sees them).

    [float64] is Rocq's primitive binary64 ([PrimFloat]); Go [int],
    [time.Time] and [time.Duration] are [Z] (instants and durations in
    nanoseconds); Go strings are [string]; Go maps, Redis hashes and Redis
    keys are [gmap]s; SQL tables are lists of rows.  A service operation is a
    function from the world it runs in to its result and the world it
    leaves. *)

From Stdlib Require Import ZArith List String Floats Lia Bool Sorted Permutation.
From stdpp Require Import base gmap strings pretty.
Import ListNotations.

#[local] Set Warnings "-inexact-float".
#[local] Open Scope string_scope.
#[local] Open Scope Z_scope.

(* ===================================================================== *)
(** * Go numeric primitives *)
(* ===================================================================== *)

Module GoNum.

(** [float64(n)] for an [int] [n]: the nearest binary64, ties to even. *)
Definition float64_of_int (z : Z) : float :=
  SF2Prim (binary_normalize prec emax z 0 false).

(** [math.Round]: nearest integer, halves away from zero; zeros, infinities
    and NaN are returned as they are.  On the bit pattern the library adds
    one half in the unit of the last integer place and clears the fraction,
    which is [floor(|x| + 1/2)] with the sign of [x]. *)
Definition math_Round (x : float) : float :=
  match Prim2SF x with
  | S754_finite s m e =>
      if 0 <=? e then x
      else
        let q := Z.shiftr (Z.pos m + Z.shiftl 1 (- e - 1)) (- e) in
        let r := float64_of_int q in
        if s then (- r)%float else r
  | _ => x
  end.

(** [math.Ceil]: least integer value not below [x] ([-Floor(-x)]). *)
Definition math_Ceil (x : float) : float :=
  match Prim2SF x with
  | S754_finite s m e =>
      if 0 <=? e then x
      else
        let q := Z.shiftr (Z.pos m) (- e) in
        let exact := Z.land (Z.pos m) (Z.ones (- e)) =? 0 in
        if s then (- float64_of_int q)%float
        else float64_of_int (if exact then q else q + 1)
  | _ => x
  end.

Definition minInt64 : Z := - 2 ^ 63.
Definition maxInt64 : Z := 2 ^ 63 - 1.

(** [int(f)]: truncation toward zero.  For a value outside [int]'s range
    (and for NaN) Go leaves the result to the implementation; amd64 yields
    the smallest [int64]. *)
Definition int_of_float64 (f : float) : Z :=
  match Prim2SF f with
  | S754_zero _ => 0
  | S754_finite s m e =>
      let a := if 0 <=? e then Z.shiftl (Z.pos m) e else Z.shiftr (Z.pos m) (- e) in
      let v := if s then - a else a in
      if (minInt64 <=? v) && (v <=? maxInt64) then v else minInt64
  | _ => minInt64
  end.

End GoNum.

(* ===================================================================== *)
(** * Pricing service *)
(* ===================================================================== *)

Module Pricing.
Import GoNum.

(** Vehicle types ([models.VehicleType*]). *)
Definition VehicleTypeAuto  : string := "auto".
Definition VehicleTypeMini  : string := "mini".
Definition VehicleTypeSedan : string := "sedan".
Definition VehicleTypeSUV   : string := "suv".

Record FareConfig := mkFareConfig {
  cfg_BaseFare        : float;
  cfg_PerKmRate       : float;
  cfg_PerMinRate      : float;
  cfg_MinFare         : float;
  cfg_CancellationFee : float
}.

Record FareBreakdown := mkFareBreakdown {
  BaseFare     : float;
  DistanceFare : float;
  TimeFare     : float;
  SurgeAmount  : float;
  Total        : float
}.

(** [var fareConfigs = map[string]FareConfig{...}] *)
Definition fareConfigs : gmap string FareConfig :=
  <[VehicleTypeAuto  := mkFareConfig 25 12 1.0 30 25]>
  (<[VehicleTypeMini  := mkFareConfig 40 14 1.2 50 40]>
  (<[VehicleTypeSedan := mkFareConfig 50 17 1.5 80 50]>
  (<[VehicleTypeSUV   := mkFareConfig 80 22 2.0 120 80]> ∅))).

(** [func round(f float64) float64 { return math.Round(f*100) / 100 }] *)
Definition round (f : float) : float := (math_Round (f * 100) / 100)%float.

(** [calculateFare]: the zero [FareConfig] of a missing key is replaced by
    the sedan entry. *)
Definition calculateFare (vehicleType : string) (distanceKm : float)
           (durationMins : Z) (surgeMultiplier : float) : FareBreakdown :=
  let config :=
    match fareConfigs !! vehicleType with
    | Some c => c
    | None =>
        match fareConfigs !! VehicleTypeSedan with
        | Some c => c
        | None => mkFareConfig 0 0 0 0 0
        end
    end in
  let baseFare := cfg_BaseFare config in
  let distanceFare := (distanceKm * cfg_PerKmRate config)%float in
  let timeFare := (float64_of_int durationMins * cfg_PerMinRate config)%float in
  let subtotal := (baseFare + distanceFare + timeFare)%float in
  let surgeAmount := (subtotal * (surgeMultiplier - 1))%float in
  let total := (subtotal + surgeAmount)%float in
  let '(total, surgeAmount) :=
    if (total <? cfg_MinFare config)%float
    then (cfg_MinFare config, 0%float)
    else (total, surgeAmount) in
  {| BaseFare := round baseFare;
     DistanceFare := round distanceFare;
     TimeFare := round timeFare;
     SurgeAmount := round surgeAmount;
     Total := round total |}.

Definition CalculateEstimatedFare := calculateFare.
Definition CalculateActualFare := calculateFare.

(** [CalculateSurge(demandCount, supplyCount int) float64] *)
Definition CalculateSurge (demandCount supplyCount : Z) : float :=
  if supplyCount =? 0 then 2.0%float
  else
    let ratio := (float64_of_int demandCount / float64_of_int supplyCount)%float in
    if (ratio <? 1.0)%float then 1.0%float
    else if (ratio <? 1.5)%float then 1.2%float
    else if (ratio <? 2.0)%float then 1.5%float
    else if (ratio <? 3.0)%float then 1.8%float
    else 2.0%float.

(** [EstimateDuration]: 25 km/h, at least five minutes. *)
Definition EstimateDuration (distanceKm : float) : Z :=
  let durationHours := (distanceKm / 25.0)%float in
  let durationMins := int_of_float64 (math_Ceil (durationHours * 60)) in
  if durationMins <? 5 then 5 else durationMins.

(** The pricing interface the other services are written against
    ([type PricingService interface]). *)
Class PricingService := {
  ps_CalculateEstimatedFare : string -> float -> Z -> float -> FareBreakdown;
  ps_CalculateActualFare : string -> float -> Z -> float -> FareBreakdown;
  ps_CalculateSurge : Z -> Z -> float;
  ps_EstimateDistance : float -> float -> float -> float -> float;
  ps_EstimateDuration : float -> Z
}.

(** [NewPricingService()].  The great-circle distance needs [math.Sin],
    [math.Cos] and [math.Atan2], which binary64 in Rocq does not provide:
    [haversineDistance] is a parameter of the instance. *)
Definition pricingService (haversineDistance : float -> float -> float -> float -> float)
  : PricingService :=
  {| ps_CalculateEstimatedFare := CalculateEstimatedFare;
     ps_CalculateActualFare := CalculateActualFare;
     ps_CalculateSurge := CalculateSurge;
     ps_EstimateDistance := fun lat1 lng1 lat2 lng2 =>
       round (haversineDistance lat1 lng1 lat2 lng2 * 1.3)%float;
     ps_EstimateDuration := EstimateDuration |}.

(** ** The fare rule in the words of the specification (§4.1) *)



End Pricing.

(* ===================================================================== *)
(** * Errors ([internal/errors]) *)
(* ===================================================================== *)

Module Errors.

Record APIError := NewAPIError {
  Code : string;
  Message : string;
  StatusCode : Z
}.

(** A Go [error] value met in the services: a structured API error, one of
    the package's sentinel errors, or an error of the database driver (a
    violated constraint, or a failing connection). *)
Inductive error :=
| Api (e : APIError)
| Sentinel (msg : string)
| SqlError (what : string).

Definition NotFound (resource : string) : error :=
  Api (NewAPIError "not_found" (resource ++ " not found") 404).
Definition BadRequest (message : string) : error :=
  Api (NewAPIError "bad_request" message 400).
Definition Conflict (message : string) : error :=
  Api (NewAPIError "conflict" message 409).
Definition Unauthorized (message : string) : error :=
  Api (NewAPIError "unauthorized" message 401).
Definition RideAlreadyAssigned : error :=
  Api (NewAPIError "ride_already_assigned"
         "this ride has been assigned to another driver" 409).
Definition OfferExpired : error :=
  Api (NewAPIError "offer_expired" "this ride offer has expired" 410).
Definition InvalidTransition (from to : string) : error :=
  Api (NewAPIError "invalid_transition"
         ("cannot transition from " ++ from ++ " to " ++ to) 400).
Definition UserHasActiveRide : error :=
  Api (NewAPIError "active_ride_exists" "you already have an active ride" 409).
Definition ErrNoDriversAvailable : error := Sentinel "no drivers available".

(** The result of a call that returns [(T, error)]. *)
Inductive result (T : Type) :=
| Ok (v : T)
| Err (e : error).
Arguments Ok {T} v.
Arguments Err {T} e.

End Errors.

(* ===================================================================== *)
(** * Models ([internal/models]) *)
(* ===================================================================== *)

Module Models.

(** Instants ([time.Time]) and durations, in nanoseconds. *)
Definition Second : Z := 1000000000.
Definition Minute : Z := 60 * Second.
Definition Hour : Z := 60 * Minute.

Definition RideStatusPending        : string := "pending".
Definition RideStatusMatching       : string := "matching".
Definition RideStatusDriverAssigned : string := "driver_assigned".
Definition RideStatusDriverArrived  : string := "driver_arrived".
Definition RideStatusInProgress     : string := "in_progress".
Definition RideStatusCompleted      : string := "completed".
Definition RideStatusCancelled      : string := "cancelled".

Definition ValidRideTransitions : gmap string (list string) :=
  <[RideStatusPending        := [RideStatusMatching; RideStatusCancelled]]>
  (<[RideStatusMatching       := [RideStatusDriverAssigned; RideStatusCancelled]]>
  (<[RideStatusDriverAssigned := [RideStatusDriverArrived; RideStatusCancelled]]>
  (<[RideStatusDriverArrived  := [RideStatusInProgress; RideStatusCancelled]]>
  (<[RideStatusInProgress     := [RideStatusCompleted; RideStatusCancelled]]>
  (<[RideStatusCompleted      := []]>
  (<[RideStatusCancelled      := []]> ∅)))))).

Definition OfferStatusPending  : string := "pending".
Definition OfferStatusAccepted : string := "accepted".
Definition OfferStatusDeclined : string := "declined".
Definition OfferStatusExpired  : string := "expired".

Definition TripStatusStarted   : string := "started".
Definition TripStatusPaused    : string := "paused".
Definition TripStatusCompleted : string := "completed".
Definition TripStatusCancelled : string := "cancelled".

Definition ValidTripTransitions : gmap string (list string) :=
  <[TripStatusStarted   := [TripStatusPaused; TripStatusCompleted; TripStatusCancelled]]>
  (<[TripStatusPaused    := [TripStatusStarted; TripStatusCompleted; TripStatusCancelled]]>
  (<[TripStatusCompleted := []]>
  (<[TripStatusCancelled := []]> ∅))).

Definition DriverStatusOffline : string := "offline".
Definition DriverStatusOnline  : string := "online".
Definition DriverStatusBusy    : string := "busy".

Record User := mkUser {
  user_ID : string;
  user_Phone : string;
  user_Name : string;
  user_Email : option string;
  user_Rating : float;
  user_CreatedAt : Z;
  user_UpdatedAt : Z
}.

Record Driver := mkDriver {
  driver_ID : string;
  driver_Phone : string;
  driver_Name : string;
  driver_Email : option string;
  driver_LicenseNumber : string;
  driver_VehicleType : string;
  driver_VehicleNumber : string;
  driver_Status : string;
  driver_Rating : float;
  driver_TotalTrips : Z;
  driver_CurrentLat : option float;
  driver_CurrentLng : option float;
  driver_CreatedAt : Z;
  driver_UpdatedAt : Z
}.

Record Ride := mkRide {
  ride_ID : string;
  ride_UserID : string;
  ride_DriverID : option string;
  ride_PickupLat : float;
  ride_PickupLng : float;
  ride_PickupAddress : option string;
  ride_DropoffLat : float;
  ride_DropoffLng : float;
  ride_DropoffAddress : option string;
  ride_VehicleType : string;
  ride_Status : string;
  ride_EstimatedFare : option float;
  ride_SurgeMultiplier : float;
  ride_EstimatedDistanceKm : option float;
  ride_EstimatedDurationMin : option Z;
  ride_PaymentMethod : string;
  ride_IdempotencyKey : option string;
  ride_CancelledBy : option string;
  ride_CancellationReason : option string;
  ride_CreatedAt : Z;
  ride_UpdatedAt : Z
}.

Record RideOffer := mkRideOffer {
  offer_ID : string;
  offer_RideID : string;
  offer_DriverID : string;
  offer_Status : string;
  offer_OfferedAt : Z;
  offer_RespondedAt : option Z;
  offer_ExpiresAt : Z
}.

Record Trip := mkTrip {
  trip_ID : string;
  trip_RideID : string;
  trip_DriverID : string;
  trip_UserID : string;
  trip_Status : string;
  trip_StartTime : option Z;
  trip_EndTime : option Z;
  trip_PauseDurationSecs : Z;
  trip_ActualDistanceKm : option float;
  trip_ActualDurationMin : option Z;
  trip_RoutePolyline : option string;
  trip_BaseFare : option float;
  trip_DistanceFare : option float;
  trip_TimeFare : option float;
  trip_SurgeAmount : option float;
  trip_TotalFare : option float;
  trip_CreatedAt : Z;
  trip_UpdatedAt : Z
}.

Record Location := mkLocation {
  loc_Lat : float;
  loc_Lng : float;
  loc_Address : string
}.

Record CreateRideRequest := mkCreateRideRequest {
  req_UserID : string;
  req_Pickup : Location;
  req_Dropoff : Location;
  req_VehicleType : string;
  req_PaymentMethod : string
}.

Record CancelRideRequest := mkCancelRideRequest {
  cancel_Reason : string;
  cancel_CancelledBy : string
}.

Record AcceptRideRequest := mkAcceptRideRequest {
  accept_RideID : string;
  accept_OfferID : string
}.

Record EndTripRequest := mkEndTripRequest {
  end_EndLat : float;
  end_EndLng : float;
  end_OdometerKm : option float
}.

(** [func (r *Ride) CanTransitionTo(newStatus string) bool] *)
Definition Ride_CanTransitionTo (r : Ride) (newStatus : string) : bool :=
  match ValidRideTransitions !! ride_Status r with
  | None => false
  | Some validNextStates =>
      existsb (fun state => bool_decide (state = newStatus)) validNextStates
  end.

(** [func (t *Trip) CanTransitionTo(newStatus string) bool] *)
Definition Trip_CanTransitionTo (t : Trip) (newStatus : string) : bool :=
  match ValidTripTransitions !! trip_Status t with
  | None => false
  | Some validNextStates =>
      existsb (fun state => bool_decide (state = newStatus)) validNextStates
  end.

(** [func (o *RideOffer) IsExpired() bool { return time.Now().After(o.ExpiresAt) }] *)
Definition IsExpired (now : Z) (o : RideOffer) : bool := offer_ExpiresAt o <? now.

(** ** Field assignments *)

Definition ride_assign (r : Ride) (id : string) (status : string)
  (surge : float) (createdAt updatedAt : Z) : Ride :=
  mkRide id (ride_UserID r) (ride_DriverID r)
    (ride_PickupLat r) (ride_PickupLng r) (ride_PickupAddress r)
    (ride_DropoffLat r) (ride_DropoffLng r) (ride_DropoffAddress r)
    (ride_VehicleType r) status (ride_EstimatedFare r) surge
    (ride_EstimatedDistanceKm r) (ride_EstimatedDurationMin r)
    (ride_PaymentMethod r) (ride_IdempotencyKey r)
    (ride_CancelledBy r) (ride_CancellationReason r) createdAt updatedAt.

Definition ride_update (r : Ride) (driverID : option string) (status : string)
  (cancelledBy reason : option string) (updatedAt : Z) : Ride :=
  mkRide (ride_ID r) (ride_UserID r) driverID
    (ride_PickupLat r) (ride_PickupLng r) (ride_PickupAddress r)
    (ride_DropoffLat r) (ride_DropoffLng r) (ride_DropoffAddress r)
    (ride_VehicleType r) status (ride_EstimatedFare r) (ride_SurgeMultiplier r)
    (ride_EstimatedDistanceKm r) (ride_EstimatedDurationMin r)
    (ride_PaymentMethod r) (ride_IdempotencyKey r)
    cancelledBy reason (ride_CreatedAt r) updatedAt.

(** [r.Status = status] on the struct in memory. *)
Definition ride_with_status (r : Ride) (status : string) : Ride :=
  ride_update r (ride_DriverID r) status (ride_CancelledBy r)
    (ride_CancellationReason r) (ride_UpdatedAt r).

Definition offer_update (o : RideOffer) (status : string) (respondedAt : option Z)
  : RideOffer :=
  mkRideOffer (offer_ID o) (offer_RideID o) (offer_DriverID o) status
    (offer_OfferedAt o) respondedAt (offer_ExpiresAt o).

Definition driver_update (d : Driver) (status : string) (totalTrips : Z)
  (updatedAt : Z) : Driver :=
  mkDriver (driver_ID d) (driver_Phone d) (driver_Name d) (driver_Email d)
    (driver_LicenseNumber d) (driver_VehicleType d) (driver_VehicleNumber d)
    status (driver_Rating d) totalTrips
    (driver_CurrentLat d) (driver_CurrentLng d) (driver_CreatedAt d) updatedAt.

Definition trip_with_status (t : Trip) (status : string) (updatedAt : Z) : Trip :=
  mkTrip (trip_ID t) (trip_RideID t) (trip_DriverID t) (trip_UserID t) status
    (trip_StartTime t) (trip_EndTime t) (trip_PauseDurationSecs t)
    (trip_ActualDistanceKm t) (trip_ActualDurationMin t) (trip_RoutePolyline t)
    (trip_BaseFare t) (trip_DistanceFare t) (trip_TimeFare t)
    (trip_SurgeAmount t) (trip_TotalFare t) (trip_CreatedAt t) updatedAt.

End Models.

(* ===================================================================== *)
(** * Durable store: tables, constraints and repositories *)
(* ===================================================================== *)

Module Store.
Import Errors Models.

(** The tables of [migrations/001_initial_schema.up.sql] the services touch.
    A column holds the Go value it is written from. *)
Record DB := mkDB {
  users : list User;
  drivers : list Driver;
  rides : list Ride;
  trips : list Trip;
  ride_offers : list RideOffer
}.

Definition emptyDB : DB := mkDB [] [] [] [] [].

Definition with_drivers (db : DB) (l : list Driver) : DB :=
  mkDB (users db) l (rides db) (trips db) (ride_offers db).
Definition with_rides (db : DB) (l : list Ride) : DB :=
  mkDB (users db) (drivers db) l (trips db) (ride_offers db).
Definition with_trips (db : DB) (l : list Trip) : DB :=
  mkDB (users db) (drivers db) (rides db) l (ride_offers db).
Definition with_offers (db : DB) (l : list RideOffer) : DB :=
  mkDB (users db) (drivers db) (rides db) (trips db) l.

(** [UPDATE t SET ... WHERE cond]: every row that meets the condition is
    rewritten, the others stay. *)
Definition sql_update {A} (cond : A -> bool) (set : A -> A) (t : list A) : list A :=
  List.map (fun row => if cond row then set row else row) t.

(** [SELECT * FROM t WHERE cond] read into one struct: the first row, or
    [sql.ErrNoRows], which the repositories turn into [nil, nil]. *)
Definition sql_get {A} (cond : A -> bool) (t : list A) : option A :=
  List.find cond t.

Definition has_user (db : DB) (id : string) : bool :=
  existsb (fun u => bool_decide (user_ID u = id)) (users db).
Definition has_driver (db : DB) (id : string) : bool :=
  existsb (fun d => bool_decide (driver_ID d = id)) (drivers db).
Definition has_ride (db : DB) (id : string) : bool :=
  existsb (fun r => bool_decide (ride_ID r = id)) (rides db).

(** ** userRepository *)

Definition userRepo_GetByID (db : DB) (id : string) : option User :=
  sql_get (fun u => bool_decide (user_ID u = id)) (users db).

(** ** driverRepository *)

Definition driverRepo_GetByID (db : DB) (id : string) : option Driver :=
  sql_get (fun d => bool_decide (driver_ID d = id)) (drivers db).

Definition driverRepo_UpdateStatus (now : Z) (id status : string) (db : DB) : DB :=
  with_drivers db
    (sql_update (fun d => bool_decide (driver_ID d = id))
       (fun d => driver_update d status (driver_TotalTrips d) now) (drivers db)).

Definition driverRepo_IncrementTotalTrips (now : Z) (id : string) (db : DB) : DB :=
  with_drivers db
    (sql_update (fun d => bool_decide (driver_ID d = id))
       (fun d => driver_update d (driver_Status d) (driver_TotalTrips d + 1) now)
       (drivers db)).

Definition driverRepo_GetOnlineDriversByVehicleType (db : DB) (vehicleType : string)
  : list Driver :=
  List.filter
    (fun d => bool_decide (driver_Status d = DriverStatusOnline)
              && bool_decide (driver_VehicleType d = vehicleType)
              && bool_decide (is_Some (driver_CurrentLat d))
              && bool_decide (is_Some (driver_CurrentLng d)))
    (drivers db).

(** ** rideRepository *)

(** [Create] fills in the struct it is handed (id, timestamps, status and
    surge multiplier) and inserts it.  The caller keeps the pointer, hence the
    struct is returned next to the outcome.  [fresh] is what [uuid.New()]
    yields.  The insert is refused on a duplicate primary key, an unknown
    user and a duplicate idempotency key. *)
Definition rideRepo_Create (now : Z) (fresh : string) (ride : Ride) (db : DB)
  : Ride * result DB :=
  let id := if decide (ride_ID ride = "") then fresh else ride_ID ride in
  let ride := ride_assign ride id RideStatusPending 1.0%float now now in
  if has_ride db (ride_ID ride) then (ride, Err (SqlError "rides_pkey"))
  else if negb (has_user db (ride_UserID ride)) then
    (ride, Err (SqlError "rides_user_id_fkey"))
  else if match ride_IdempotencyKey ride with
          | Some k => existsb (fun r => bool_decide (ride_IdempotencyKey r = Some k))
                        (rides db)
          | None => false
          end then (ride, Err (SqlError "rides_idempotency_key_key"))
  else (ride, Ok (with_rides db (rides db ++ [ride]))).

Definition rideRepo_GetByID (db : DB) (id : string) : option Ride :=
  sql_get (fun r => bool_decide (ride_ID r = id)) (rides db).

Definition rideRepo_GetByIdempotencyKey (db : DB) (key : string) : option Ride :=
  sql_get (fun r => bool_decide (ride_IdempotencyKey r = Some key)) (rides db).

Definition rideRepo_UpdateStatus (now : Z) (id status : string) (db : DB) : DB :=
  with_rides db
    (sql_update (fun r => bool_decide (ride_ID r = id))
       (fun r => ride_update r (ride_DriverID r) status (ride_CancelledBy r)
                   (ride_CancellationReason r) now)
       (rides db)).

Definition rideRepo_Cancel (now : Z) (id cancelledBy reason : string) (db : DB) : DB :=
  with_rides db
    (sql_update (fun r => bool_decide (ride_ID r = id))
       (fun r => ride_update r (ride_DriverID r) RideStatusCancelled
                   (Some cancelledBy) (Some reason) now)
       (rides db)).

(** [ORDER BY created_at DESC LIMIT 1] over the rows that meet [cond]. *)
Definition latest_ride (cond : Ride -> bool) (t : list Ride) : option Ride :=
  List.fold_left
    (fun best r =>
       if cond r then
         match best with
         | Some b => if ride_CreatedAt b <? ride_CreatedAt r then Some r else best
         | None => Some r
         end
       else best)
    t None.

Definition ride_is_active (r : Ride) : bool :=
  negb (bool_decide (ride_Status r = RideStatusCompleted))
  && negb (bool_decide (ride_Status r = RideStatusCancelled)).

Definition rideRepo_GetActiveRideByUserID (db : DB) (userID : string) : option Ride :=
  latest_ride (fun r => bool_decide (ride_UserID r = userID) && ride_is_active r)
    (rides db).

(** ** tripRepository *)

Definition tripRepo_Create (now : Z) (fresh : string) (trip : Trip) (db : DB)
  : Trip * result DB :=
  let id := if decide (trip_ID trip = "") then fresh else trip_ID trip in
  let trip :=
    mkTrip id (trip_RideID trip) (trip_DriverID trip) (trip_UserID trip)
      TripStatusStarted (Some now) (trip_EndTime trip) (trip_PauseDurationSecs trip)
      (trip_ActualDistanceKm trip) (trip_ActualDurationMin trip)
      (trip_RoutePolyline trip) (trip_BaseFare trip) (trip_DistanceFare trip)
      (trip_TimeFare trip) (trip_SurgeAmount trip) (trip_TotalFare trip) now now in
  (** the row: the listed columns, [pause_duration_secs] 0, the rest NULL *)
  let row :=
    mkTrip id (trip_RideID trip) (trip_DriverID trip) (trip_UserID trip)
      TripStatusStarted (Some now) None 0 None None None None None None None None
      now now in
  if existsb (fun t => bool_decide (trip_ID t = id)) (trips db) then
    (trip, Err (SqlError "trips_pkey"))
  else if negb (has_ride db (trip_RideID trip)) then
    (trip, Err (SqlError "trips_ride_id_fkey"))
  else if negb (has_driver db (trip_DriverID trip)) then
    (trip, Err (SqlError "trips_driver_id_fkey"))
  else if negb (has_user db (trip_UserID trip)) then
    (trip, Err (SqlError "trips_user_id_fkey"))
  else (trip, Ok (with_trips db (trips db ++ [row]))).

Definition tripRepo_GetByID (db : DB) (id : string) : option Trip :=
  sql_get (fun t => bool_decide (trip_ID t = id)) (trips db).

Definition tripRepo_GetByRideID (db : DB) (rideID : string) : option Trip :=
  sql_get (fun t => bool_decide (trip_RideID t = rideID)) (trips db).

Definition tripRepo_UpdateStatus (now : Z) (id status : string) (db : DB) : DB :=
  with_trips db
    (sql_update (fun t => bool_decide (trip_ID t = id))
       (fun t => trip_with_status t status now) (trips db)).

(** [EndTrip] stamps the struct and writes status, end time, the actual
    figures and the fare columns of the row with the struct's id. *)
Definition tripRepo_EndTrip (now : Z) (trip : Trip) (db : DB) : Trip * DB :=
  let set (t : Trip) :=
    mkTrip (trip_ID t) (trip_RideID t) (trip_DriverID t) (trip_UserID t)
      TripStatusCompleted (trip_StartTime t) (Some now) (trip_PauseDurationSecs t)
      (trip_ActualDistanceKm trip) (trip_ActualDurationMin trip)
      (trip_RoutePolyline t) (trip_BaseFare trip) (trip_DistanceFare trip)
      (trip_TimeFare trip) (trip_SurgeAmount trip) (trip_TotalFare trip)
      (trip_CreatedAt t) now in
  (set trip,
   with_trips db
     (sql_update (fun t => bool_decide (trip_ID t = trip_ID trip)) set (trips db))).

(** ** rideOfferRepository *)

(** [Create]: id, [offered_at] and status [pending] are set on the struct,
    then the row is inserted; the insert is refused on a duplicate id, an
    unknown ride or driver, and on the [UNIQUE(ride_id, driver_id)]
    constraint. *)
Definition offerRepo_Create (now : Z) (fresh : string) (offer : RideOffer) (db : DB)
  : RideOffer * result DB :=
  let id := if decide (offer_ID offer = "") then fresh else offer_ID offer in
  let offer :=
    mkRideOffer id (offer_RideID offer) (offer_DriverID offer) OfferStatusPending
      now (offer_RespondedAt offer) (offer_ExpiresAt offer) in
  let row :=
    mkRideOffer id (offer_RideID offer) (offer_DriverID offer) OfferStatusPending
      now None (offer_ExpiresAt offer) in
  if existsb (fun o => bool_decide (offer_ID o = id)) (ride_offers db) then
    (offer, Err (SqlError "ride_offers_pkey"))
  else if negb (has_ride db (offer_RideID offer)) then
    (offer, Err (SqlError "ride_offers_ride_id_fkey"))
  else if negb (has_driver db (offer_DriverID offer)) then
    (offer, Err (SqlError "ride_offers_driver_id_fkey"))
  else if existsb (fun o => bool_decide (offer_RideID o = offer_RideID offer)
                            && bool_decide (offer_DriverID o = offer_DriverID offer))
            (ride_offers db) then
    (offer, Err (SqlError "ride_offers_ride_id_driver_id_key"))
  else (offer, Ok (with_offers db (ride_offers db ++ [row]))).

Definition offerRepo_GetByID (db : DB) (id : string) : option RideOffer :=
  sql_get (fun o => bool_decide (offer_ID o = id)) (ride_offers db).

Definition offerRepo_GetByRideAndDriver (db : DB) (rideID driverID : string)
  : option RideOffer :=
  sql_get (fun o => bool_decide (offer_RideID o = rideID)
                    && bool_decide (offer_DriverID o = driverID))
    (ride_offers db).

Definition offerRepo_UpdateStatus (now : Z) (id status : string) (db : DB) : DB :=
  with_offers db
    (sql_update (fun o => bool_decide (offer_ID o = id))
       (fun o => offer_update o status (Some now)) (ride_offers db)).

End Store.

(* ===================================================================== *)
(** * Presence cache ([internal/cache]) *)
(* ===================================================================== *)

Module Cache.
Import Models.

(** An entry of a [GEORADIUS] answer: member and distance in km. *)
Record GeoLocation := mkGeoLocation {
  geo_Name : string;
  geo_Dist : float
}.

(** What the services do not compute themselves.  [uuid_New n] is the n-th
    identifier [uuid.New().String()] hands out; [redis_GeoRadius key lng lat
    radiusKm] is the answer of [GEORADIUS ... WITHDIST COUNT 50 ASC] on the
    geo set at [key] (the modelled operations only read the geo sets);
    [strconv_ParseFloat s] is [strconv.ParseFloat(s, 64)], [None] when it
    returns an error. *)
Class Externals := {
  uuid_New : nat -> string;
  redis_GeoRadius : string -> float -> float -> float -> list GeoLocation;
  strconv_ParseFloat : string -> option float
}.

(** The Redis keys of the presence cache: hashes, and string values with the
    instant at which they expire. *)
Record Redis := mkRedis {
  hashes : gmap string (gmap string string);
  values : gmap string (string * Z)
}.

Definition driverLocationKeyPrefix : string := "drivers:locations:".
Definition driverMetaKeyPrefix : string := "driver:meta:".
Definition driverActiveRideKey : string := "driver:active:".

Record DriverWithDistance := mkDriverWithDistance {
  dwd_DriverID : string;
  dwd_Distance : float
}.

(** [m[k]] on a Go [map[string]string]: the empty string for a missing key. *)
Definition go_index (m : gmap string string) (k : string) : string :=
  default "" (m !! k).

(** [HGETALL]: the empty map for a missing key. *)
Definition GetDriverMeta (r : Redis) (driverID : string) : gmap string string :=
  default ∅ (hashes r !! (driverMetaKeyPrefix ++ driverID)%string).

Definition GetNearbyDrivers `{Externals} (r : Redis) (lat lng radiusKm : float)
  (vehicleType : string) : list DriverWithDistance :=
  let geoKey := (driverLocationKeyPrefix ++ vehicleType)%string in
  let locations := redis_GeoRadius geoKey lng lat radiusKm in
  List.map (fun loc => mkDriverWithDistance (geo_Name loc) (geo_Dist loc))
    (List.filter
       (fun loc => bool_decide (go_index (GetDriverMeta r (geo_Name loc)) "status" = "online"))
       locations).

Definition SetActiveRide (now : Z) (r : Redis) (driverID rideID : string) : Redis :=
  mkRedis (hashes r)
    (<[(driverActiveRideKey ++ driverID)%string := (rideID, now + Hour)]> (values r)).

(** [GET], with [redis.Nil] turned into the empty string. *)
Definition GetActiveRide (now : Z) (r : Redis) (driverID : string) : string :=
  match values r !! (driverActiveRideKey ++ driverID)%string with
  | Some (v, expires) => if now <? expires then v else ""
  | None => ""
  end.

Definition ClearKey (r : Redis) (key : string) : Redis :=
  mkRedis (hashes r) (delete key (values r)).

(** [ParseRating]: 5.0 for an empty or unparsable string. *)
Definition ParseRating `{Externals} (ratingStr : string) : float :=
  if decide (ratingStr = "") then 5.0%float
  else match strconv_ParseFloat ratingStr with
       | Some rating => rating
       | None => 5.0%float
       end.

End Cache.

(* ===================================================================== *)
(** * Go's [sort.Slice] *)
(* ===================================================================== *)

Module GoSort.

(** [sort.Slice] sorts a slice of at most twelve elements by insertion:
    [for i := 1; i < n; i++ { for j := i; j > 0 && less(j, j-1); j-- { swap(j, j-1) } }].
    The sorted prefix is kept with its last element first; [sift x] moves [x]
    left past every element it is [less] than.  (On longer slices the library
    partitions first; the order it leaves among elements neither of which is
    [less] than the other is not specified, the model keeps insertion.) *)
Fixpoint sift {A} (less : A -> A -> bool) (x : A) (prefix_rev : list A) : list A :=
  match prefix_rev with
  | [] => [x]
  | p :: ps => if less x p then p :: sift less x ps else x :: p :: ps
  end.

Definition sort_Slice {A} (less : A -> A -> bool) (data : list A) : list A :=
  List.rev (List.fold_left (fun prefix_rev x => sift less x prefix_rev) data []).

End GoSort.

(* ===================================================================== *)
(** * Services ([internal/service]) *)
(* ===================================================================== *)

Module Service.
Import Errors Models Store Cache Pricing GoNum GoSort.

(** What an operation runs against: the database, the presence cache, the
    wall clock ([time.Now()], constant while one operation runs) and the
    number of identifiers drawn from [uuid.New] so far. *)
Record World := mkWorld {
  db : DB;
  redis : Redis;
  now : Z;
  uuids : nat
}.

Definition with_db (w : World) (d : DB) : World :=
  mkWorld d (redis w) (now w) (uuids w).
Definition with_redis (w : World) (r : Redis) : World :=
  mkWorld (db w) r (now w) (uuids w).
Definition next_uuid (w : World) : World :=
  mkWorld (db w) (redis w) (now w) (S (uuids w)).

(** [ride.ToResponse()] with the user and driver projections attached. *)
Record RideResponse := mkRideResponse {
  resp_Ride : Ride;
  resp_User : option User;
  resp_Driver : option Driver
}.

(** ** rideService *)

Section RideService.
Context `{Externals} `{PricingService}.

Definition CreateRide (req : CreateRideRequest) (idempotencyKey : string) (w : World)
  : result Ride * World :=
  match (if decide (idempotencyKey = "") then None
         else rideRepo_GetByIdempotencyKey (db w) idempotencyKey) with
  | Some existingRide => (Ok existingRide, w)
  | None =>
  match userRepo_GetByID (db w) (req_UserID req) with
  | None => (Err (NotFound "user"), w)
  | Some user =>
  match rideRepo_GetActiveRideByUserID (db w) (req_UserID req) with
  | Some activeRide => (Err UserHasActiveRide, w)
  | None =>
    let distanceKm :=
      ps_EstimateDistance (loc_Lat (req_Pickup req)) (loc_Lng (req_Pickup req))
        (loc_Lat (req_Dropoff req)) (loc_Lng (req_Dropoff req)) in
    let durationMins := ps_EstimateDuration distanceKm in
    let nearbyDrivers :=
      GetNearbyDrivers (redis w) (loc_Lat (req_Pickup req)) (loc_Lng (req_Pickup req))
        2.0%float (req_VehicleType req) in
    let surgeMultiplier :=
      if Z.of_nat (length nearbyDrivers) <? 5
      then ps_CalculateSurge 10 (Z.of_nat (length nearbyDrivers))
      else 1.0%float in
    let fare :=
      ps_CalculateEstimatedFare (req_VehicleType req) distanceKm durationMins
        surgeMultiplier in
    let address (a : string) := if decide (a = "") then None else Some a in
    let ride :=
      mkRide "" (req_UserID req) None
        (loc_Lat (req_Pickup req)) (loc_Lng (req_Pickup req))
        (address (loc_Address (req_Pickup req)))
        (loc_Lat (req_Dropoff req)) (loc_Lng (req_Dropoff req))
        (address (loc_Address (req_Dropoff req)))
        (req_VehicleType req) RideStatusPending (Some (Total fare)) surgeMultiplier
        (Some distanceKm) (Some durationMins) (req_PaymentMethod req)
        (address idempotencyKey) None None 0 0 in
    match rideRepo_Create (now w) (uuid_New (uuids w)) ride (db w) with
    | (_, Err e) => (Err e, next_uuid w)
    | (ride, Ok db1) =>
        let db2 := rideRepo_UpdateStatus (now w) (ride_ID ride) RideStatusMatching db1 in
        (Ok (ride_with_status ride RideStatusMatching), next_uuid (with_db w db2))
    end
  end end end.

Definition CancelRide (id : string) (req : CancelRideRequest) (w : World)
  : option error * World :=
  match rideRepo_GetByID (db w) id with
  | None => (Some (NotFound "ride"), w)
  | Some ride =>
      if negb (Ride_CanTransitionTo ride RideStatusCancelled) then
        (Some (InvalidTransition (ride_Status ride) RideStatusCancelled), w)
      else
        let db1 := rideRepo_Cancel (now w) id (cancel_CancelledBy req)
                     (cancel_Reason req) (db w) in
        let db2 := match ride_DriverID ride with
                   | Some driverID =>
                       driverRepo_UpdateStatus (now w) driverID DriverStatusOnline db1
                   | None => db1
                   end in
        (None, with_db w db2)
  end.

Definition UpdateRideStatus (id status : string) (w : World) : option error * World :=
  match rideRepo_GetByID (db w) id with
  | None => (Some (NotFound "ride"), w)
  | Some ride =>
      if negb (Ride_CanTransitionTo ride status) then
        (Some (InvalidTransition (ride_Status ride) status), w)
      else (None, with_db w (rideRepo_UpdateStatus (now w) id status (db w)))
  end.

End RideService.

(** ** tripService *)

Section TripService.
Context `{Externals} `{PricingService}.

Definition StartTrip (rideID : string) (w : World) : result Trip * World :=
  match rideRepo_GetByID (db w) rideID with
  | None => (Err (NotFound "ride"), w)
  | Some ride =>
      if negb (bool_decide (ride_Status ride = RideStatusDriverArrived)) then
        (Err (BadRequest "driver must arrive before starting trip"), w)
      else
        match ride_DriverID ride with
        | None => (Err (BadRequest "no driver assigned"), w)
        | Some driverID =>
            match tripRepo_GetByRideID (db w) rideID with
            | Some existingTrip => (Ok existingTrip, w)
            | None =>
                let trip :=
                  mkTrip "" rideID driverID (ride_UserID ride) TripStatusStarted
                    None None 0 None None None None None None None None 0 0 in
                match tripRepo_Create (now w) (uuid_New (uuids w)) trip (db w) with
                | (_, Err e) => (Err e, next_uuid w)
                | (trip, Ok db1) =>
                    let db2 :=
                      rideRepo_UpdateStatus (now w) rideID RideStatusInProgress db1 in
                    (Ok trip, next_uuid (with_db w db2))
                end
            end
        end
  end.

(** [time.Duration.Minutes]: whole minutes plus the rest as a fraction. *)
Definition Duration_Minutes (d : Z) : float :=
  (float64_of_int (Z.quot d Minute) + float64_of_int (Z.rem d Minute) / (60 * 1e9))%float.

Definition EndTrip (tripID : string) (req : EndTripRequest) (w : World)
  : result Trip * World :=
  match tripRepo_GetByID (db w) tripID with
  | None => (Err (NotFound "trip"), w)
  | Some trip =>
      if negb (Trip_CanTransitionTo trip TripStatusCompleted) then
        (Err (InvalidTransition (trip_Status trip) TripStatusCompleted), w)
      else
        match rideRepo_GetByID (db w) (trip_RideID trip) with
        | None => (Err (NotFound "ride"), w)
        | Some ride =>
            let actualDistanceKm :=
              match end_OdometerKm req, ride_EstimatedDistanceKm ride with
              | Some km, _ => km
              | None, Some km => km
              | None, None =>
                  ps_EstimateDistance (ride_PickupLat ride) (ride_PickupLng ride)
                    (end_EndLat req) (end_EndLng req)
              end in
            let actualDurationMins :=
              match trip_StartTime trip with
              | Some startTime =>
                  let duration := now w - startTime in
                  let mins := int_of_float64 (Duration_Minutes duration)
                              - Z.quot (trip_PauseDurationSecs trip) 60 in
                  if mins <? 1 then 1 else mins
              | None => ps_EstimateDuration actualDistanceKm
              end in
            let fare :=
              ps_CalculateActualFare (ride_VehicleType ride) actualDistanceKm
                actualDurationMins (ride_SurgeMultiplier ride) in
            let trip :=
              mkTrip (trip_ID trip) (trip_RideID trip) (trip_DriverID trip)
                (trip_UserID trip) TripStatusCompleted (trip_StartTime trip)
                (trip_EndTime trip) (trip_PauseDurationSecs trip)
                (Some actualDistanceKm) (Some actualDurationMins)
                (trip_RoutePolyline trip) (Some (BaseFare fare))
                (Some (DistanceFare fare)) (Some (TimeFare fare))
                (Some (SurgeAmount fare)) (Some (Total fare))
                (trip_CreatedAt trip) (trip_UpdatedAt trip) in
            let '(trip, db1) := tripRepo_EndTrip (now w) trip (db w) in
            let db2 := rideRepo_UpdateStatus (now w) (trip_RideID trip)
                         RideStatusCompleted db1 in
            let db3 := driverRepo_UpdateStatus (now w) (trip_DriverID trip)
                         DriverStatusOnline db2 in
            let db4 := driverRepo_IncrementTotalTrips (now w) (trip_DriverID trip) db3 in
            let r1 := ClearKey (redis w) (driverActiveRideKey ++ trip_DriverID trip) in
            let r2 := ClearKey r1 ("user:active:" ++ trip_UserID trip) in
            (Ok trip, with_redis (with_db w db4) r2)
        end
  end.

End TripService.

(** ** driverService: the offer protocol *)

(** A database transaction ([sqlx.Tx]): the database as it was at [BeginTxx],
    the transaction's own view with its writes, and whether [Commit] went
    through.  What the deferred [tx.Rollback()] leaves behind is
    [tx_outcome]: the view of a committed transaction, the snapshot of any
    other. *)
Record Tx := mkTx {
  tx_snapshot : DB;
  tx_view : DB;
  tx_committed : bool
}.

Definition BeginTxx (d : DB) : Tx := mkTx d d false.
Definition tx_write (tx : Tx) (d : DB) : Tx := mkTx (tx_snapshot tx) d (tx_committed tx).
Definition tx_Commit (tx : Tx) : Tx := mkTx (tx_snapshot tx) (tx_view tx) true.
Definition tx_outcome (tx : Tx) : DB :=
  if tx_committed tx then tx_view tx else tx_snapshot tx.

Section DriverService.
Context `{Externals}.

(** [fault k] says that the k-th call on the database connection made by
    [AcceptRide] (0 [BeginTxx], 1 and 2 the locking reads, 3 to 6 the
    updates, 7 [Commit]) comes back with an error of the driver. *)
Variable fault : nat -> bool.

(** The transaction of [AcceptRide], from the first read to [Commit]. *)
Definition acceptRideTx (now : Z) (driverID : string) (req : AcceptRideRequest)
  (tx : Tx) : result Ride * Tx :=
  if fault 1 then (Err (SqlError "select ride_offers"), tx) else
  match offerRepo_GetByID (tx_view tx) (accept_OfferID req) with
  | None => (Err (NotFound "offer"), tx)
  | Some offer =>
  if negb (bool_decide (offer_DriverID offer = driverID)) then
    (Err (Unauthorized "offer not for this driver"), tx)
  else if negb (bool_decide (offer_RideID offer = accept_RideID req)) then
    (Err (BadRequest "offer ride mismatch"), tx)
  else if IsExpired now offer then (Err OfferExpired, tx)
  else if negb (bool_decide (offer_Status offer = OfferStatusPending)) then
    (Err (BadRequest "offer already responded"), tx)
  else if fault 2 then (Err (SqlError "select rides"), tx) else
  match rideRepo_GetByID (tx_view tx) (accept_RideID req) with
  | None => (Err (NotFound "ride"), tx)
  | Some ride =>
  if negb (bool_decide (ride_Status ride = RideStatusMatching)) then
    (Err RideAlreadyAssigned, tx)
  else if fault 3 then (Err (SqlError "update ride_offers"), tx) else
  (* UPDATE ride_offers SET status = 'accepted', responded_at WHERE id *)
  let tx := tx_write tx (with_offers (tx_view tx)
              (sql_update (fun o => bool_decide (offer_ID o = offer_ID offer))
                 (fun o => offer_update o OfferStatusAccepted (Some now))
                 (ride_offers (tx_view tx)))) in
  (* UPDATE rides SET driver_id, status = 'driver_assigned' WHERE id;
     [driver_id] references [drivers(id)] *)
  if fault 4 then (Err (SqlError "update rides"), tx)
  else if existsb (fun r => bool_decide (ride_ID r = ride_ID ride)) (rides (tx_view tx))
          && negb (has_driver (tx_view tx) driverID) then
    (Err (SqlError "rides_driver_id_fkey"), tx)
  else
  let tx := tx_write tx (with_rides (tx_view tx)
              (sql_update (fun r => bool_decide (ride_ID r = ride_ID ride))
                 (fun r => ride_update r (Some driverID) RideStatusDriverAssigned
                             (ride_CancelledBy r) (ride_CancellationReason r) now)
                 (rides (tx_view tx)))) in
  (* UPDATE drivers SET status = 'busy' WHERE id *)
  if fault 5 then (Err (SqlError "update drivers"), tx) else
  let tx := tx_write tx (driverRepo_UpdateStatus now driverID DriverStatusBusy
                           (tx_view tx)) in
  (* UPDATE ride_offers SET status = 'expired' WHERE ride_id AND status = 'pending' *)
  if fault 6 then (Err (SqlError "update ride_offers"), tx) else
  let tx := tx_write tx (with_offers (tx_view tx)
              (sql_update (fun o => bool_decide (offer_RideID o = ride_ID ride)
                                    && bool_decide (offer_Status o = OfferStatusPending))
                 (fun o => offer_update o OfferStatusExpired (Some now))
                 (ride_offers (tx_view tx)))) in
  if fault 7 then (Err (SqlError "commit"), tx)
  else (Ok ride, tx_Commit tx)
  end end.

Definition AcceptRide (driverID : string) (req : AcceptRideRequest) (w : World)
  : result RideResponse * World :=
  if fault 0 then (Err (SqlError "begin"), w) else
  let '(r, tx) := acceptRideTx (now w) driverID req (BeginTxx (db w)) in
  (* defer tx.Rollback() *)
  let w := with_db w (tx_outcome tx) in
  match r with
  | Err e => (Err e, w)
  | Ok ride =>
      let w := with_redis w (SetActiveRide (now w) (redis w) driverID (ride_ID ride)) in
      let ride := ride_update ride (Some driverID) RideStatusDriverAssigned
                    (ride_CancelledBy ride) (ride_CancellationReason ride)
                    (ride_UpdatedAt ride) in
      (Ok (mkRideResponse ride (userRepo_GetByID (db w) (ride_UserID ride))
             (driverRepo_GetByID (db w) driverID)), w)
  end.

Definition DeclineRide (driverID offerID : string) (w : World) : option error * World :=
  match offerRepo_GetByID (db w) offerID with
  | None => (Some (NotFound "offer"), w)
  | Some offer =>
      if negb (bool_decide (offer_DriverID offer = driverID)) then
        (Some (Unauthorized "offer not for this driver"), w)
      else if negb (bool_decide (offer_Status offer = OfferStatusPending)) then
        (Some (BadRequest "offer already responded"), w)
      else (None, with_db w (offerRepo_UpdateStatus (now w) offerID OfferStatusDeclined
                               (db w)))
  end.

End DriverService.

(** ** matchingService *)

Definition defaultOfferTimeout : Z := 15 * Second.
Definition defaultMatchRadius : float := 5.0%float.

Record ScoredDriver := mkScoredDriver {
  sd_DriverID : string;
  sd_Score : float;
  sd_Distance : float
}.

Section MatchingService.
Context `{Externals}.

(** The three filters of [scoreDrivers]: an offer of this ride to the driver
    exists, the cached status is not [online], an active-ride pointer is set. *)
Definition survives (w : World) (ride : Ride) (d : DriverWithDistance) : bool :=
  match offerRepo_GetByRideAndDriver (db w) (ride_ID ride) (dwd_DriverID d) with
  | Some existing => false
  | None =>
      let meta := GetDriverMeta (redis w) (dwd_DriverID d) in
      if negb (bool_decide (go_index meta "status" = DriverStatusOnline)) then false
      else if negb (bool_decide (GetActiveRide (now w) (redis w) (dwd_DriverID d) = ""))
      then false
      else true
  end.

(** [score := 100.0; score -= d.Distance * 10; score += rating * 5] *)
Definition score_of (w : World) (d : DriverWithDistance) : ScoredDriver :=
  let meta := GetDriverMeta (redis w) (dwd_DriverID d) in
  let score := 100.0%float in
  let score := (score - dwd_Distance d * 10)%float in
  let rating := ParseRating (go_index meta "rating") in
  let score := (score + rating * 5)%float in
  mkScoredDriver (dwd_DriverID d) score (dwd_Distance d).

Definition scoreDrivers (w : World) (drivers : list DriverWithDistance) (ride : Ride)
  : list ScoredDriver :=
  let scored := List.map (score_of w) (List.filter (survives w ride) drivers) in
  sort_Slice (fun a b => (sd_Score b <? sd_Score a)%float) scored.

(** One round of the offer loop: a failed insert is logged and skipped. *)
Definition offer_to (ride : Ride) (w : World) (driver : ScoredDriver) : World :=
  let offer :=
    mkRideOffer "" (ride_ID ride) (sd_DriverID driver) "" 0 None
      (now w + defaultOfferTimeout) in
  match offerRepo_Create (now w) (uuid_New (uuids w)) offer (db w) with
  | (_, Err e) => next_uuid w
  | (_, Ok db1) => next_uuid (with_db w db1)
  end.

(** The candidates after the fallback: the answer of the spatial index, or,
    when it is empty, the online drivers of the class in the database that
    have coordinates, each at distance 0. *)
Definition candidates (ride : Ride) (w : World) : list DriverWithDistance :=
  let nearbyDrivers :=
    GetNearbyDrivers (redis w) (ride_PickupLat ride) (ride_PickupLng ride)
      defaultMatchRadius (ride_VehicleType ride) in
  if (length nearbyDrivers =? 0)%nat then
    (nearbyDrivers ++
     List.map (fun d => mkDriverWithDistance (driver_ID d) 0%float)
       (List.filter (fun d => bool_decide (is_Some (driver_CurrentLat d))
                              && bool_decide (is_Some (driver_CurrentLng d)))
          (driverRepo_GetOnlineDriversByVehicleType (db w) (ride_VehicleType ride))))%list
  else nearbyDrivers.

Definition FindAndOfferDrivers (ride : Ride) (w : World) : option error * World :=
  let nearbyDrivers :=
    GetNearbyDrivers (redis w) (ride_PickupLat ride) (ride_PickupLng ride)
      defaultMatchRadius (ride_VehicleType ride) in
  let dbDrivers :=
    driverRepo_GetOnlineDriversByVehicleType (db w) (ride_VehicleType ride) in
  if (length nearbyDrivers =? 0)%nat && (length dbDrivers =? 0)%nat then
    (* the index and the database fallback are both empty: cancel the ride *)
    (Some ErrNoDriversAvailable,
     with_db w (rideRepo_Cancel (now w) (ride_ID ride) "system"
                  "no drivers available" (db w)))
  else
    let scoredDrivers := scoreDrivers w (candidates ride w) ride in
    if (length scoredDrivers =? 0)%nat then (Some ErrNoDriversAvailable, w)
    else
      let maxOffers := if (length scoredDrivers <? 3)%nat
                       then length scoredDrivers else 3%nat in
      (None, List.fold_left (offer_to ride) (List.firstn maxOffers scoredDrivers) w).

End MatchingService.

End Service.

(* ===================================================================== *)
(** * Middleware ([internal/middleware]) *)
(* ===================================================================== *)

Module Middleware.
Import Models.

Definition MethodPost  : string := "POST".
Definition MethodPut   : string := "PUT".
Definition MethodPatch : string := "PATCH".

(** What a handler sends: a byte body, or the JSON object
    [{error, message}] the middlewares encode. *)
Inductive body :=
| Raw (bytes : string)
| ErrorJSON (error message : string).

Record Request := mkRequest {
  Method : string;
  Path : string;
  RemoteAddr : string;
  Header : gmap string string;
  Body : string
}.

Record Response := mkResponse {
  Status : Z;
  Headers : gmap string string;
  Payload : body
}.

Definition Header_Get (h : gmap string string) (k : string) : string :=
  default "" (h !! k).

(** ** Idempotency layer *)

Definition IdempotencyHeader : string := "Idempotency-Key".
Definition idempotencyTTL : Z := 24 * Hour.
Definition idempotencyPrefix : string := "idempotency:".

Record cachedResponse := mkCachedResponse {
  StatusCode : Z;
  CachedHeaders : gmap string string;
  CachedBody : body;
  BodyHash : string
}.

(** The Redis keys of the layer: the stored responses (kept as the struct
    that is marshalled to JSON) and the locks, each with its expiry. *)
Record IdemStore := mkIdemStore {
  responses : gmap string (cachedResponse * Z);
  locks : gmap string Z
}.

Definition getCachedResponse (now : Z) (s : IdemStore) (key : string)
  : option cachedResponse :=
  match responses s !! key with
  | Some (cached, expires) => if now <? expires then Some cached else None
  | None => None
  end.

(** [SETNX key 1 EX 30]: true when the key was set. *)
Definition SetNX (now : Z) (s : IdemStore) (key : string) : bool * IdemStore :=
  match locks s !! key with
  | Some expires =>
      if now <? expires then (false, s)
      else (true, mkIdemStore (responses s) (<[key := now + 30 * Second]> (locks s)))
  | None => (true, mkIdemStore (responses s) (<[key := now + 30 * Second]> (locks s)))
  end.

Section Idempotency.
(** The downstream handler over the application's state, and
    [hashBody] (hex of [sha256.Sum256]). *)
Variable App : Type.
Variable next : Request -> App -> Response * App.
Variable hashBody : string -> string.

Definition IdempotencyHandler (now : Z) (r : Request) (st : IdemStore * App)
  : Response * (IdemStore * App) :=
  let '(s, app) := st in
  if negb (bool_decide (Method r = MethodPost))
     && negb (bool_decide (Method r = MethodPut))
     && negb (bool_decide (Method r = MethodPatch)) then
    let '(resp, app) := next r app in (resp, (s, app))
  else
  let idempotencyKey := Header_Get (Header r) IdempotencyHeader in
  if decide (idempotencyKey = "") then
    let '(resp, app) := next r app in (resp, (s, app))
  else
  let bodyHash := hashBody (Body r) in
  let cacheKey := (idempotencyPrefix ++ idempotencyKey)%string in
  match getCachedResponse now s cacheKey with
  | Some cached =>
      if negb (bool_decide (BodyHash cached = bodyHash)) then
        (mkResponse 409 (<["Content-Type" := "application/json"]> ∅)
           (ErrorJSON "idempotency_conflict"
              "idempotency key already used with different request"),
         (s, app))
      else
        (mkResponse (StatusCode cached) (CachedHeaders cached) (CachedBody cached),
         (s, app))
  | None =>
      let lockKey := (cacheKey ++ ":lock")%string in
      let '(locked, s) := SetNX now s lockKey in
      if negb locked then
        (mkResponse 409 (<["Content-Type" := "application/json"]> ∅)
           (ErrorJSON "request_in_progress"
              "a request with this idempotency key is already being processed"),
         (s, app))
      else
        let '(resp, app) := next r app in
        let s :=
          if (200 <=? Status resp) && (Status resp <? 300) then
            let headers : gmap string string :=
              <["Content-Type" := Header_Get (Headers resp) "Content-Type"]> ∅ in
            let cached := mkCachedResponse (Status resp) headers (Payload resp) bodyHash in
            mkIdemStore (<[cacheKey := (cached, now + idempotencyTTL)]> (responses s))
              (locks s)
          else s in
        (* defer m.redis.Del(ctx, lockKey) *)
        (resp, (mkIdemStore (responses s) (delete lockKey (locks s)), app))
  end.

End Idempotency.

(** ** Rate limiter *)

Record RateLimiter := NewRateLimiter {
  requests : Z;
  window : Z
}.

(** The counters are a map from key to value and, when one is set, the
    instant of expiry.  A key whose expiry has passed is gone. *)
Definition live (now : Z) (c : gmap string (Z * option Z)) (key : string)
  : option (Z * option Z) :=
  match c !! key with
  | Some (n, Some expires) => if now <? expires then Some (n, Some expires) else None
  | other => other
  end.

(** [INCR key]: the new value; a missing key counts from zero and has no
    expiry. *)
Definition Incr (now : Z) (c : gmap string (Z * option Z)) (key : string)
  : Z * gmap string (Z * option Z) :=
  match live now c key with
  | Some (n, ttl) => (n + 1, <[key := (n + 1, ttl)]> c)
  | None => (1, <[key := (1, None)]> c)
  end.

(** [EXPIRE key window]: the key, when present, expires [window] from now. *)
Definition Expire (now : Z) (c : gmap string (Z * option Z)) (key : string) (d : Z)
  : gmap string (Z * option Z) :=
  match live now c key with
  | Some (n, _) => <[key := (n, Some (now + d))]> c
  | None => c
  end.

(** [isAllowed]: [pipe_fails] is [pipe.Exec] returning an error. *)
Definition isAllowed (rl : RateLimiter) (pipe_fails : bool) (now : Z)
  (c : gmap string (Z * option Z)) (key : string)
  : (bool * Z * bool) * gmap string (Z * option Z) :=
  if pipe_fails then ((true, requests rl, true), c)
  else
    let '(count, c) := Incr now c key in
    let c := Expire now c key (window rl) in
    let remaining := requests rl - count in
    let remaining := if remaining <? 0 then 0 else remaining in
    ((count <=? requests rl, remaining, false), c).

Definition rateLimitKey (r : Request) : string :=
  let clientIP :=
    if decide (Header_Get (Header r) "X-Forwarded-For" = "") then RemoteAddr r
    else Header_Get (Header r) "X-Forwarded-For" in
  ("ratelimit:" ++ clientIP ++ ":" ++ Path r)%string.

Section RateLimit.
Variable App : Type.
Variable next : Request -> App -> Response * App.
(** [fmt.Sprintf("%d", n)] *)
Variable itoa : Z -> string.

Definition RateLimitHandler (rl : RateLimiter) (pipe_fails : bool) (now : Z)
  (r : Request) (st : gmap string (Z * option Z) * App)
  : Response * (gmap string (Z * option Z) * App) :=
  let '(c, app) := st in
  let key := rateLimitKey r in
  let '((allowed, remaining, err), c) := isAllowed rl pipe_fails now c key in
  if err then
    let '(resp, app) := next r app in (resp, (c, app))
  else
    let limitHeaders : gmap string string :=
      <["X-RateLimit-Remaining" := itoa remaining]>
        (<["X-RateLimit-Limit" := itoa (requests rl)]> ∅) in
    if negb allowed then
      (mkResponse 429 (<["Content-Type" := "application/json"]> limitHeaders)
         (ErrorJSON "rate_limit_exceeded" "too many requests, please try again later"),
       (c, app))
    else
      let '(resp, app) := next r app in
      (mkResponse (Status resp) (Headers resp ∪ limitHeaders) (Payload resp), (c, app)).

End RateLimit.

End Middleware.

(* ===================================================================== *)
(** * Trip service: reading, pausing and resuming a trip *)
(* ===================================================================== *)

Module TripLifecycle.
Import Errors Models Store Service.

(** [func (s *tripService) GetTrip] *)
Definition GetTrip (tripID : string) (w : World) : result Trip :=
  match tripRepo_GetByID (db w) tripID with
  | None => Err (NotFound "trip")
  | Some trip => Ok trip
  end.

(** [func (s *tripService) PauseTrip] *)
Definition PauseTrip (tripID : string) (w : World) : option error * World :=
  match tripRepo_GetByID (db w) tripID with
  | None => (Some (NotFound "trip"), w)
  | Some trip =>
      if negb (Trip_CanTransitionTo trip TripStatusPaused) then
        (Some (InvalidTransition (trip_Status trip) TripStatusPaused), w)
      else
        (None, with_db w (tripRepo_UpdateStatus (now w) tripID TripStatusPaused (db w)))
  end.

(** [func (s *tripService) ResumeTrip] *)
Definition ResumeTrip (tripID : string) (w : World) : option error * World :=
  match tripRepo_GetByID (db w) tripID with
  | None => (Some (NotFound "trip"), w)
  | Some trip =>
      if negb (bool_decide (trip_Status trip = TripStatusPaused)) then
        (Some (BadRequest "trip is not paused"), w)
      else
        (None, with_db w (tripRepo_UpdateStatus (now w) tripID TripStatusStarted (db w)))
  end.

(** The clock moves on; nothing else does. *)
Definition at_time (w : World) (t : Z) : World :=
  mkWorld (db w) (redis w) t (uuids w).


End TripLifecycle.

(* ===================================================================== *)
(** * Driver service: registration and presence *)
(* ===================================================================== *)

Module Fleet.
Import Errors Models Store Cache Service.

Record CreateDriverRequest := mkCreateDriverRequest {
  new_Phone : string;
  new_Name : string;
  new_Email : string;
  new_LicenseNumber : string;
  new_VehicleType : string;
  new_VehicleNumber : string
}.

(** ** driverRepository *)

Definition driverRepo_GetByPhone (db : DB) (phone : string) : option Driver :=
  sql_get (fun d => bool_decide (driver_Phone d = phone)) (drivers db).

(** [Create] sets id, timestamps, rating 5.0, no trips and status [offline]
    on the struct and inserts the listed columns ([current_lat] and
    [current_lng] stay NULL).  The insert is refused on a duplicate primary
    key and on a phone number that is taken ([phone ... UNIQUE]). *)
Definition driverRepo_Create (now : Z) (fresh : string) (driver : Driver) (db : DB)
  : Driver * result DB :=
  let id := if decide (driver_ID driver = "") then fresh else driver_ID driver in
  let driver :=
    mkDriver id (driver_Phone driver) (driver_Name driver) (driver_Email driver)
      (driver_LicenseNumber driver) (driver_VehicleType driver)
      (driver_VehicleNumber driver) DriverStatusOffline 5.0%float 0
      (driver_CurrentLat driver) (driver_CurrentLng driver) now now in
  let row :=
    mkDriver id (driver_Phone driver) (driver_Name driver) (driver_Email driver)
      (driver_LicenseNumber driver) (driver_VehicleType driver)
      (driver_VehicleNumber driver) DriverStatusOffline 5.0%float 0 None None now now in
  if has_driver db id then (driver, Err (SqlError "drivers_pkey"))
  else if existsb (fun d => bool_decide (driver_Phone d = driver_Phone driver))
            (drivers db) then
    (driver, Err (SqlError "drivers_phone_key"))
  else (driver, Ok (with_drivers db (drivers db ++ [row])%list)).

(** ** rideRepository *)

Definition rideRepo_GetActiveRideByDriverID (db : DB) (driverID : string)
  : option Ride :=
  latest_ride (fun r => bool_decide (ride_DriverID r = Some driverID) && ride_is_active r)
    (rides db).

(** ** driverLocationCache *)

Section Presence.
(** [fmt.Sprintf("%.1f", rating)] *)
Variable Sprintf_1f : float -> string.

(** [HSET driver:meta:<id> status ... vehicle_type ... rating ...]: the three
    fields are written, any other field of the hash stays. *)
Definition SetDriverMeta (r : Redis) (driverID status vehicleType : string)
  (rating : float) : Redis :=
  let metaKey := (driverMetaKeyPrefix ++ driverID)%string in
  let fields : gmap string string :=
    <["status" := status]>
      (<["vehicle_type" := vehicleType]>
         (<["rating" := Sprintf_1f rating]> (default ∅ (hashes r !! metaKey)))) in
  mkRedis (<[metaKey := fields]> (hashes r)) (values r).

Definition ClearActiveRide (r : Redis) (driverID : string) : Redis :=
  ClearKey r (driverActiveRideKey ++ driverID)%string.

(** ** driverService *)

Context `{Externals}.

(** [func (s *driverService) CreateDriver] *)
Definition CreateDriver (req : CreateDriverRequest) (w : World)
  : result Driver * World :=
  match driverRepo_GetByPhone (db w) (new_Phone req) with
  | Some existing =>
      (Err (Conflict "driver with this phone already exists"), w)
  | None =>
      let driver :=
        mkDriver "" (new_Phone req) (new_Name req)
          (if decide (new_Email req = "") then None else Some (new_Email req))
          (new_LicenseNumber req) (new_VehicleType req) (new_VehicleNumber req)
          "" 0%float 0 None None 0 0 in
      match driverRepo_Create (now w) (uuid_New (uuids w)) driver (db w) with
      | (_, Err e) => (Err e, next_uuid w)
      | (driver, Ok db1) => (Ok driver, next_uuid (with_db w db1))
      end
  end.

(** [func (s *driverService) GoOnline] *)
Definition GoOnline (driverID : string) (w : World) : option error * World :=
  match driverRepo_GetByID (db w) driverID with
  | None => (Some (NotFound "driver"), w)
  | Some driver =>
      let db1 := driverRepo_UpdateStatus (now w) driverID DriverStatusOnline (db w) in
      let r1 := SetDriverMeta (redis w) driverID DriverStatusOnline
                  (driver_VehicleType driver) (driver_Rating driver) in
      (None, with_redis (with_db w db1) r1)
  end.

(** [func (s *driverService) GoOffline].  The closing [RemoveDriver] is a
    [ZREM] on the geo set of the vehicle class; the geo sets are what
    [redis_GeoRadius] answers from and hold none of the keys of [Redis]. *)
Definition GoOffline (driverID : string) (w : World) : option error * World :=
  match driverRepo_GetByID (db w) driverID with
  | None => (Some (NotFound "driver"), w)
  | Some driver =>
      match rideRepo_GetActiveRideByDriverID (db w) driverID with
      | Some activeRide =>
          (Some (BadRequest "cannot go offline with active ride"), w)
      | None =>
          let db1 := driverRepo_UpdateStatus (now w) driverID DriverStatusOffline (db w) in
          let r1 := SetDriverMeta (redis w) driverID DriverStatusOffline
                      (driver_VehicleType driver) (driver_Rating driver) in
          (None, with_redis (with_db w db1) r1)
      end
  end.

End Presence.

(** ** Pending offers of a driver *)

(** [ORDER BY key DESC]: the rows by descending key; rows with one key stay
    in table order (the database promises no order among them). *)
Fixpoint insert_desc {A} (key : A -> Z) (x : A) (sorted : list A) : list A :=
  match sorted with
  | [] => [x]
  | y :: ys => if key x <? key y then y :: insert_desc key x ys else x :: y :: ys
  end.

Definition order_by_desc {A} (key : A -> Z) (t : list A) : list A :=
  List.fold_right (insert_desc key) [] t.

(** [WHERE driver_id = $1 AND status = 'pending' AND expires_at > NOW()
     ORDER BY offered_at DESC] *)
Definition offerRepo_GetPendingByDriverID (db : DB) (now : Z) (driverID : string)
  : list RideOffer :=
  order_by_desc offer_OfferedAt
    (List.filter
       (fun o => bool_decide (offer_DriverID o = driverID)
                 && bool_decide (offer_Status o = OfferStatusPending)
                 && (now <? offer_ExpiresAt o))
       (ride_offers db)).

Record RideOfferResponse := mkRideOfferResponse {
  ror_ID : string;
  ror_RideID : string;
  ror_Status : string;
  ror_ExpiresAt : Z;
  ror_Ride : option RideResponse
}.

(** [func (o *RideOffer) ToResponse() *RideOfferResponse] *)
Definition RideOffer_ToResponse (o : RideOffer) : RideOfferResponse :=
  mkRideOfferResponse (offer_ID o) (offer_RideID o) (offer_Status o) (offer_ExpiresAt o)
    None.

(** [func (s *matchingService) GetPendingOffers] *)
Definition GetPendingOffers (driverID : string) (w : World) : list RideOfferResponse :=
  List.map
    (fun offer =>
       let response := RideOffer_ToResponse offer in
       match rideRepo_GetByID (db w) (offer_RideID offer) with
       | Some ride =>
           mkRideOfferResponse (ror_ID response) (ror_RideID response)
             (ror_Status response) (ror_ExpiresAt response)
             (Some (mkRideResponse ride None None))
       | None => response
       end)
    (offerRepo_GetPendingByDriverID (db w) (now w) driverID).

End Fleet.

(* ===================================================================== *)
(** * Payments ([models.Payment], payment repository, payment service) *)
(* ===================================================================== *)

Module Payments.
Import Errors Models Store Cache Service.

Definition PaymentStatusPending    : string := "pending".
Definition PaymentStatusProcessing : string := "processing".
Definition PaymentStatusCompleted  : string := "completed".
Definition PaymentStatusFailed     : string := "failed".
Definition PaymentStatusRefunded   : string := "refunded".

Definition PaymentMethodCash   : string := "cash".
Definition PaymentMethodWallet : string := "wallet".
Definition PaymentMethodCard   : string := "card".
Definition PaymentMethodUPI    : string := "upi".

(** The answer of a payment processor; [psp_ProcessedAt] is the instant that
    is formatted into the field. *)
Record PSPResponse := mkPSPResponse {
  psp_TransactionID : string;
  psp_Status : string;
  psp_Message : string;
  psp_ProcessedAt : Z
}.

(** The documents marshalled into the [psp_response] column. *)
Inductive PSPDocument :=
| PSPAnswer (r : PSPResponse)
| PSPFailure (error : string)
| PSPRefund (refund_id : string) (refunded_at : Z).

Record Payment := mkPayment {
  pay_ID : string;
  pay_TripID : string;
  pay_UserID : string;
  pay_DriverID : string;
  pay_Amount : float;
  pay_Currency : string;
  pay_Method : string;
  pay_Status : string;
  pay_PSPTransactionID : option string;
  pay_PSPResponse : option PSPDocument;
  pay_IdempotencyKey : option string;
  pay_CreatedAt : Z;
  pay_UpdatedAt : Z
}.

Record CreatePaymentRequest := mkCreatePaymentRequest {
  charge_TripID : string;
  charge_Method : string;
  charge_IdempotencyKey : string
}.

Record PaymentResponse := mkPaymentResponse {
  receipt_ID : string;
  receipt_TripID : string;
  receipt_Amount : float;
  receipt_Currency : string;
  receipt_Method : string;
  receipt_Status : string;
  receipt_TransactionID : option string
}.

(** [func (p *Payment) ToResponse() *PaymentResponse] *)
Definition Payment_ToResponse (p : Payment) : PaymentResponse :=
  mkPaymentResponse (pay_ID p) (pay_TripID p) (pay_Amount p) (pay_Currency p)
    (pay_Method p) (pay_Status p) (pay_PSPTransactionID p).

(** [func (e *APIError) Error() string], and the message of the other
    errors. *)
Definition error_Error (e : error) : string :=
  match e with
  | Api a => Message a
  | Sentinel msg => msg
  | SqlError what => what
  end.

(** What the payment service runs against: the world of the other services
    and the [payments] table. *)
Record Ledger := mkLedger {
  world : World;
  payments : list Payment
}.

Definition with_world (l : Ledger) (w : World) : Ledger := mkLedger w (payments l).
Definition with_payments (l : Ledger) (t : list Payment) : Ledger := mkLedger (world l) t.

(** ** paymentRepository *)

Definition has_trip (d : DB) (id : string) : bool :=
  existsb (fun t => bool_decide (trip_ID t = id)) (trips d).

(** [Create]: id, timestamps, status [pending] and the default currency are
    set on the struct; the row carries the listed columns, the processor
    columns stay NULL.  The insert is refused on a duplicate primary key, an
    unknown trip, user or driver, and a duplicate idempotency key. *)
Definition paymentRepo_Create (now : Z) (fresh : string) (payment : Payment)
  (d : DB) (t : list Payment) : Payment * result (list Payment) :=
  let id := if decide (pay_ID payment = "") then fresh else pay_ID payment in
  let currency :=
    if decide (pay_Currency payment = "") then "INR" else pay_Currency payment in
  let payment :=
    mkPayment id (pay_TripID payment) (pay_UserID payment) (pay_DriverID payment)
      (pay_Amount payment) currency (pay_Method payment) PaymentStatusPending
      (pay_PSPTransactionID payment) (pay_PSPResponse payment)
      (pay_IdempotencyKey payment) now now in
  let row :=
    mkPayment id (pay_TripID payment) (pay_UserID payment) (pay_DriverID payment)
      (pay_Amount payment) currency (pay_Method payment) PaymentStatusPending
      None None (pay_IdempotencyKey payment) now now in
  if existsb (fun p => bool_decide (pay_ID p = id)) t then
    (payment, Err (SqlError "payments_pkey"))
  else if negb (has_trip d (pay_TripID payment)) then
    (payment, Err (SqlError "payments_trip_id_fkey"))
  else if negb (has_user d (pay_UserID payment)) then
    (payment, Err (SqlError "payments_user_id_fkey"))
  else if negb (has_driver d (pay_DriverID payment)) then
    (payment, Err (SqlError "payments_driver_id_fkey"))
  else if match pay_IdempotencyKey payment with
          | Some k => existsb (fun p => bool_decide (pay_IdempotencyKey p = Some k)) t
          | None => false
          end then (payment, Err (SqlError "payments_idempotency_key_key"))
  else (payment, Ok (t ++ [row])%list).

Definition paymentRepo_GetByID (t : list Payment) (id : string) : option Payment :=
  sql_get (fun p => bool_decide (pay_ID p = id)) t.

(** [WHERE trip_id = $1 ORDER BY created_at DESC LIMIT 1] *)
Definition paymentRepo_GetByTripID (t : list Payment) (tripID : string)
  : option Payment :=
  List.fold_left
    (fun best p =>
       if bool_decide (pay_TripID p = tripID) then
         match best with
         | Some b => if pay_CreatedAt b <? pay_CreatedAt p then Some p else best
         | None => Some p
         end
       else best)
    t None.

Definition paymentRepo_GetByIdempotencyKey (t : list Payment) (key : string)
  : option Payment :=
  sql_get (fun p => bool_decide (pay_IdempotencyKey p = Some key)) t.

Definition paymentRepo_UpdateStatus (now : Z) (id status : string)
  (pspTxnID : option string) (pspResponse : PSPDocument) (t : list Payment)
  : list Payment :=
  sql_update (fun p => bool_decide (pay_ID p = id))
    (fun p =>
       mkPayment (pay_ID p) (pay_TripID p) (pay_UserID p) (pay_DriverID p)
         (pay_Amount p) (pay_Currency p) (pay_Method p) status pspTxnID
         (Some pspResponse) (pay_IdempotencyKey p) (pay_CreatedAt p) now)
    t.

(** ** paymentService *)

Section PaymentService.
Context `{Externals}.

(** [uuid.New().String()[:8]]: the first eight of the 36 characters of a
    UUID. *)
Definition short_uuid (n : nat) : string := String.substring 0 8 (uuid_New n).

(** The mock processors: each draws an identifier and succeeds. *)
Definition processCashPayment (payment : Payment) (w : World) : PSPResponse * World :=
  (mkPSPResponse ("CASH_" ++ short_uuid (uuids w)) "success" "Cash payment collected"
     (now w), next_uuid w).

Definition processWalletPayment (payment : Payment) (w : World)
  : (PSPResponse * option error) * World :=
  ((mkPSPResponse ("WAL_" ++ short_uuid (uuids w)) "success"
      "Wallet payment successful" (now w), None), next_uuid w).

Definition processExternalPayment (payment : Payment) (w : World)
  : (PSPResponse * option error) * World :=
  ((mkPSPResponse ("PSP_" ++ short_uuid (uuids w)) "success"
      ("Payment successful via " ++ pay_Method payment) (now w), None), next_uuid w).

(** [func (s *paymentService) ProcessPayment] *)
Definition ProcessPayment (req : CreatePaymentRequest) (l : Ledger)
  : result PaymentResponse * Ledger :=
  let w := world l in
  match (if decide (charge_IdempotencyKey req = "") then None
         else paymentRepo_GetByIdempotencyKey (payments l) (charge_IdempotencyKey req)) with
  | Some existing => (Ok (Payment_ToResponse existing), l)
  | None =>
  match tripRepo_GetByID (db w) (charge_TripID req) with
  | None => (Err (NotFound "trip"), l)
  | Some trip =>
  if negb (bool_decide (trip_Status trip = TripStatusCompleted)) then
    (Err (BadRequest "trip is not completed"), l)
  else
  match trip_TotalFare trip with
  | None => (Err (BadRequest "trip fare not calculated"), l)
  | Some totalFare =>
  match (match paymentRepo_GetByTripID (payments l) (charge_TripID req) with
         | Some existing =>
             if bool_decide (pay_Status existing = PaymentStatusCompleted)
             then Some existing else None
         | None => None
         end) with
  | Some existing => (Ok (Payment_ToResponse existing), l)
  | None =>
    let payment :=
      mkPayment "" (trip_ID trip) (trip_UserID trip) (trip_DriverID trip) totalFare
        "INR" (charge_Method req) PaymentStatusPending None None
        (if decide (charge_IdempotencyKey req = "") then None
         else Some (charge_IdempotencyKey req)) 0 0 in
    match paymentRepo_Create (now w) (uuid_New (uuids w)) payment (db w) (payments l) with
    | (_, Err e) => (Err e, with_world l (next_uuid w))
    | (payment, Ok t1) =>
        let l := mkLedger (next_uuid w) t1 in
        let w := world l in
        let processed : option ((PSPResponse * option error) * World) :=
          if decide (charge_Method req = PaymentMethodCash) then
            let '(r, w) := processCashPayment payment w in Some ((r, None), w)
          else if decide (charge_Method req = PaymentMethodWallet) then
            Some (processWalletPayment payment w)
          else if decide (charge_Method req = PaymentMethodCard
                          \/ charge_Method req = PaymentMethodUPI) then
            Some (processExternalPayment payment w)
          else None in
        match processed with
        | None => (Err (BadRequest "invalid payment method"), l)
        | Some ((pspResponse, Some pspErr), w) =>
            (Err pspErr,
             mkLedger w
               (paymentRepo_UpdateStatus (now w) (pay_ID payment) PaymentStatusFailed
                  None (PSPFailure (error_Error pspErr)) (payments l)))
        | Some ((pspResponse, None), w) =>
            let pspTxnID := psp_TransactionID pspResponse in
            let t2 :=
              paymentRepo_UpdateStatus (now w) (pay_ID payment) PaymentStatusCompleted
                (Some pspTxnID) (PSPAnswer pspResponse) (payments l) in
            let payment :=
              mkPayment (pay_ID payment) (pay_TripID payment) (pay_UserID payment)
                (pay_DriverID payment) (pay_Amount payment) (pay_Currency payment)
                (pay_Method payment) PaymentStatusCompleted (Some pspTxnID)
                (pay_PSPResponse payment) (pay_IdempotencyKey payment)
                (pay_CreatedAt payment) (pay_UpdatedAt payment) in
            (Ok (Payment_ToResponse payment), mkLedger w t2)
        end
    end
  end end end end.

(** [func (s *paymentService) GetPayment] *)
Definition GetPayment (id : string) (l : Ledger) : result Payment :=
  match paymentRepo_GetByID (payments l) id with
  | None => Err (NotFound "payment")
  | Some payment => Ok payment
  end.

(** [func (s *paymentService) GetPaymentByTripID] *)
Definition GetPaymentByTripID (tripID : string) (l : Ledger) : result Payment :=
  match paymentRepo_GetByTripID (payments l) tripID with
  | None => Err (NotFound "payment")
  | Some payment => Ok payment
  end.

(** [func (s *paymentService) RefundPayment] *)
Definition RefundPayment (paymentID : string) (l : Ledger) : option error * Ledger :=
  let w := world l in
  match paymentRepo_GetByID (payments l) paymentID with
  | None => (Some (NotFound "payment"), l)
  | Some payment =>
      if negb (bool_decide (pay_Status payment = PaymentStatusCompleted)) then
        (Some (BadRequest "can only refund completed payments"), l)
      else
        let refund := PSPRefund ("REF_" ++ short_uuid (uuids w)) (now w) in
        (None,
         mkLedger (next_uuid w)
           (paymentRepo_UpdateStatus (now w) paymentID PaymentStatusRefunded
              (pay_PSPTransactionID payment) refund (payments l)))
  end.

End PaymentService.

End Payments.

(* ===================================================================== *)
(** * HTTP error answers ([handler.handleError], [utils.Error]) *)
(* ===================================================================== *)

Module Handlers.
Import Errors Models Middleware.

#[global] Instance APIError_eq_dec : EqDecision APIError.
Proof. solve_decision. Defined.

#[global] Instance error_eq_dec : EqDecision error.
Proof. solve_decision. Defined.

(** The sentinel errors [handleError] looks for. *)
Definition ErrRideAlreadyAssigned : error := Sentinel "ride already assigned".
Definition ErrOfferExpired : error := Sentinel "offer expired".
Definition ErrUserHasActiveRide : error := Sentinel "user already has an active ride".

(** [utils.Error]: the status of the error and the JSON object
    [{error, message}]. *)
Definition utils_Error (e : APIError) : Response :=
  mkResponse (Errors.StatusCode e) (<["Content-Type" := "application/json"]> ∅)
    (ErrorJSON (Code e) (Message e)).

(** [func handleError(w http.ResponseWriter, err error)] *)
Definition handleError (err : error) : Response :=
  match err with
  | Api apiErr => utils_Error apiErr
  | _ =>
      if decide (err = ErrNoDriversAvailable) then
        utils_Error (NewAPIError "no_drivers_available"
                       "no drivers available in your area" 503)
      else if decide (err = ErrRideAlreadyAssigned) then
        utils_Error (NewAPIError "ride_already_assigned"
                       "this ride has been assigned to another driver" 409)
      else if decide (err = ErrOfferExpired) then
        utils_Error (NewAPIError "offer_expired" "this ride offer has expired" 410)
      else if decide (err = ErrUserHasActiveRide) then
        utils_Error (NewAPIError "active_ride_exists" "you already have an active ride" 409)
      else
        utils_Error (NewAPIError "internal_error" "internal server error" 500)
  end.

End Handlers.

(* ===================================================================== *)
(** * The dispatch core as a transition system *)
(* ===================================================================== *)

Module System.
Import Errors Models Store Cache Pricing Service.

Section Steps.
Context `{Externals} `{PricingService}.

(** One step of the system: any call of a service operation that writes the
    [rides] or [ride_offers] tables, with any arguments, or anything else
    (the user, driver-presence and payment operations, the passing of time),
    which leaves these two tables alone. *)
Inductive step : World -> World -> Prop :=
| step_CreateRide req key w :
    step w (snd (CreateRide req key w))
| step_CancelRide id req w :
    step w (snd (CancelRide id req w))
| step_UpdateRideStatus id status w :
    step w (snd (UpdateRideStatus id status w))
| step_StartTrip rideID w :
    step w (snd (StartTrip rideID w))
| step_EndTrip tripID req w :
    step w (snd (EndTrip tripID req w))
| step_AcceptRide fault driverID req w :
    step w (snd (AcceptRide fault driverID req w))
| step_DeclineRide driverID offerID w :
    step w (snd (DeclineRide driverID offerID w))
| step_FindAndOfferDrivers ride w :
    step w (snd (FindAndOfferDrivers ride w))
| step_other w w' :
    rides (db w') = rides (db w) ->
    ride_offers (db w') = ride_offers (db w) ->
    step w w'.

(** The worlds the system can be in, from a database without rides and
    offers. *)
Inductive reachable : World -> Prop :=
| reachable_init w :
    rides (db w) = [] -> ride_offers (db w) = [] -> reachable w
| reachable_step w w' :
    reachable w -> step w w' -> reachable w'.

(** Any number of steps. *)
Inductive steps : World -> World -> Prop :=
| steps_refl w : steps w w
| steps_next w w' w'' : steps w w' -> step w' w'' -> steps w w''.

End Steps.


(** The number of [accepted] rows among [t] for the ride [rideID]. *)
Definition count_accepted (t : list RideOffer) (rideID : string) : nat :=
  length (List.filter
            (fun o => bool_decide (offer_RideID o = rideID)
                      && bool_decide (offer_Status o = OfferStatusAccepted)) t).

(** What every reachable database satisfies: the primary keys of the two
    tables; an accepted offer belongs to a ride; a ride that is still
    [pending] or [matching] has no accepted offer; a ride with a driver has
    exactly one. *)
Record consistent (d : DB) : Prop := mkConsistent {
  offers_pk : List.NoDup (List.map offer_ID (ride_offers d));
  rides_pk : List.NoDup (List.map ride_ID (rides d));
  accepted_has_ride :
    forall o, In o (ride_offers d) -> offer_Status o = OfferStatusAccepted ->
              has_ride d (offer_RideID o) = true;
  unassigned_none :
    forall r, In r (rides d) ->
              ride_Status r = RideStatusPending \/ ride_Status r = RideStatusMatching ->
              count_accepted (ride_offers d) (ride_ID r) = 0%nat;
  assigned_one :
    forall r, In r (rides d) -> ride_DriverID r <> None ->
              count_accepted (ride_offers d) (ride_ID r) = 1%nat
}.

End System.

(* ===================================================================== *)
(** * Fixtures: concrete worlds the examples run in *)
(* ===================================================================== *)

Module Fixtures.
Import Errors Models Store Cache Pricing Service.

(** Stand-ins for the external parts: identifiers [uuid-0], [uuid-1], ...;
    a geo index that answers every radius query with [geo]; a parser that
    knows the ratings used below.  [pricing] takes a zero distance (the rides
    of the examples are picked up and dropped at one point). *)
Definition externals (geo : list GeoLocation) : Externals :=
  {| uuid_New := fun n => ("uuid-" ++ pretty n)%string;
     redis_GeoRadius := fun _ _ _ _ => geo;
     strconv_ParseFloat := fun s =>
       if decide (s = "5.0") then Some 5.0%float
       else if decide (s = "4.0") then Some 4.0%float
       else if decide (s = "3.0") then Some 3.0%float
       else None |}.

Definition pricing : PricingService := pricingService (fun _ _ _ _ => 0%float).

Definition user1 : User := mkUser "user-1" "9000000001" "Asha" None 5.0 0 0.

Definition driver (id status : string) : Driver :=
  mkDriver id ("98" ++ id) id None "KA-01" "sedan" "KA01AB1234" status 5.0 0
    (Some 12.97%float) (Some 77.59%float) 0 0.

Definition online_meta (rating : string) : gmap string string :=
  <["status" := "online"]> (<["vehicle_type" := "sedan"]> (<["rating" := rating]> ∅)).

Definition emptyRedis : Redis := mkRedis ∅ ∅.

Definition mg_road : Location := mkLocation 12.9716 77.5946 "MG Road".

Definition ride_request : CreateRideRequest :=
  mkCreateRideRequest "user-1" mg_road mg_road "sedan" "cash".

(** A ride of [user-1] in the given state. *)
Definition ride (id status : string) (driverID : option string) : Ride :=
  mkRide id "user-1" driverID 12.9716 77.5946 None 12.9716 77.5946 None "sedan"
    status (Some 57.5%float) 1.0 (Some 0%float) (Some 5) "cash" None None None 0 0.

Definition offer (id rideID driverID status : string) (expiresAt : Z) : RideOffer :=
  mkRideOffer id rideID driverID status 0 None expiresAt.

(** One rider, no drivers near the pickup. *)
Definition quiet_city : World :=
  mkWorld (mkDB [user1] [] [] [] []) emptyRedis (1000 * Second) 0.

(** A ride whose driver has arrived, and no trip yet. *)
Definition driver_waiting : World :=
  mkWorld (mkDB [user1] [driver "driver-1" "busy"]
             [ride "ride-1" "driver_arrived" (Some "driver-1")] [] [])
    emptyRedis (1000 * Second) 0.

(** A ride in [matching] offered to two online drivers; both offers expire
    at [expiresAt]. *)
Definition offers_out (expiresAt : Z) : World :=
  mkWorld (mkDB [user1] [driver "driver-1" "online"; driver "driver-2" "online"]
             [ride "ride-1" "matching" None] []
             [offer "offer-1" "ride-1" "driver-1" "pending" expiresAt;
              offer "offer-2" "ride-1" "driver-2" "pending" expiresAt])
    (mkRedis (<["driver:meta:driver-1" := online_meta "5.0"]>
                (<["driver:meta:driver-2" := online_meta "4.0"]> ∅)) ∅)
    (1000 * Second) 2.

Definition accept_offer_1 : AcceptRideRequest := mkAcceptRideRequest "ride-1" "offer-1".

(** One rider and two online drivers, no ride yet; the geo index below puts
    the drivers 1.0 and 1.5 km from any pickup. *)
Definition two_drivers_nearby : list GeoLocation :=
  [mkGeoLocation "driver-1" 1.0; mkGeoLocation "driver-2" 1.5].

(** Four drivers waiting at one stand, listed by the database in the order
    they signed up; the spatial index is empty, so matching falls back to the
    database and takes each of them at distance 0. *)
Definition taxi_stand : World :=
  mkWorld (mkDB [user1]
             [driver "driver-4" "online"; driver "driver-3" "online";
              driver "driver-2" "online"; driver "driver-1" "online"]
             [ride "ride-1" "matching" None] [] [])
    (mkRedis (<["driver:meta:driver-1" := online_meta "5.0"]>
                (<["driver:meta:driver-2" := online_meta "5.0"]>
                (<["driver:meta:driver-3" := online_meta "5.0"]>
                (<["driver:meta:driver-4" := online_meta "5.0"]> ∅)))) ∅)
    (1000 * Second) 0.

(** The index still lists a driver whose row is gone from the database. *)
Definition stale_index : list GeoLocation :=
  [mkGeoLocation "ghost" 0.5; mkGeoLocation "driver-1" 1.0;
   mkGeoLocation "driver-2" 1.5].

Definition stale_cache : World :=
  mkWorld (mkDB [user1] [driver "driver-1" "online"; driver "driver-2" "online"]
             [ride "ride-1" "matching" None] [] [])
    (mkRedis (<["driver:meta:ghost" := online_meta "5.0"]>
                (<["driver:meta:driver-1" := online_meta "5.0"]>
                (<["driver:meta:driver-2" := online_meta "4.0"]> ∅))) ∅)
    (1000 * Second) 0.

Definition city : World :=
  mkWorld (mkDB [user1] [driver "driver-1" "online"; driver "driver-2" "online"] [] [] [])
    (mkRedis (<["driver:meta:driver-1" := online_meta "5.0"]>
                (<["driver:meta:driver-2" := online_meta "4.0"]> ∅)) ∅)
    (1000 * Second) 0.

End Fixtures.

(* ===================================================================== *)
(** * Properties of the pricing service *)
(* ===================================================================== *)

Module PricingProps.
Import GoNum Pricing.


Lemma unknown_class_is_sedan (vehicleType : string) :
  fareConfigs !! vehicleType = None ->
  forall km mins surge,
    calculateFare vehicleType km mins surge = calculateFare "sedan" km mins surge.
Proof.
  intros Hnone km mins surge. unfold calculateFare. rewrite Hnone. reflexivity.
Qed.


(** The other scenarios of the specification and of
    [pricing_service_test.go]. *)
Example fare_mini_above_minimum :
  calculateFare "mini" 1 2 1.0 = mkFareBreakdown 40 14 2.4 0 56.4.
Proof. vm_compute. reflexivity. Qed.

Example fare_minimum_clamp :
  calculateFare "auto" 0.1 0 1.0 = mkFareBreakdown 25 1.2 0 0 30.
Proof. vm_compute. reflexivity. Qed.

Example surge_curve :
  List.map (fun '(d, s) => CalculateSurge d s)
    [(12, 10); (17, 10); (25, 10); (40, 10); (10, 0); (5, 20)]
  = [1.2; 1.5; 1.8; 2.0; 2.0; 1.0]%float.
Proof. vm_compute. reflexivity. Qed.

(** The surge estimate of a pickup cell with fewer than five candidates is
    above 1.0 whatever their number. *)
Lemma surge_estimate_below_five :
  List.map (CalculateSurge 10) [0; 1; 2; 3; 4] = [2.0; 2.0; 2.0; 2.0; 1.8]%float.
Proof. vm_compute. reflexivity. Qed.

End PricingProps.

(* ===================================================================== *)
(** * Properties of the ride and trip services *)
(* ===================================================================== *)

Module RideProps.
Import Errors Models Store Cache Pricing Service.

(** ** Reading a table after an update *)

Lemma sql_get_update {A} (cond : A -> bool) (set : A -> A) (t : list A) :
  (forall row, cond row = true -> cond (set row) = true) ->
  sql_get cond (sql_update cond set t) = option_map set (sql_get cond t).
Proof.
  intros Hkeep. unfold sql_get, sql_update.
  induction t as [|row t IH]; simpl; [reflexivity|].
  destruct (cond row) eqn:Hrow.
  - rewrite (Hkeep _ Hrow). reflexivity.
  - rewrite Hrow. exact IH.
Qed.

Lemma sql_get_app_new {A} (cond : A -> bool) (t : list A) (row : A) :
  existsb cond t = false -> cond row = true ->
  sql_get cond (t ++ [row]) = Some row.
Proof.
  intros Hnone Hrow. unfold sql_get.
  induction t as [|x t IH]; simpl in *.
  - rewrite Hrow. reflexivity.
  - apply orb_false_iff in Hnone as [Hx Ht]. rewrite Hx. auto.
Qed.

Section WithExternals.
Context `{Externals} `{PricingService}.

(** Whatever surge [CreateRide] estimated, the struct it returns for a ride
    it has just created and the row it has inserted carry 1.0: the
    repository's [Create] overwrites the field before the insert. *)
Lemma CreateRide_surge_is_reset (req : CreateRideRequest) (w w' : World) (ride : Ride) :
  CreateRide req "" w = (Ok ride, w') ->
  ride_SurgeMultiplier ride = 1.0%float
  /\ option_map ride_SurgeMultiplier (rideRepo_GetByID (db w') (ride_ID ride))
     = Some 1.0%float.
Proof.
  unfold CreateRide.
  destruct (decide ("" = "")) as [_|Hne]; [|congruence].
  destruct (userRepo_GetByID _ _); [|discriminate].
  destruct (rideRepo_GetActiveRideByUserID _ _); [discriminate|].
  match goal with |- context [rideRepo_Create ?n ?f ?r ?d] =>
    destruct (rideRepo_Create n f r d) as [created res] eqn:Hcreate end.
  destruct res as [db1|e]; [|discriminate].
  intros Hret. injection Hret as <- <-.
  unfold rideRepo_Create in Hcreate.
  repeat match type of Hcreate with
         | (if ?c then _ else _) = _ => destruct c eqn:?; [discriminate|]
         end.
  injection Hcreate as <- <-.
  split; [reflexivity|].
  unfold rideRepo_GetByID, rideRepo_UpdateStatus. simpl.
  rewrite sql_get_update by auto.
  rewrite sql_get_app_new; [reflexivity| |].
  - match goal with Hpk : has_ride _ _ = false |- _ => exact Hpk end.
  - apply bool_decide_eq_true. reflexivity.
Qed.

(** Once [StartTrip] has created the trip of a ride, the ride is
    [in_progress] and a second call is turned away by the status check, which
    stands before the lookup of the existing trip. *)
Lemma StartTrip_again_is_refused (rideID : string) (w w' : World) (trip : Trip) :
  tripRepo_GetByRideID (db w) rideID = None ->
  StartTrip rideID w = (Ok trip, w') ->
  StartTrip rideID w'
  = (Err (BadRequest "driver must arrive before starting trip"), w').
Proof.
  intros Hnotrip. unfold StartTrip at 1.
  destruct (rideRepo_GetByID (db w) rideID) as [r|] eqn:Hget; [|discriminate].
  destruct (negb _) eqn:Hst; [discriminate|].
  destruct (ride_DriverID r) as [driverID|]; [|discriminate].
  rewrite Hnotrip.
  match goal with |- context [tripRepo_Create ?n ?f ?t ?d] =>
    destruct (tripRepo_Create n f t d) as [created res] eqn:Hcreate end.
  destruct res as [db1|e]; [|discriminate].
  intros Hret. injection Hret as <- <-.
  assert (Hrides : rides db1 = rides (db w)).
  { unfold tripRepo_Create in Hcreate.
    repeat match type of Hcreate with
           | (if ?c then _ else _) = _ => destruct c; [discriminate|]
           end.
    injection Hcreate as <- <-. reflexivity. }
  unfold StartTrip, rideRepo_GetByID, rideRepo_UpdateStatus. simpl.
  rewrite Hrides, sql_get_update by auto.
  unfold rideRepo_GetByID in Hget. rewrite Hget. simpl.
  reflexivity.
Qed.

End WithExternals.

(** C1 (the code departs from it): a rider asks for a sedan where no driver
    is within 2 km.  The estimated surge is [CalculateSurge 10 0 = 2.0] and
    the estimated fare 115 is computed with it, yet the ride comes back, and
    is stored, with surge multiplier 1.0. *)
Theorem CreateRide_stores_surge_one_for_estimate_two :
  let E := Fixtures.externals [] in
  let P := Fixtures.pricing in
  exists ride w',
    CreateRide Fixtures.ride_request "" Fixtures.quiet_city = (Ok ride, w')
    /\ GetNearbyDrivers (redis Fixtures.quiet_city) 12.9716 77.5946 2.0 "sedan" = []
    /\ CalculateSurge 10 0 = 2.0%float
    /\ ride_EstimatedFare ride = Some (Total (calculateFare "sedan" 0 5 2.0))
    /\ ride_EstimatedFare ride = Some 115%float
    /\ ride_SurgeMultiplier ride = 1.0%float
    /\ option_map ride_SurgeMultiplier (rideRepo_GetByID (db w') (ride_ID ride))
       = Some 1.0%float
    /\ option_map ride_Status (rideRepo_GetByID (db w') (ride_ID ride))
       = Some RideStatusMatching.
Proof.
  intros E P.
  destruct (CreateRide Fixtures.ride_request "" Fixtures.quiet_city) as [r w'] eqn:Hrun.
  vm_compute in Hrun. injection Hrun as <- <-.
  eexists _, _. split; [reflexivity|].
  repeat split; vm_compute; reflexivity.
Qed.

(** C2 (the code departs from it): the driver has arrived and the trip is
    started; the call succeeds, creates the trip ([started], start time now)
    and moves the ride to [in_progress].  The same call again does not return
    that trip: it fails with [BAD_REQUEST]. *)
Theorem StartTrip_twice_fails_the_second_time :
  let E := Fixtures.externals [] in
  exists trip w',
    StartTrip "ride-1" Fixtures.driver_waiting = (Ok trip, w')
    /\ trip_Status trip = TripStatusStarted
    /\ trip_StartTime trip = Some (now Fixtures.driver_waiting)
    /\ tripRepo_GetByRideID (db w') "ride-1" = Some trip
    /\ option_map ride_Status (rideRepo_GetByID (db w') "ride-1")
       = Some RideStatusInProgress
    /\ StartTrip "ride-1" w'
       = (Err (BadRequest "driver must arrive before starting trip"), w').
Proof.
  intros E.
  destruct (StartTrip "ride-1" Fixtures.driver_waiting) as [r w'] eqn:Hrun.
  vm_compute in Hrun. injection Hrun as <- <-.
  eexists _, _. split; [reflexivity|].
  repeat split; vm_compute; reflexivity.
Qed.

End RideProps.

(* ===================================================================== *)
(** * Properties of the offer protocol *)
(* ===================================================================== *)

Module OfferProps.
Import Errors Models Store Cache Pricing Service.

(** A database connection on which no call fails. *)
Definition healthy : nat -> bool := fun _ => false.

(** [fault_at k]: the k-th call of the transaction fails, the others do not. *)
Definition fault_at (k : nat) : nat -> bool := fun n => (n =? k)%nat.

(** The four updates of the acceptance transaction, in the order the
    statements are issued. *)
Definition accept_updates (now : Z) (driverID offerID rideID : string) (d : DB) : DB :=
  let d1 := with_offers d
              (sql_update (fun o => bool_decide (offer_ID o = offerID))
                 (fun o => offer_update o OfferStatusAccepted (Some now))
                 (ride_offers d)) in
  let d2 := with_rides d1
              (sql_update (fun r => bool_decide (ride_ID r = rideID))
                 (fun r => ride_update r (Some driverID) RideStatusDriverAssigned
                             (ride_CancelledBy r) (ride_CancellationReason r) now)
                 (rides d1)) in
  let d3 := driverRepo_UpdateStatus now driverID DriverStatusBusy d2 in
  with_offers d3
    (sql_update (fun o => bool_decide (offer_RideID o = rideID)
                          && bool_decide (offer_Status o = OfferStatusPending))
       (fun o => offer_update o OfferStatusExpired (Some now))
       (ride_offers d3)).

(** An operation failed with the API error of the given code and HTTP
    status. *)
Definition fails_with {T} (r : result T) (code : string) (status : Z) : Prop :=
  exists message, r = Err (Api (NewAPIError code message status)).

(** Destructs the test at the head of the run recorded in [H]. *)
Ltac run_step H :=
  match type of H with
  | (if ?c then _ else _) = _ => destruct c eqn:?
  | (match ?x with _ => _ end) = _ => destruct x eqn:?
  | (let '(_, _) := ?x in _) = _ => destruct x eqn:?
  end.

Ltac bool_facts :=
  repeat match goal with
         | H : negb _ = false |- _ => apply negb_false_iff in H
         | H : negb _ = true |- _ => apply negb_true_iff in H
         | H : bool_decide _ = true |- _ => apply bool_decide_eq_true in H
         | H : bool_decide _ = false |- _ => apply bool_decide_eq_false in H
         | H : _ && _ = true |- _ => apply andb_true_iff in H as [? ?]
         end.

Lemma sql_get_Some {A} (cond : A -> bool) (t : list A) (row : A) :
  sql_get cond t = Some row -> In row t /\ cond row = true.
Proof. unfold sql_get. intros Hfind. apply find_some in Hfind. exact Hfind. Qed.

Section WithExternals.
Context `{Externals}.

(** What a run of the transaction amounts to: a failure leaves the
    transaction open, with the snapshot it started from; a success has passed
    every check and committed the four updates. *)
Lemma acceptRideTx_outcome (fault : nat -> bool) (now : Z) (driverID : string)
  (req : AcceptRideRequest) (tx tx' : Tx) (r : result Ride) :
  acceptRideTx fault now driverID req tx = (r, tx') ->
  match r with
  | Err _ => tx_snapshot tx' = tx_snapshot tx /\ tx_committed tx' = tx_committed tx
  | Ok ride =>
      exists offer,
        offerRepo_GetByID (tx_view tx) (accept_OfferID req) = Some offer
        /\ offer_DriverID offer = driverID
        /\ offer_RideID offer = accept_RideID req
        /\ IsExpired now offer = false
        /\ offer_Status offer = OfferStatusPending
        /\ rideRepo_GetByID (tx_view tx) (accept_RideID req) = Some ride
        /\ ride_Status ride = RideStatusMatching
        /\ has_driver (tx_view tx) driverID = true
        /\ tx' = mkTx (tx_snapshot tx)
                   (accept_updates now driverID (accept_OfferID req)
                      (accept_RideID req) (tx_view tx)) true
  end.
Proof.
  unfold acceptRideTx. intros Hrun.
  repeat (run_step Hrun;
          try (injection Hrun as <- <-; simpl; split; reflexivity)).
  injection Hrun as <- <-.
  bool_facts.
  match goal with Ho : offerRepo_GetByID _ _ = Some ?o |- _ =>
    exists o; pose proof (sql_get_Some _ _ _ Ho) as [_ Hoid] end.
  match goal with Hr : rideRepo_GetByID _ _ = Some ?r |- _ =>
    pose proof (sql_get_Some _ _ _ Hr) as [Hrin Hrid] end.
  bool_facts.
  repeat split; try assumption; try reflexivity.
  - match goal with Hfk : _ && negb (has_driver _ _) = false |- _ =>
      simpl in Hfk; apply andb_false_iff in Hfk as [Hnone|Hd] end.
    + exfalso. apply not_true_iff_false in Hnone. apply Hnone.
      apply existsb_exists. eexists. split; [exact Hrin|].
      apply bool_decide_eq_true. reflexivity.
    + apply negb_false_iff in Hd. exact Hd.
  - unfold tx_Commit, tx_write, accept_updates. simpl.
    rewrite Hoid, Hrid. reflexivity.
Qed.

(** [AcceptRide] as a whole: an error leaves the world as it was; a success
    has committed the four updates and set the driver's active-ride
    pointer. *)
Lemma AcceptRide_outcome (fault : nat -> bool) (driverID : string)
  (req : AcceptRideRequest) (w w' : World) (r : result RideResponse) :
  AcceptRide fault driverID req w = (r, w') ->
  match r with
  | Err _ => w' = w
  | Ok resp =>
      exists offer ride,
        offerRepo_GetByID (db w) (accept_OfferID req) = Some offer
        /\ offer_DriverID offer = driverID
        /\ offer_RideID offer = accept_RideID req
        /\ IsExpired (now w) offer = false
        /\ offer_Status offer = OfferStatusPending
        /\ rideRepo_GetByID (db w) (accept_RideID req) = Some ride
        /\ ride_Status ride = RideStatusMatching
        /\ has_driver (db w) driverID = true
        /\ db w' = accept_updates (now w) driverID (accept_OfferID req)
                     (accept_RideID req) (db w)
        /\ redis w' = SetActiveRide (now w) (redis w) driverID (accept_RideID req)
        /\ ride_Status (resp_Ride resp) = RideStatusDriverAssigned
        /\ ride_DriverID (resp_Ride resp) = Some driverID
  end.
Proof.
  unfold AcceptRide. intros Hrun.
  destruct (fault 0%nat).
  { injection Hrun as <- <-. reflexivity. }
  destruct (acceptRideTx fault (now w) driverID req (BeginTxx (db w)))
    as [res tx] eqn:Htx.
  apply acceptRideTx_outcome in Htx.
  destruct res as [ride|e]; injection Hrun as <- <-.
  - destruct Htx as (offer & Ho & Hd & Hr & Hexp & Hst & Hride & Hrst & Hdrv & ->).
    simpl in *. exists offer, ride.
    pose proof (sql_get_Some _ _ _ Hride) as [_ Hrid]. bool_facts.
    rewrite Hrid. repeat split; assumption || reflexivity.
  - destruct Htx as [Hsnap Hcommitted]. simpl in *.
    unfold tx_outcome. rewrite Hcommitted, Hsnap. destruct w; reflexivity.
Qed.

(** C5: [AcceptRide] is atomic.  Whatever call of the transaction fails, an
    error leaves the whole world (offer rows, ride row, driver row) exactly as
    it was; otherwise the four updates are committed together. *)
Theorem AcceptRide_is_atomic (fault : nat -> bool) (driverID : string)
  (req : AcceptRideRequest) (w : World) :
  let '(r, w') := AcceptRide fault driverID req w in
  match r with
  | Err _ => w' = w
  | Ok _ =>
      db w' = accept_updates (now w) driverID (accept_OfferID req)
                (accept_RideID req) (db w)
  end.
Proof.
  destruct (AcceptRide fault driverID req w) as [r w'] eqn:Hrun.
  apply AcceptRide_outcome in Hrun.
  destruct r as [resp|e]; [|exact Hrun].
  destruct Hrun as (offer & ride & Hrun). tauto.
Qed.

(** C4, as amended: on a healthy connection [AcceptRide] rejects, in this
    order: a missing offer ([not_found], 404); an offer of another driver
    ([unauthorized], 401); an offer of another ride ([bad_request], 400); an
    offer whose expiry lies strictly before now ([offer_expired], 410); an
    offer that is not [pending] ([bad_request], 400); a missing ride
    ([not_found], 404); a ride that is not [matching]
    ([ride_already_assigned], 409). *)
Theorem AcceptRide_rejections (driverID : string) (req : AcceptRideRequest) (w : World) :
  let r := fst (AcceptRide healthy driverID req w) in
  match offerRepo_GetByID (db w) (accept_OfferID req) with
  | None => fails_with r "not_found" 404
  | Some offer =>
      (offer_DriverID offer <> driverID -> fails_with r "unauthorized" 401)
      /\ (offer_DriverID offer = driverID ->
          (offer_RideID offer <> accept_RideID req -> fails_with r "bad_request" 400)
          /\ (offer_RideID offer = accept_RideID req ->
              (offer_ExpiresAt offer < now w -> fails_with r "offer_expired" 410)
              /\ (now w <= offer_ExpiresAt offer ->
                  (offer_Status offer <> OfferStatusPending ->
                   fails_with r "bad_request" 400)
                  /\ (offer_Status offer = OfferStatusPending ->
                      match rideRepo_GetByID (db w) (accept_RideID req) with
                      | None => fails_with r "not_found" 404
                      | Some ride =>
                          ride_Status ride <> RideStatusMatching ->
                          fails_with r "ride_already_assigned" 409
                      end))))
  end.
Proof.
  unfold AcceptRide, acceptRideTx, healthy, fails_with, IsExpired. simpl.
  destruct (offerRepo_GetByID (db w) (accept_OfferID req)) as [offer|]; simpl.
  2: { eexists. reflexivity. }
  split; [intros Hd | intros Hd; split; [intros Hr | intros Hr; split;
    [intros Hexp | intros Hexp; split; [intros Hst | intros Hst]]]].
  - rewrite bool_decide_eq_false_2 by assumption. simpl. eexists. reflexivity.
  - rewrite bool_decide_eq_true_2 by assumption. simpl.
    rewrite bool_decide_eq_false_2 by assumption. simpl. eexists. reflexivity.
  - rewrite !bool_decide_eq_true_2 by assumption. simpl.
    apply Z.ltb_lt in Hexp. rewrite Hexp. simpl. eexists. reflexivity.
  - rewrite !bool_decide_eq_true_2 by assumption. simpl.
    apply Z.ltb_ge in Hexp. rewrite Hexp.
    rewrite bool_decide_eq_false_2 by assumption. simpl. eexists. reflexivity.
  - rewrite !bool_decide_eq_true_2 by assumption. simpl.
    apply Z.ltb_ge in Hexp. rewrite Hexp. simpl.
    destruct (rideRepo_GetByID (db w) (accept_RideID req)) as [ride|]; simpl.
    2: { eexists. reflexivity. }
    intros Hrs. rewrite bool_decide_eq_false_2 by assumption. simpl.
    eexists. reflexivity.
Qed.

End WithExternals.

(** ** The protocol at work *)

(** The first driver accepts in time: offer accepted, ride assigned, driver
    busy, the sibling offer expired, the active-ride pointer set. *)
Example accept_in_time :
  exists resp w',
    AcceptRide healthy "driver-1" Fixtures.accept_offer_1
      (Fixtures.offers_out (1015 * Second)) = (Ok resp, w')
    /\ List.map (fun o => (offer_ID o, offer_Status o)) (ride_offers (db w'))
       = [("offer-1", "accepted"); ("offer-2", "expired")]
    /\ List.map (fun r => (ride_Status r, ride_DriverID r)) (rides (db w'))
       = [("driver_assigned", Some "driver-1")]
    /\ List.map (fun d => (driver_ID d, driver_Status d)) (drivers (db w'))
       = [("driver-1", "busy"); ("driver-2", "online")]
    /\ GetActiveRide (now w') (redis w') "driver-1" = "ride-1".
Proof.
  destruct (AcceptRide healthy "driver-1" Fixtures.accept_offer_1
              (Fixtures.offers_out (1015 * Second))) as [r w'] eqn:Hrun.
  vm_compute in Hrun. injection Hrun as <- <-.
  eexists _, _. split; [reflexivity|]. repeat split; vm_compute; reflexivity.
Qed.

(** The connection drops at the third update: the transaction has already
    rewritten the offer and the ride in its own view, and nothing of it
    reaches the database. *)
Example rollback_after_two_updates :
  let w := Fixtures.offers_out (1015 * Second) in
  let '(r, tx) := acceptRideTx (fault_at 5) (now w) "driver-1"
                    Fixtures.accept_offer_1 (BeginTxx (db w)) in
  r = Err (SqlError "update drivers")
  /\ List.map offer_Status (ride_offers (tx_view tx)) = ["accepted"; "pending"]
  /\ List.map ride_Status (rides (tx_view tx)) = ["driver_assigned"]
  /\ AcceptRide (fault_at 5) "driver-1" Fixtures.accept_offer_1 w
     = (Err (SqlError "update drivers"), w).
Proof.
  vm_compute.
  split; [reflexivity|]. split; [reflexivity|]. split; reflexivity.
Qed.

(** C4, the claim as stated fails: an offer whose [expiresAt] equals now
    (hence [expiresAt <= now]) passes the expiry check, [time.Now().After]
    being strict; the driver is assigned instead of getting
    [offer_expired]. *)
Lemma offer_at_its_expiry_instant_is_still_accepted :
  let w := Fixtures.offers_out (1000 * Second) in
  exists offer resp w',
    offerRepo_GetByID (db w) "offer-1" = Some offer
    /\ offer_DriverID offer = "driver-1"
    /\ offer_RideID offer = "ride-1"
    /\ offer_ExpiresAt offer <= now w
    /\ AcceptRide healthy "driver-1" Fixtures.accept_offer_1 w = (Ok resp, w')
    /\ ~ fails_with (fst (AcceptRide healthy "driver-1" Fixtures.accept_offer_1 w))
          "offer_expired" 410.
Proof.
  intros w.
  destruct (AcceptRide healthy "driver-1" Fixtures.accept_offer_1 w)
    as [r w'] eqn:Hrun.
  vm_compute in Hrun. injection Hrun as <- <-.
  eexists _, _, _. split; [reflexivity|].
  split; [reflexivity|]. split; [reflexivity|].
  split; [vm_compute; discriminate|].
  split; [reflexivity|].
  intros [message Hfail]. discriminate Hfail.
Qed.

(** One nanosecond later the same offer is expired: the amended claim at a
    concrete input. *)
Lemma AcceptRide_rejections_witness :
  fails_with
    (fst (AcceptRide healthy "driver-1" Fixtures.accept_offer_1
            (Fixtures.offers_out (1000 * Second - 1))))
    "offer_expired" 410.
Proof.
  pose proof (AcceptRide_rejections "driver-1" Fixtures.accept_offer_1
                (Fixtures.offers_out (1000 * Second - 1))) as T.
  cbv zeta in T.
  change (offerRepo_GetByID (db (Fixtures.offers_out (1000 * Second - 1)))
            (accept_OfferID Fixtures.accept_offer_1))
    with (Some (Fixtures.offer "offer-1" "ride-1" "driver-1" "pending"
                  (1000 * Second - 1))) in T.
  cbv iota in T.
  destruct T as [_ T]. destruct (T eq_refl) as [_ T2].
  destruct (T2 eq_refl) as [T3 _]. apply T3. reflexivity.
Defined.

End OfferProps.

(* ===================================================================== *)
(** * Exactly one accepted offer per assigned ride *)
(* ===================================================================== *)

Module InvariantProps.
Import Errors Models Store Cache Pricing Service System OfferProps.

(** ** Rows of a table after an update *)

Lemma in_sql_update {A} (c : A -> bool) (set : A -> A) (t : list A) (row' : A) :
  In row' (sql_update c set t)
  <-> exists row, In row t /\ row' = if c row then set row else row.
Proof.
  unfold sql_update. rewrite in_map_iff.
  split; intros (row & H1 & H2); exists row; auto.
Qed.

Lemma map_sql_update {A B} (f : A -> B) (c : A -> bool) (set : A -> A) (t : list A) :
  (forall row, f (set row) = f row) ->
  List.map f (sql_update c set t) = List.map f t.
Proof.
  intros Hf. unfold sql_update. rewrite List.map_map.
  apply List.map_ext. intros row. destruct (c row); auto.
Qed.

Lemma sql_update_none {A} (c : A -> bool) (set : A -> A) (t : list A) :
  (forall row, In row t -> c row = false) -> sql_update c set t = t.
Proof.
  intros Hnone. unfold sql_update.
  induction t as [|row t IH]; simpl; [reflexivity|].
  rewrite (Hnone row) by (left; reflexivity).
  f_equal. apply IH. intros r Hr. apply Hnone. right. exact Hr.
Qed.

Lemma sql_get_update_other {A} (cond c : A -> bool) (set : A -> A) (t : list A) :
  (forall row, cond (set row) = cond row) ->
  sql_get cond (sql_update c set t)
  = option_map (fun row => if c row then set row else row) (sql_get cond t).
Proof.
  intros Hkeep. unfold sql_get, sql_update.
  induction t as [|row t IH]; simpl; [reflexivity|].
  assert (Hsame : cond (if c row then set row else row) = cond row)
    by (destruct (c row); auto).
  rewrite Hsame. destruct (cond row); [reflexivity|exact IH].
Qed.

Lemma existsb_key {A} (key : A -> string) (x : string) (t : list A) :
  existsb (fun row => bool_decide (key row = x)) t = true <-> In x (List.map key t).
Proof.
  rewrite existsb_exists, in_map_iff.
  split; intros (row & H1 & H2).
  - apply bool_decide_eq_true in H2. eauto.
  - exists row. split; [assumption|]. apply bool_decide_eq_true. assumption.
Qed.

Lemma sql_get_key_Some {A} (key : A -> string) (x : string) (t : list A) :
  In x (List.map key t) ->
  exists row, sql_get (fun row => bool_decide (key row = x)) t = Some row.
Proof.
  intros Hin. destruct (sql_get _ t) as [row|] eqn:Hget; [eauto|].
  exfalso. apply in_map_iff in Hin as (row & Hk & Hrow).
  unfold sql_get in Hget. eapply find_none in Hget; [|exact Hrow].
  apply bool_decide_eq_false in Hget. auto.
Qed.

(** Under a primary key the row a lookup returns is the only one with that
    key. *)
Lemma pk_unique_row {A} (key : A -> string) (x : string) (t : list A) (row : A) :
  List.NoDup (List.map key t) ->
  sql_get (fun r => bool_decide (key r = x)) t = Some row ->
  forall r, In r t -> key r = x -> r = row.
Proof.
  unfold sql_get. induction t as [|h t IH]; simpl; [discriminate|].
  intros Hnd Hget r Hin Hkey. inversion Hnd as [|? ? Hnotin Hnd']; subst.
  destruct (bool_decide (key h = key r)) eqn:Hh.
  - injection Hget as <-. apply bool_decide_eq_true in Hh.
    destruct Hin as [Heq|Hin]; [auto|].
    exfalso. apply Hnotin. rewrite Hh. apply in_map. exact Hin.
  - apply bool_decide_eq_false in Hh.
    destruct Hin as [Heq|Hin]; [subst; congruence|]. eauto.
Qed.

(** ** Counting accepted offers *)

Lemma count_accepted_cons (o : RideOffer) (t : list RideOffer) (rideID : string) :
  count_accepted (o :: t) rideID
  = ((if bool_decide (offer_RideID o = rideID)
         && bool_decide (offer_Status o = OfferStatusAccepted) then 1 else 0)
     + count_accepted t rideID)%nat.
Proof. unfold count_accepted. simpl. destruct (_ && _); reflexivity. Qed.

Lemma count_accepted_app (t : list RideOffer) (row : RideOffer) (rideID : string) :
  offer_Status row <> OfferStatusAccepted ->
  count_accepted (t ++ [row]) rideID = count_accepted t rideID.
Proof.
  intros Hst. unfold count_accepted. rewrite List.filter_app, List.length_app. simpl.
  rewrite (bool_decide_eq_false_2 _ Hst), andb_false_r. simpl. lia.
Qed.

Lemma count_accepted_zero (t : list RideOffer) (rideID : string) :
  (forall o, In o t -> offer_RideID o = rideID -> offer_Status o <> OfferStatusAccepted) ->
  count_accepted t rideID = 0%nat.
Proof.
  induction t as [|o t IH]; intros Hnone; [reflexivity|].
  rewrite count_accepted_cons, IH by (intros; apply Hnone; [right|]; assumption).
  destruct (bool_decide (offer_RideID o = rideID)) eqn:Hr; [|reflexivity].
  apply bool_decide_eq_true in Hr.
  rewrite bool_decide_eq_false_2; [reflexivity|].
  apply Hnone; [left; reflexivity|exact Hr].
Qed.

(** An update that neither touches nor produces an accepted row. *)
Lemma count_accepted_update_skip (c : RideOffer -> bool) (set : RideOffer -> RideOffer)
  (t : list RideOffer) (rideID : string) :
  (forall o, In o t -> c o = true ->
             offer_Status o <> OfferStatusAccepted
             /\ offer_Status (set o) <> OfferStatusAccepted) ->
  count_accepted (sql_update c set t) rideID = count_accepted t rideID.
Proof.
  induction t as [|o t IH]; intros Hskip; [reflexivity|].
  change (sql_update c set (o :: t))
    with ((if c o then set o else o) :: sql_update c set t).
  rewrite !count_accepted_cons, IH by (intros; apply Hskip; [right|]; assumption).
  destruct (c o) eqn:Hc; [|reflexivity].
  destruct (Hskip o (or_introl eq_refl) Hc) as [Hbefore Hafter].
  rewrite (bool_decide_eq_false_2 _ Hbefore), (bool_decide_eq_false_2 _ Hafter).
  rewrite !andb_false_r. reflexivity.
Qed.

(** Accepting the one offer with a given id adds one to the count of its
    ride, and to no other. *)
Lemma count_accepted_accept (t : list RideOffer) (offerID : string)
  (offer : RideOffer) (respondedAt : option Z) (rideID : string) :
  List.NoDup (List.map offer_ID t) ->
  sql_get (fun o => bool_decide (offer_ID o = offerID)) t = Some offer ->
  offer_Status offer <> OfferStatusAccepted ->
  count_accepted
    (sql_update (fun o => bool_decide (offer_ID o = offerID))
       (fun o => offer_update o OfferStatusAccepted respondedAt) t) rideID
  = (count_accepted t rideID
     + if bool_decide (offer_RideID offer = rideID) then 1 else 0)%nat.
Proof.
  induction t as [|o t IH]; intros Hnd Hget Hst; [discriminate|].
  change (sql_update ?c ?s (o :: t)) with ((if c o then s o else o) :: sql_update c s t).
  inversion Hnd as [|? ? Hnotin Hnd']; subst.
  unfold sql_get in Hget. simpl in Hget.
  destruct (bool_decide (offer_ID o = offerID)) eqn:Hid.
  - injection Hget as ->. apply bool_decide_eq_true in Hid.
    rewrite sql_update_none.
    + rewrite !count_accepted_cons. simpl.
      rewrite (bool_decide_eq_false_2 _ Hst), andb_false_r.
      rewrite andb_true_r. lia.
    + intros row Hrow. apply bool_decide_eq_false. intros Heq.
      apply Hnotin. rewrite Hid, <- Heq. apply in_map. exact Hrow.
  - rewrite !count_accepted_cons, IH by assumption. lia.
Qed.

(** ** Writes that keep the database consistent *)

Definition unassigned (r : Ride) : Prop :=
  ride_Status r = RideStatusPending \/ ride_Status r = RideStatusMatching.

Lemma has_ride_iff (d : DB) (x : string) :
  has_ride d x = true <-> In x (List.map ride_ID (rides d)).
Proof. unfold has_ride. apply existsb_key. Qed.

Lemma has_ride_same_ids (d d' : DB) (x : string) :
  List.map ride_ID (rides d') = List.map ride_ID (rides d) ->
  has_ride d x = true -> has_ride d' x = true.
Proof. intros Hids. rewrite !has_ride_iff, Hids. auto. Qed.

(** Writes to the other tables. *)
Lemma consistent_frame (d d' : DB) :
  rides d' = rides d -> ride_offers d' = ride_offers d ->
  consistent d -> consistent d'.
Proof.
  intros Hr Ho [Hopk Hrpk Hacc Hnone Hone].
  split; rewrite ?Hr, ?Ho; try assumption.
  intros o Hin Hst. apply (has_ride_same_ids d); [rewrite Hr; reflexivity|]. auto.
Qed.

(** An update of the rides with a given id that keeps id and driver, and
    does not send an assigned ride back to [pending] or [matching]. *)
Lemma consistent_ride_update (d d' : DB) (x : string) (set : Ride -> Ride) :
  rides d' = sql_update (fun r => bool_decide (ride_ID r = x)) set (rides d) ->
  ride_offers d' = ride_offers d ->
  (forall r, ride_ID (set r) = ride_ID r) ->
  (forall r, ride_DriverID (set r) = ride_DriverID r) ->
  (forall r, In r (rides d) -> ride_ID r = x -> unassigned (set r) -> unassigned r) ->
  consistent d -> consistent d'.
Proof.
  intros Hr Ho Hid Hdrv Hback [Hopk Hrpk Hacc Hnone Hone].
  assert (Hids : List.map ride_ID (rides d') = List.map ride_ID (rides d))
    by (rewrite Hr; apply map_sql_update, Hid).
  split; rewrite ?Ho.
  - assumption.
  - rewrite Hids. assumption.
  - intros o Hin Hst. apply (has_ride_same_ids d); auto.
  - intros r' Hin Hun. rewrite Hr in Hin.
    apply in_sql_update in Hin as (r & Hin & ->).
    destruct (bool_decide (ride_ID r = x)) eqn:Hx.
    + apply bool_decide_eq_true in Hx. rewrite Hid.
      apply Hnone; [exact Hin|]. apply Hback; assumption.
    + apply Hnone; assumption.
  - intros r' Hin Hd. rewrite Hr in Hin.
    apply in_sql_update in Hin as (r & Hin & ->).
    destruct (bool_decide (ride_ID r = x)).
    + rewrite Hid. rewrite Hdrv in Hd. apply Hone; auto.
    + apply Hone; auto.
Qed.

(** The insert of a ride without a driver under a fresh id. *)
Lemma consistent_add_ride (d d' : DB) (r : Ride) :
  rides d' = (rides d ++ [r])%list ->
  ride_offers d' = ride_offers d ->
  has_ride d (ride_ID r) = false ->
  ride_DriverID r = None ->
  consistent d -> consistent d'.
Proof.
  intros Hr Ho Hfresh Hdrv [Hopk Hrpk Hacc Hnone Hone].
  assert (Hnew : count_accepted (ride_offers d) (ride_ID r) = 0%nat).
  { apply count_accepted_zero. intros o Hin Hrid Hst.
    apply Hacc in Hst; [|exact Hin]. congruence. }
  split; rewrite ?Ho.
  - assumption.
  - rewrite Hr, List.map_app. simpl.
    apply List.NoDup_app; [assumption|repeat constructor; intros []|].
    intros a Hin [<-|[]]. apply has_ride_iff in Hin. congruence.
  - intros o Hin Hst. apply has_ride_iff. rewrite Hr, List.map_app.
    apply in_or_app. left. apply has_ride_iff. auto.
  - intros r0 Hin Hun. rewrite Hr in Hin. apply in_app_or in Hin as [Hin|[<-|[]]]; auto.
  - intros r0 Hin Hd. rewrite Hr in Hin. apply in_app_or in Hin as [Hin|[<-|[]]]; auto.
    congruence.
Qed.

(** The insert of an offer that is not accepted under a fresh id. *)
Lemma consistent_add_offer (d d' : DB) (o : RideOffer) :
  rides d' = rides d ->
  ride_offers d' = (ride_offers d ++ [o])%list ->
  ~ In (offer_ID o) (List.map offer_ID (ride_offers d)) ->
  offer_Status o <> OfferStatusAccepted ->
  consistent d -> consistent d'.
Proof.
  intros Hr Ho Hfresh Hst [Hopk Hrpk Hacc Hnone Hone].
  split; rewrite ?Hr, ?Ho, ?count_accepted_app by assumption; try assumption.
  - rewrite List.map_app. simpl.
    apply List.NoDup_app; [assumption|repeat constructor; intros []|].
    intros a Hin [<-|[]]. auto.
  - intros o' Hin Hst'. apply in_app_or in Hin as [Hin|[<-|[]]]; [|congruence].
    apply (has_ride_same_ids d); [rewrite Hr; reflexivity|]. auto.
  - intros r Hin Hun. rewrite count_accepted_app by assumption. auto.
  - intros r Hin Hd. rewrite count_accepted_app by assumption. auto.
Qed.

(** An update of the offer with a given id, itself not accepted, to a status
    other than [accepted]. *)
Lemma consistent_offer_update (d d' : DB) (x : string) (offer : RideOffer)
  (set : RideOffer -> RideOffer) :
  rides d' = rides d ->
  ride_offers d' = sql_update (fun o => bool_decide (offer_ID o = x)) set (ride_offers d) ->
  offerRepo_GetByID d x = Some offer ->
  offer_Status offer <> OfferStatusAccepted ->
  (forall o, offer_ID (set o) = offer_ID o) ->
  (forall o, offer_Status (set o) <> OfferStatusAccepted) ->
  consistent d -> consistent d'.
Proof.
  intros Hr Ho Hget Hst Hid Hset [Hopk Hrpk Hacc Hnone Hone].
  assert (Hcount : forall rideID,
             count_accepted (ride_offers d') rideID
             = count_accepted (ride_offers d) rideID).
  { intros rideID. rewrite Ho. apply count_accepted_update_skip.
    intros o Hin Hc. apply bool_decide_eq_true in Hc.
    rewrite (pk_unique_row offer_ID x _ offer Hopk Hget o Hin Hc). auto. }
  split; rewrite ?Hr; try assumption.
  - rewrite Ho, map_sql_update by exact Hid. assumption.
  - intros o' Hin Hst'. rewrite Ho in Hin.
    apply in_sql_update in Hin as (o & Hin & ->).
    apply (has_ride_same_ids d); [rewrite Hr; reflexivity|].
    destruct (bool_decide (offer_ID o = x)); [exfalso; eapply Hset; eauto|auto].
  - intros r Hin Hun. rewrite Hcount. auto.
  - intros r Hin Hd. rewrite Hcount. auto.
Qed.

(** The acceptance transaction. *)
Lemma consistent_accept (d : DB) (now : Z) (driverID offerID rideID : string)
  (offer : RideOffer) (ride : Ride) :
  offerRepo_GetByID d offerID = Some offer ->
  offer_RideID offer = rideID ->
  offer_Status offer = OfferStatusPending ->
  rideRepo_GetByID d rideID = Some ride ->
  ride_Status ride = RideStatusMatching ->
  consistent d ->
  consistent (accept_updates now driverID offerID rideID d).
Proof.
  intros Hoffer Horide Hpending Hride Hmatching [Hopk Hrpk Hacc Hnone Hone].
  set (d' := accept_updates now driverID offerID rideID d).
  assert (Hnotacc : offer_Status offer <> OfferStatusAccepted)
    by (rewrite Hpending; discriminate).
  destruct (sql_get_Some _ _ _ Hride) as [Hride_in Hride_id].
  apply bool_decide_eq_true in Hride_id.
  assert (Hcount : forall rid,
             count_accepted (ride_offers d') rid
             = (count_accepted (ride_offers d) rid
                + if bool_decide (rideID = rid) then 1 else 0)%nat).
  { intros rid. subst d'. unfold accept_updates. simpl.
    rewrite count_accepted_update_skip.
    - rewrite (count_accepted_accept _ offerID offer) by assumption.
      rewrite Horide. reflexivity.
    - intros o Hin Hc. apply andb_true_iff in Hc as [_ Hc].
      apply bool_decide_eq_true in Hc. simpl. rewrite Hc. split; discriminate. }
  assert (Hids : List.map ride_ID (rides d') = List.map ride_ID (rides d)).
  { subst d'. unfold accept_updates. simpl. apply map_sql_update. reflexivity. }
  split.
  - subst d'. unfold accept_updates. simpl.
    rewrite !map_sql_update by reflexivity. assumption.
  - rewrite Hids. assumption.
  - intros o' Hin Hst. apply has_ride_iff. rewrite Hids.
    subst d'. unfold accept_updates in Hin. simpl in Hin.
    apply in_sql_update in Hin as (o1 & Hin & ->).
    apply in_sql_update in Hin as (o & Hin & ->).
    destruct (bool_decide (offer_ID o = offerID)) eqn:Hid.
    + apply bool_decide_eq_true in Hid.
      rewrite (pk_unique_row offer_ID offerID _ offer Hopk Hoffer o Hin Hid) in *.
      simpl in *. rewrite andb_false_r in *. simpl.
      apply in_map_iff. exists ride. split; [congruence|assumption].
    + destruct (_ && _) eqn:Hc in *; [simpl in Hst; discriminate|].
      apply has_ride_iff. auto.
  - intros r' Hin Hun. subst d'. rewrite Hcount.
    unfold accept_updates in Hin. simpl in Hin.
    apply in_sql_update in Hin as (r & Hin & ->).
    destruct (bool_decide (ride_ID r = rideID)) eqn:Hid.
    + destruct Hun as [Hun|Hun]; simpl in Hun; discriminate.
    + apply bool_decide_eq_false in Hid.
      rewrite bool_decide_eq_false_2 by congruence.
      rewrite Nat.add_0_r. auto.
  - intros r' Hin Hd. subst d'. rewrite Hcount.
    unfold accept_updates in Hin. simpl in Hin.
    apply in_sql_update in Hin as (r & Hin & ->).
    destruct (bool_decide (ride_ID r = rideID)) eqn:Hid.
    + apply bool_decide_eq_true in Hid. simpl. rewrite Hid.
      rewrite bool_decide_eq_true_2 by reflexivity.
      rewrite <- Hride_id, (Hnone ride Hride_in) by (right; exact Hmatching).
      reflexivity.
    + apply bool_decide_eq_false in Hid.
      rewrite bool_decide_eq_false_2 by congruence.
      rewrite Nat.add_0_r. auto.
Qed.

(** ** Every operation keeps the database consistent *)

(** The transition table never leads back to [pending], and to [matching]
    only from [pending]. *)
Lemma CanTransitionTo_unassigned (r : Ride) (status : string) :
  Ride_CanTransitionTo r status = true ->
  status = RideStatusPending \/ status = RideStatusMatching ->
  unassigned r.
Proof.
  unfold Ride_CanTransitionTo, unassigned.
  intros Hcan Hstatus.
  destruct (ValidRideTransitions !! ride_Status r) as [l|] eqn:Hl; [|discriminate].
  unfold ValidRideTransitions in Hl.
  apply lookup_insert_Some in Hl as [[Hk <-]|[_ Hl]]; [left; symmetry; exact Hk|].
  repeat (apply lookup_insert_Some in Hl as [[_ <-]|[_ Hl]];
          [destruct Hstatus as [-> | ->]; vm_compute in Hcan; discriminate|]).
  rewrite lookup_empty in Hl. discriminate.
Qed.

Section WithExternals.
Context `{Externals} `{PricingService}.

Lemma CreateRide_consistent req key w :
  consistent (db w) -> consistent (db (snd (CreateRide req key w))).
Proof.
  intros Hc. unfold CreateRide.
  destruct (if decide (key = "") then None else _); [exact Hc|].
  destruct (userRepo_GetByID _ _); [|exact Hc].
  destruct (rideRepo_GetActiveRideByUserID _ _); [exact Hc|].
  match goal with |- context [rideRepo_Create ?n ?f ?r ?d] =>
    set (ride0 := r);
    assert (Hnodriver : ride_DriverID ride0 = None) by reflexivity;
    clearbody ride0;
    destruct (rideRepo_Create n f ride0 d) as [created res] eqn:Hcreate end.
  destruct res as [db1|e]; [|exact Hc]. simpl.
  unfold rideRepo_Create in Hcreate.
  repeat match type of Hcreate with
         | (if ?c then _ else _) = _ => destruct c eqn:?; [discriminate|]
         end.
  injection Hcreate as <- <-.
  match goal with Hpk : has_ride _ _ = false |- _ => rename Hpk into Hfresh end.
  match goal with |- context [with_rides _ (_ ++ [?r])%list] => set (row := r) in * end.
  assert (Hc1 : consistent (with_rides (db w) (rides (db w) ++ [row]))).
  { apply (consistent_add_ride (db w) _ row); auto. }
  eapply (consistent_ride_update _ _ (ride_ID row)); [reflexivity|reflexivity| | | |exact Hc1].
  - reflexivity.
  - reflexivity.
  - intros r Hin Hid _. simpl in Hin.
    apply in_app_or in Hin as [Hin|[<-|[]]]; [|left; reflexivity].
    exfalso. apply not_true_iff_false in Hfresh. apply Hfresh.
    apply has_ride_iff. rewrite <- Hid. apply in_map. exact Hin.
Qed.

Lemma rideRepo_UpdateStatus_consistent now id status d :
  (forall r, rideRepo_GetByID d id = Some r ->
             status = RideStatusPending \/ status = RideStatusMatching ->
             unassigned r) ->
  consistent d -> consistent (rideRepo_UpdateStatus now id status d).
Proof.
  intros Hback Hc.
  eapply consistent_ride_update;
    [reflexivity|reflexivity|reflexivity|reflexivity| |exact Hc].
  intros r Hin Hid Hun.
  destruct (sql_get_key_Some ride_ID id (rides d)) as [r0 Hget].
  { rewrite <- Hid. apply in_map. exact Hin. }
  rewrite (pk_unique_row ride_ID id _ r0 (rides_pk _ Hc) Hget r Hin Hid).
  apply Hback; [exact Hget|exact Hun].
Qed.

Lemma rideRepo_Cancel_consistent now id by_whom reason d :
  consistent d -> consistent (rideRepo_Cancel now id by_whom reason d).
Proof.
  intros Hc.
  eapply consistent_ride_update;
    [reflexivity|reflexivity|reflexivity|reflexivity| |exact Hc].
  intros r Hin Hid [Hun|Hun]; simpl in Hun; discriminate.
Qed.

Lemma CancelRide_consistent id req w :
  consistent (db w) -> consistent (db (snd (CancelRide id req w))).
Proof.
  intros Hc. unfold CancelRide.
  destruct (rideRepo_GetByID _ _) as [ride|]; [|exact Hc].
  destruct (negb _); [exact Hc|]. simpl.
  pose proof (rideRepo_Cancel_consistent (now w) id (cancel_CancelledBy req)
                (cancel_Reason req) _ Hc) as Hc'.
  destruct (ride_DriverID ride); [|exact Hc'].
  eapply consistent_frame; [| |exact Hc']; reflexivity.
Qed.

Lemma UpdateRideStatus_consistent id status w :
  consistent (db w) -> consistent (db (snd (UpdateRideStatus id status w))).
Proof.
  intros Hc. unfold UpdateRideStatus.
  destruct (rideRepo_GetByID _ _) as [ride|] eqn:Hget; [|exact Hc].
  destruct (negb _) eqn:Hcan; [exact Hc|]. simpl.
  apply negb_false_iff in Hcan.
  apply rideRepo_UpdateStatus_consistent; [|exact Hc].
  intros r Hr Hst. rewrite Hget in Hr. injection Hr as <-.
  eapply CanTransitionTo_unassigned; eassumption.
Qed.

Lemma StartTrip_consistent rideID w :
  consistent (db w) -> consistent (db (snd (StartTrip rideID w))).
Proof.
  intros Hc. unfold StartTrip.
  destruct (rideRepo_GetByID _ _) as [ride|]; [|exact Hc].
  destruct (negb _); [exact Hc|].
  destruct (ride_DriverID ride); [|exact Hc].
  destruct (tripRepo_GetByRideID _ _); [exact Hc|].
  match goal with |- context [tripRepo_Create ?n ?f ?t ?d] =>
    destruct (tripRepo_Create n f t d) as [created res] eqn:Hcreate end.
  destruct res as [db1|e]; [|exact Hc]. simpl.
  apply rideRepo_UpdateStatus_consistent.
  { intros r _ [Hst|Hst]; discriminate Hst. }
  unfold tripRepo_Create in Hcreate.
  repeat match type of Hcreate with
         | (if ?c then _ else _) = _ => destruct c; [discriminate|]
         end.
  injection Hcreate as <- <-.
  eapply consistent_frame; [| |exact Hc]; reflexivity.
Qed.

Lemma EndTrip_consistent tripID req w :
  consistent (db w) -> consistent (db (snd (EndTrip tripID req w))).
Proof.
  intros Hc. unfold EndTrip.
  destruct (tripRepo_GetByID _ _) as [trip|]; [|exact Hc].
  destruct (negb _); [exact Hc|].
  destruct (rideRepo_GetByID _ _) as [ride|]; [|exact Hc].
  simpl.
  apply (consistent_frame (driverRepo_UpdateStatus (now w) (trip_DriverID trip)
                             DriverStatusOnline
                             (rideRepo_UpdateStatus (now w) (trip_RideID trip)
                                RideStatusCompleted
                                (snd (tripRepo_EndTrip (now w) trip (db w))))));
    [reflexivity|reflexivity|].
  apply (consistent_frame (rideRepo_UpdateStatus (now w) (trip_RideID trip)
                             RideStatusCompleted
                             (snd (tripRepo_EndTrip (now w) trip (db w)))));
    [reflexivity|reflexivity|].
  apply rideRepo_UpdateStatus_consistent.
  { intros r _ [Hst|Hst]; discriminate Hst. }
  apply (consistent_frame (db w)); [reflexivity|reflexivity|exact Hc].
Qed.

Lemma AcceptRide_consistent fault driverID req w :
  consistent (db w) -> consistent (db (snd (AcceptRide fault driverID req w))).
Proof.
  intros Hc.
  destruct (AcceptRide fault driverID req w) as [r w'] eqn:Hrun.
  apply AcceptRide_outcome in Hrun. simpl.
  destruct r as [resp|e]; [|subst; exact Hc].
  destruct Hrun as (offer & ride & Ho & _ & Hor & _ & Hst & Hr & Hrs & _ & -> & _).
  eapply consistent_accept; eassumption.
Qed.

Lemma DeclineRide_consistent driverID offerID w :
  consistent (db w) -> consistent (db (snd (DeclineRide driverID offerID w))).
Proof.
  intros Hc. unfold DeclineRide.
  destruct (offerRepo_GetByID _ _) as [offer|] eqn:Hget; [|exact Hc].
  destruct (negb _); [exact Hc|].
  destruct (negb _) eqn:Hst; [exact Hc|]. simpl.
  apply negb_false_iff, bool_decide_eq_true in Hst.
  eapply (consistent_offer_update (db w) _ offerID offer);
    [reflexivity|reflexivity|exact Hget| | | |exact Hc].
  - rewrite Hst. discriminate.
  - reflexivity.
  - discriminate.
Qed.

Lemma offer_to_consistent ride w driver :
  consistent (db w) -> consistent (db (offer_to ride w driver)).
Proof.
  intros Hc. unfold offer_to.
  match goal with |- context [offerRepo_Create ?n ?f ?o ?d] =>
    destruct (offerRepo_Create n f o d) as [created res] eqn:Hcreate end.
  destruct res as [db1|e]; [|exact Hc]. simpl.
  unfold offerRepo_Create in Hcreate. cbv zeta in Hcreate.
  set (id := if decide (_ = "") then _ else _) in Hcreate.
  destruct (existsb (fun o => bool_decide (offer_ID o = id)) (ride_offers (db w)))
    eqn:Hpk; [discriminate|].
  repeat match type of Hcreate with
         | (if ?c then _ else _) = _ => destruct c; [discriminate|]
         end.
  injection Hcreate as <- <-.
  eapply (consistent_add_offer (db w)); [reflexivity|reflexivity| | |exact Hc].
  - apply not_true_iff_false in Hpk. intros Hin. apply Hpk.
    apply existsb_key. exact Hin.
  - discriminate.
Qed.

Lemma offer_loop_keeps_rides ride l w :
  rides (db (List.fold_left (offer_to ride) l w)) = rides (db w).
Proof.
  revert w. induction l as [|driver l IH]; intros w; simpl; [reflexivity|].
  rewrite IH. unfold offer_to.
  match goal with |- context [offerRepo_Create ?n ?f ?o ?d] =>
    destruct (offerRepo_Create n f o d) as [created res] eqn:Hcreate end.
  destruct res as [db1|e]; [|reflexivity]. simpl.
  unfold offerRepo_Create in Hcreate.
  repeat match type of Hcreate with
         | (if ?c then _ else _) = _ => destruct c; [discriminate|]
         end.
  injection Hcreate as <- <-. reflexivity.
Qed.

Lemma FindAndOfferDrivers_consistent ride w :
  consistent (db w) -> consistent (db (snd (FindAndOfferDrivers ride w))).
Proof.
  intros Hc. unfold FindAndOfferDrivers.
  destruct (_ && _).
  { simpl. apply rideRepo_Cancel_consistent. exact Hc. }
  match goal with |- context [scoreDrivers ?a ?b ?c] =>
    generalize (scoreDrivers a b c) end.
  intros scored. destruct (length scored =? 0)%nat; [exact Hc|]. simpl.
  generalize (firstn (if (length scored <? 3)%nat then length scored else 3%nat) scored).
  intros l. revert w Hc.
  induction l as [|driver l IH]; intros w Hc; simpl; [exact Hc|].
  apply IH. apply offer_to_consistent. exact Hc.
Qed.

(** Every reachable database is consistent. *)
Theorem reachable_consistent (w : World) : reachable w -> consistent (db w).
Proof.
  induction 1 as [w Hr Ho|w w' Hreach IH Hstep].
  - split; rewrite ?Hr, ?Ho; simpl; try constructor; intros ? [].
  - destruct Hstep.
    + apply CreateRide_consistent, IH.
    + apply CancelRide_consistent, IH.
    + apply UpdateRideStatus_consistent, IH.
    + apply StartTrip_consistent, IH.
    + apply EndTrip_consistent, IH.
    + apply AcceptRide_consistent, IH.
    + apply DeclineRide_consistent, IH.
    + apply FindAndOfferDrivers_consistent, IH.
    + eapply consistent_frame; eassumption.
Qed.

(** ** A driver, once assigned, stays assigned *)







Lemma steps_reachable (w w' : World) : reachable w -> steps w w' -> reachable w'.
Proof.
  intros Hreach. induction 1 as [w|w w' w'' _ IH Hstep]; [assumption|].
  eapply reachable_step; [apply IH, Hreach|exact Hstep].
Qed.


End WithExternals.

(** The run the theorem is about, from an empty dispatch table: the rider
    asks for a ride, the two drivers nearby get an offer each, the first one
    accepts. *)
Definition served_city : World :=
  let E := Fixtures.externals Fixtures.two_drivers_nearby in
  let P := Fixtures.pricing in
  let '(created, w1) := CreateRide Fixtures.ride_request "" Fixtures.city in
  match created with
  | Ok ride =>
      let w2 := snd (FindAndOfferDrivers ride w1) in
      snd (AcceptRide healthy "driver-1" (mkAcceptRideRequest "uuid-0" "uuid-1") w2)
  | Err _ => w1
  end.

(** Later the rider cancels. *)
Definition cancelled_city : World :=
  let E := Fixtures.externals Fixtures.two_drivers_nearby in
  let P := Fixtures.pricing in
  snd (CancelRide "uuid-0" (mkCancelRideRequest "changed my mind" "user") served_city).


End InvariantProps.

(* ===================================================================== *)
(** * Properties of the matching engine *)
(* ===================================================================== *)

Module MatchingProps.
Import Errors Models Store Cache Pricing Service GoSort.

(** ** The comparison of binary64 values *)

Lemma SFcompare_antisym (x y : spec_float) :
  SFcompare y x = option_map CompOpp (SFcompare x y).
Proof.
  destruct x as [sx|sx| |sx mx ex], y as [sy|sy| |sy my ey]; simpl;
    try reflexivity; try (destruct sx; reflexivity); try (destruct sy; reflexivity);
    try (destruct sx, sy; reflexivity).
  assert (Hm : Pos.compare_cont Eq my mx = CompOpp (Pos.compare_cont Eq mx my))
    by (rewrite Pos.compare_cont_antisym; reflexivity).
  rewrite (Z.compare_antisym ex ey), Hm.
  destruct sx, sy; simpl; try reflexivity;
    destruct (ex ?= ey)%Z; simpl; try reflexivity;
    destruct (Pos.compare_cont Eq mx my); reflexivity.
Qed.

Lemma ltb_asym (x y : float) : (x <? y)%float = true -> (y <? x)%float = false.
Proof.
  rewrite !FloatAxioms.ltb_spec. unfold SFltb.
  rewrite (SFcompare_antisym (Prim2SF x) (Prim2SF y)).
  destruct (SFcompare (Prim2SF x) (Prim2SF y)) as [[| |]|]; simpl; congruence.
Qed.

(** For two numbers (neither is NaN), "not below" is "above or equal". *)
Lemma not_ltb_leb (x y : float) :
  (x =? x)%float = true -> (y =? y)%float = true ->
  (x <? y)%float = false -> (y <=? x)%float = true.
Proof.
  rewrite !FloatAxioms.eqb_spec, FloatAxioms.ltb_spec, FloatAxioms.leb_spec.
  unfold SFeqb, SFltb, SFleb.
  rewrite (SFcompare_antisym (Prim2SF x) (Prim2SF y)).
  destruct (Prim2SF x) as [sx|sx| |sx mx ex], (Prim2SF y) as [sy|sy| |sy my ey];
    simpl; try discriminate;
    try (destruct sx; simpl; congruence); try (destruct sy; simpl; congruence);
    try (destruct sx, sy; simpl; congruence).
  intros _ _.
  destruct sx, sy; simpl; try congruence;
    destruct (ex ?= ey)%Z; simpl; try congruence;
    destruct (Pos.compare_cont Eq mx my); simpl; congruence.
Qed.

(** A number is what equals itself; NaN does not. *)
Definition is_number (x : float) : bool := (x =? x)%float.

(** Comparison of two numbers is the lexicographic one of their class
    (infinities outermost, zeros in the middle), exponent and mantissa, both
    negated for a negative value. *)
Definition SFkey (x : spec_float) : Z * Z * Z :=
  match x with
  | S754_zero _ => (0, 0, 0)
  | S754_infinity s => (if s then -2 else 2, 0, 0)
  | S754_nan => (0, 0, 0)
  | S754_finite s m e => if s then (-1, - e, Z.neg m) else (1, e, Z.pos m)
  end.

Definition lex3 (a b : Z * Z * Z) : comparison :=
  let '(a1, a2, a3) := a in
  let '(b1, b2, b3) := b in
  match a1 ?= b1 with
  | Eq => match a2 ?= b2 with Eq => a3 ?= b3 | c => c end
  | c => c
  end.

Lemma SFcompare_lex (x y : spec_float) :
  x <> S754_nan -> y <> S754_nan -> SFcompare x y = Some (lex3 (SFkey x) (SFkey y)).
Proof.
  destruct x as [sx|sx| |sx mx ex], y as [sy|sy| |sy my ey]; try congruence; intros _ _;
    try (destruct sx; reflexivity); try (destruct sy; reflexivity);
    try (destruct sx, sy; reflexivity).
  destruct sx, sy; try reflexivity; simpl.
  rewrite Z.compare_opp, (Z.compare_antisym ex ey).
  destruct (ex ?= ey); simpl; reflexivity.
Qed.

Lemma lex3_trans (a b c : Z * Z * Z) :
  lex3 a b <> Gt -> lex3 b c <> Gt -> lex3 a c <> Gt.
Proof.
  destruct a as [[a1 a2] a3], b as [[b1 b2] b3], c as [[c1 c2] c3]. unfold lex3.
  destruct (Z.compare_spec a1 b1), (Z.compare_spec b1 c1), (Z.compare_spec a1 c1);
    try congruence; try lia;
  destruct (Z.compare_spec a2 b2), (Z.compare_spec b2 c2), (Z.compare_spec a2 c2);
    try congruence; try lia;
  destruct (Z.compare_spec a3 b3), (Z.compare_spec b3 c3), (Z.compare_spec a3 c3);
    try congruence; try lia.
Qed.

Lemma leb_inv (x y : float) :
  (x <=? y)%float = true ->
  Prim2SF x <> S754_nan /\ Prim2SF y <> S754_nan
  /\ lex3 (SFkey (Prim2SF x)) (SFkey (Prim2SF y)) <> Gt.
Proof.
  rewrite FloatAxioms.leb_spec. unfold SFleb. intros Hle.
  assert (Hx : Prim2SF x <> S754_nan) by (intros E; rewrite E in Hle; discriminate).
  assert (Hy : Prim2SF y <> S754_nan)
    by (intros E; rewrite E in Hle; destruct (Prim2SF x); discriminate).
  rewrite (SFcompare_lex _ _ Hx Hy) in Hle.
  repeat split; try assumption. intros E. rewrite E in Hle. discriminate.
Qed.

Lemma leb_trans (x y z : float) :
  (x <=? y)%float = true -> (y <=? z)%float = true -> (x <=? z)%float = true.
Proof.
  intros Hxy Hyz.
  destruct (leb_inv _ _ Hxy) as (Hx & Hy & H1).
  destruct (leb_inv _ _ Hyz) as (_ & Hz & H2).
  rewrite FloatAxioms.leb_spec. unfold SFleb. rewrite (SFcompare_lex _ _ Hx Hz).
  pose proof (lex3_trans _ _ _ H1 H2) as H3.
  destruct (lex3 (SFkey (Prim2SF x)) (SFkey (Prim2SF z))); congruence.
Qed.

(** ** [sort.Slice] sorts and permutes *)

Section Sorting.
Context {A : Type} (less : A -> A -> bool).
Hypothesis less_asym : forall a b, less a b = true -> less b a = false.

(** In the result no element is [less] than the one before it. *)
Definition in_order (a b : A) : Prop := less b a = false.

Lemma sift_perm (x : A) (l : list A) : Permutation (sift less x l) (x :: l).
Proof.
  induction l as [|p ps IH]; simpl; [reflexivity|].
  destruct (less x p); [|reflexivity].
  rewrite IH. apply perm_swap.
Qed.

(** The prefix is kept with its last element first: there each element is
    in order after its successor. *)
Lemma sift_sorted (x : A) (l : list A) :
  Sorted (fun b a => in_order a b) l -> Sorted (fun b a => in_order a b) (sift less x l).
Proof.
  induction l as [|p ps IH]; simpl; intros Hs.
  - repeat constructor.
  - destruct (less x p) eqn:Hxp.
    + inversion Hs as [|? ? Hps Hhd]; subst.
      constructor; [apply IH; exact Hps|].
      destruct ps as [|q qs]; simpl.
      * constructor. unfold in_order. apply less_asym. exact Hxp.
      * destruct (less x q).
        -- constructor. inversion Hhd; subst. assumption.
        -- constructor. unfold in_order. apply less_asym. exact Hxp.
    + constructor; [exact Hs|]. constructor. exact Hxp.
Qed.

Lemma Sorted_snoc (R : A -> A -> Prop) (l : list A) (x : A) :
  Sorted R l -> (forall y, List.last l x = y -> l <> [] -> R y x) ->
  Sorted R (l ++ [x]).
Proof.
  induction l as [|a l IH]; simpl; intros Hs Hlast.
  - repeat constructor.
  - inversion Hs as [|? ? Hl Hhd]; subst.
    constructor.
    + apply IH; [exact Hl|].
      intros y Hy Hne. apply Hlast; [|discriminate].
      destruct l; [contradiction|exact Hy].
    + destruct l as [|b l]; simpl.
      * constructor. apply Hlast; [reflexivity|discriminate].
      * constructor. inversion Hhd; subst. assumption.
Qed.

Lemma Sorted_rev (R : A -> A -> Prop) (l : list A) :
  Sorted (fun b a => R a b) l -> Sorted R (List.rev l).
Proof.
  induction l as [|a l IH]; simpl; intros Hs; [constructor|].
  inversion Hs as [|? ? Hl Hhd]; subst.
  apply Sorted_snoc; [apply IH; exact Hl|].
  intros y Hy Hne.
  destruct l as [|b l]; [contradiction|].
  inversion Hhd; subst.
  simpl. rewrite List.last_last. assumption.
Qed.

Lemma sort_Slice_perm (data : list A) : Permutation (sort_Slice less data) data.
Proof.
  unfold sort_Slice.
  assert (Hgen : forall acc,
             Permutation (List.fold_left (fun p x => sift less x p) data acc)
               (List.rev data ++ acc)).
  { induction data as [|x data IH]; intros acc; simpl; [reflexivity|].
    rewrite IH, sift_perm, <- List.app_assoc. simpl.
    apply Permutation_app_head. reflexivity. }
  rewrite <- Permutation_rev, Hgen, List.app_nil_r, <- Permutation_rev. reflexivity.
Qed.

Lemma sort_Slice_sorted (data : list A) : Sorted in_order (sort_Slice less data).
Proof.
  unfold sort_Slice. apply Sorted_rev.
  assert (Hgen : forall acc,
             Sorted (fun b a => in_order a b) acc ->
             Sorted (fun b a => in_order a b)
               (List.fold_left (fun p x => sift less x p) data acc)).
  { induction data as [|x data IH]; intros acc Hacc; simpl; [exact Hacc|].
    apply IH, sift_sorted, Hacc. }
  apply Hgen. constructor.
Qed.

End Sorting.

(** ** Scoring, ordering and the offer loop *)

(** The order the specification words: higher score first, then lower
    distance, then the id. *)
Definition claimed_order (a b : ScoredDriver) : bool :=
  (sd_Score b <? sd_Score a)%float
  || ((sd_Score a =? sd_Score b)%float
      && ((sd_Distance a <? sd_Distance b)%float
          || ((sd_Distance a =? sd_Distance b)%float
              && String.leb (sd_DriverID a) (sd_DriverID b)))).

Section WithExternals.
Context `{Externals}.

Lemma scoreDrivers_perm (w : World) (drivers : list DriverWithDistance) (ride : Ride) :
  Permutation (scoreDrivers w drivers ride)
    (List.map (score_of w) (List.filter (survives w ride) drivers)).
Proof. unfold scoreDrivers. apply sort_Slice_perm. Qed.

Lemma scoreDrivers_sorted (w : World) (drivers : list DriverWithDistance) (ride : Ride) :
  Sorted (fun a b => (sd_Score a <? sd_Score b)%float = false)
    (scoreDrivers w drivers ride).
Proof.
  unfold scoreDrivers.
  apply (sort_Slice_sorted (fun a b => (sd_Score b <? sd_Score a)%float)).
  intros a b. apply ltb_asym.
Qed.

Lemma Sorted_among {A} (P : A -> Prop) (R Q : A -> A -> Prop) (l : list A) :
  (forall a b, P a -> P b -> R a b -> Q a b) ->
  List.Forall P l -> Sorted R l -> Sorted Q l.
Proof.
  intros Himpl Hall Hs.
  induction Hs as [|a l Hs IH Hhd]; [constructor|].
  inversion Hall as [|? ? Ha Hl]; subst.
  constructor; [apply IH; exact Hl|].
  destruct Hhd as [|b l' Hab]; constructor.
  inversion Hl; subst. apply Himpl; assumption.
Qed.

(** When every score is a number the list is in descending order of score
    throughout. *)
Lemma scoreDrivers_descending (w : World) (drivers : list DriverWithDistance)
  (ride : Ride) :
  List.Forall (fun s => is_number (sd_Score s) = true) (scoreDrivers w drivers ride) ->
  StronglySorted (fun a b => (sd_Score b <=? sd_Score a)%float = true)
    (scoreDrivers w drivers ride).
Proof.
  intros Hnum. apply Sorted_StronglySorted.
  - intros a b c Hab Hbc. exact (leb_trans _ _ _ Hbc Hab).
  - eapply Sorted_among; [|exact Hnum|apply scoreDrivers_sorted].
    intros a b Ha Hb Hlt. apply not_ltb_leb; assumption.
Qed.

Lemma scoreDrivers_none (w : World) (drivers : list DriverWithDistance) (ride : Ride) :
  (forall d, In d drivers -> survives w ride d = false) ->
  scoreDrivers w drivers ride = [].
Proof.
  intros Hnone. unfold scoreDrivers.
  replace (List.filter (survives w ride) drivers) with (@nil DriverWithDistance);
    [reflexivity|].
  symmetry. induction drivers as [|d l IH]; simpl; [reflexivity|].
  rewrite (Hnone d) by (left; reflexivity).
  apply IH. intros d' Hd'. apply Hnone. right. exact Hd'.
Qed.

(** One round of the loop either leaves the database alone (the insert
    failed) or appends a pending offer of the ride to the driver that expires
    15 s from now. *)
Lemma offer_to_effect (ride : Ride) (w : World) (driver : ScoredDriver) :
  now (offer_to ride w driver) = now w
  /\ redis (offer_to ride w driver) = redis w
  /\ (db (offer_to ride w driver) = db w
      \/ exists id,
           db (offer_to ride w driver)
           = with_offers (db w)
               (ride_offers (db w)
                ++ [mkRideOffer id (ride_ID ride) (sd_DriverID driver)
                      OfferStatusPending (now w) None
                      (now w + 15 * Second)])%list).
Proof.
  unfold offer_to.
  match goal with |- context [offerRepo_Create ?n ?f ?o ?d] =>
    destruct (offerRepo_Create n f o d) as [created res] eqn:Hcreate end.
  destruct res as [db1|e]; simpl; [|auto].
  split; [reflexivity|]. split; [reflexivity|]. right.
  unfold offerRepo_Create in Hcreate. cbv zeta in Hcreate.
  repeat match type of Hcreate with
         | (if ?c then _ else _) = _ => destruct c; [discriminate|]
         end.
  injection Hcreate as <- <-. eexists. reflexivity.
Qed.

Lemma offer_loop (ride : Ride) (l : list ScoredDriver) (w : World) :
  let w' := List.fold_left (offer_to ride) l w in
  now w' = now w
  /\ redis w' = redis w
  /\ rides (db w') = rides (db w)
  /\ exists new,
       ride_offers (db w') = (ride_offers (db w) ++ new)%list
       /\ (length new <= length l)%nat
       /\ Forall (fun o => offer_Status o = OfferStatusPending
                           /\ offer_ExpiresAt o = now w + 15 * Second
                           /\ offer_RideID o = ride_ID ride
                           /\ In (offer_DriverID o) (List.map sd_DriverID l)) new.
Proof.
  revert w. induction l as [|driver l IH]; intros w; simpl.
  - repeat split. exists []. rewrite List.app_nil_r. repeat split; auto.
  - destruct (IH (offer_to ride w driver)) as (Hnow & Hredis & Hrides & new & Hnew & Hlen & Hall).
    destruct (offer_to_effect ride w driver) as (Hn1 & Hr1 & Hdb).
    rewrite Hnow, Hredis, Hrides, Hn1, Hr1.
    assert (Hall' : Forall (fun o => offer_Status o = OfferStatusPending
                                     /\ offer_ExpiresAt o = now w + 15 * Second
                                     /\ offer_RideID o = ride_ID ride
                                     /\ In (offer_DriverID o)
                                          (sd_DriverID driver :: List.map sd_DriverID l))
                      new).
    { eapply List.Forall_impl; [|exact Hall]. simpl.
      intros o (? & ? & ? & ?). rewrite <- Hn1. auto. }
    destruct Hdb as [Hdb|[id Hdb]]; rewrite Hdb in *.
    + repeat split. exists new. repeat split; auto.
    + simpl in *. repeat split.
      eexists (_ :: new). rewrite Hnew, <- List.app_assoc. simpl.
      split; [reflexivity|]. split; [lia|].
      constructor; [|exact Hall']. simpl. auto.
Qed.

Lemma firstn_maxOffers {A} (l : list A) :
  List.firstn (if (length l <? 3)%nat then length l else 3%nat) l = List.firstn 3 l.
Proof.
  destruct (length l <? 3)%nat eqn:Hlen; [|reflexivity].
  apply Nat.ltb_lt in Hlen.
  rewrite List.firstn_all, List.firstn_all2 by lia. reflexivity.
Qed.

(** C7, as amended: a surviving candidate is scored
    [100 - 10 * distanceKm + 5 * rating]; [scoreDrivers] returns the scored
    survivors, rearranged so that no candidate has a lower score than the
    one after it, that is, the scores being numbers, in descending order of
    score (it breaks no ties); and when there is a survivor
    [FindAndOfferDrivers] returns no error and appends at most three offers,
    each [pending], expiring 15 s from now, for this ride and for one of the
    first three candidates, an insert that fails being passed over. *)
Theorem matching_scores_orders_and_offers :
  (forall w d,
      score_of w d
      = mkScoredDriver (dwd_DriverID d)
          (100 - dwd_Distance d * 10
           + ParseRating (go_index (GetDriverMeta (redis w) (dwd_DriverID d)) "rating") * 5)
          (dwd_Distance d))
  /\ (forall w drivers ride,
         Permutation (scoreDrivers w drivers ride)
           (List.map (score_of w) (List.filter (survives w ride) drivers))
         /\ Sorted (fun a b => (sd_Score a <? sd_Score b)%float = false)
              (scoreDrivers w drivers ride)
         /\ (List.Forall (fun s => is_number (sd_Score s) = true)
                (scoreDrivers w drivers ride) ->
             StronglySorted (fun a b => (sd_Score b <=? sd_Score a)%float = true)
               (scoreDrivers w drivers ride)))
  /\ (forall ride w,
         scoreDrivers w (candidates ride w) ride <> [] ->
         fst (FindAndOfferDrivers ride w) = None
         /\ exists new,
              ride_offers (db (snd (FindAndOfferDrivers ride w)))
              = (ride_offers (db w) ++ new)%list
              /\ (length new <= 3)%nat
              /\ Forall (fun o =>
                           offer_Status o = OfferStatusPending
                           /\ offer_ExpiresAt o = now w + 15 * Second
                           /\ offer_RideID o = ride_ID ride
                           /\ In (offer_DriverID o)
                                (List.map sd_DriverID
                                   (List.firstn 3
                                      (scoreDrivers w (candidates ride w) ride))))
                   new).
Proof.
  split; [reflexivity|]. split.
  { intros w drivers ride. split; [apply scoreDrivers_perm|].
    split; [apply scoreDrivers_sorted|apply scoreDrivers_descending]. }
  intros ride w Hsome. unfold FindAndOfferDrivers.
  destruct (_ && _) eqn:Hempty.
  { exfalso. apply Hsome.
    apply andb_true_iff in Hempty as [Hn Hd].
    apply Nat.eqb_eq, List.length_zero_iff_nil in Hn, Hd.
    unfold candidates. rewrite Hn, Hd. reflexivity. }
  destruct (length (scoreDrivers w (candidates ride w) ride) =? 0)%nat eqn:Hlen.
  { apply Nat.eqb_eq, List.length_zero_iff_nil in Hlen. contradiction. }
  simpl. split; [reflexivity|].
  rewrite firstn_maxOffers.
  destruct (offer_loop ride (List.firstn 3 (scoreDrivers w (candidates ride w) ride)) w)
    as (_ & _ & _ & new & Hnew & Hlen3 & Hall).
  exists new. split; [exact Hnew|]. split; [|exact Hall].
  etransitivity; [exact Hlen3|]. apply List.firstn_le_length.
Qed.

(** C10: when the spatial index names candidates and the filters drop every
    one of them, [FindAndOfferDrivers] reports [ErrNoDriversAvailable] and
    changes nothing, the ride included; it writes to the [rides] table only
    when the spatial index and the database fallback are both empty. *)
Theorem no_survivor_does_not_cancel :
  (forall ride w,
      let nearbyDrivers :=
        GetNearbyDrivers (redis w) (ride_PickupLat ride) (ride_PickupLng ride)
          defaultMatchRadius (ride_VehicleType ride) in
      nearbyDrivers <> [] ->
      (forall d, In d nearbyDrivers -> survives w ride d = false) ->
      FindAndOfferDrivers ride w = (Some ErrNoDriversAvailable, w))
  /\ (forall ride w,
         rides (db (snd (FindAndOfferDrivers ride w))) <> rides (db w) ->
         GetNearbyDrivers (redis w) (ride_PickupLat ride) (ride_PickupLng ride)
           defaultMatchRadius (ride_VehicleType ride) = []
         /\ driverRepo_GetOnlineDriversByVehicleType (db w) (ride_VehicleType ride) = []).
Proof.
  split.
  - intros ride w nearbyDrivers Hsome Hdropped.
    unfold FindAndOfferDrivers, candidates. fold nearbyDrivers.
    destruct nearbyDrivers as [|d l] eqn:Hnearby; [contradiction|].
    simpl. rewrite scoreDrivers_none by exact Hdropped. reflexivity.
  - intros ride w. unfold FindAndOfferDrivers.
    destruct (_ && _) eqn:Hempty.
    + intros _. apply andb_true_iff in Hempty as [Hn Hd].
      apply Nat.eqb_eq, List.length_zero_iff_nil in Hn, Hd. auto.
    + destruct (length (scoreDrivers w (candidates ride w) ride) =? 0)%nat; simpl;
        [congruence|].
      intros Hchanged. exfalso. apply Hchanged. apply offer_loop.
Qed.

End WithExternals.

(** ** The engine at work *)

(** C7, the claim as stated fails on ties: four drivers with the same score
    and the same distance come out in the order the database listed them,
    not by id, and offers go to [driver-4], [driver-3] and [driver-2] while
    [driver-1], first by id, gets none. *)
Lemma equal_scores_are_not_ordered_by_id :
  let E := Fixtures.externals [] in
  let w := Fixtures.taxi_stand in
  let ride := Fixtures.ride "ride-1" "matching" None in
  let scored := scoreDrivers w (candidates ride w) ride in
  List.map (fun s => (sd_DriverID s, sd_Score s, sd_Distance s)) scored
  = [("driver-4", 125%float, 0%float); ("driver-3", 125%float, 0%float);
     ("driver-2", 125%float, 0%float); ("driver-1", 125%float, 0%float)]
  /\ ~ Sorted (fun a b => claimed_order a b = true) scored
  /\ List.map offer_DriverID (ride_offers (db (snd (FindAndOfferDrivers ride w))))
     = ["driver-4"; "driver-3"; "driver-2"].
Proof.
  intros E w ride scored.
  split; [vm_compute; reflexivity|]. split; [|vm_compute; reflexivity].
  intros Hsorted.
  assert (Hscored : scored
                    = [mkScoredDriver "driver-4" 125 0; mkScoredDriver "driver-3" 125 0;
                       mkScoredDriver "driver-2" 125 0; mkScoredDriver "driver-1" 125 0])
    by (vm_compute; reflexivity).
  rewrite Hscored in Hsorted.
  inversion Hsorted as [|? ? _ Hhd]; subst.
  inversion Hhd as [|? ? Hfirst]; subst.
  vm_compute in Hfirst. discriminate.
Qed.

(** The amended claim at a concrete input: the nearest candidate is gone
    from the database, the insert of its offer fails, and the two drivers
    behind it still get theirs. *)
Lemma matching_scores_orders_and_offers_witness :
  let E := Fixtures.externals Fixtures.stale_index in
  let ride := Fixtures.ride "ride-1" "matching" None in
  List.map sd_DriverID (scoreDrivers Fixtures.stale_cache
                          (candidates ride Fixtures.stale_cache) ride)
  = ["ghost"; "driver-1"; "driver-2"]
  /\ fst (FindAndOfferDrivers ride Fixtures.stale_cache) = None
  /\ List.map (fun o => (offer_DriverID o, offer_Status o, offer_ExpiresAt o))
       (ride_offers (db (snd (FindAndOfferDrivers ride Fixtures.stale_cache))))
     = [("driver-1", "pending", 1015 * Second); ("driver-2", "pending", 1015 * Second)].
Proof.
  intros E ride.
  split; [vm_compute; reflexivity|]. split; [|vm_compute; reflexivity].
  destruct (@matching_scores_orders_and_offers E) as (_ & _ & Hoffers).
  apply (Hoffers ride Fixtures.stale_cache).
  vm_compute. discriminate.
Defined.

(** Both drivers near the pickup already hold an offer of the ride: none
    survives, the call fails and the ride stays in [matching]. *)
Lemma no_survivor_does_not_cancel_witness :
  let E := Fixtures.externals Fixtures.two_drivers_nearby in
  let w := Fixtures.offers_out (1015 * Second) in
  let ride := Fixtures.ride "ride-1" "matching" None in
  FindAndOfferDrivers ride w = (Some ErrNoDriversAvailable, w)
  /\ List.map (fun r => (ride_Status r, ride_CancelledBy r)) (rides (db w))
     = [("matching", None)].
Proof.
  intros E w ride. split; [|reflexivity].
  destruct (@no_survivor_does_not_cancel E) as [Hdropped _].
  apply (Hdropped ride w).
  - vm_compute. discriminate.
  - intros d Hin. vm_compute in Hin.
    destruct Hin as [<-|[<-|[]]]; vm_compute; reflexivity.
Defined.

End MatchingProps.

(* ===================================================================== *)
(** * Properties of the middleware *)
(* ===================================================================== *)

Module MiddlewareProps.
Import Models Middleware.

(** The methods the idempotency layer guards. *)
Definition unsafe_method (m : string) : Prop :=
  m = MethodPost \/ m = MethodPut \/ m = MethodPatch.

Definition conflict_response : Response :=
  mkResponse 409 (<["Content-Type" := "application/json"]> ∅)
    (ErrorJSON "idempotency_conflict"
       "idempotency key already used with different request").


Definition too_many_requests : body :=
  ErrorJSON "rate_limit_exceeded" "too many requests, please try again later".

(** The expiry of a counter under a fixed window: set when the key has none,
    kept when it has one. *)
Definition fixed_window_expiry (before : option (Z * option Z)) (now d : Z) : Z :=
  match before with
  | Some (_, Some expires) => expires
  | _ => now + d
  end.

Section Idempotency.
Variable App : Type.
Variable next : Request -> App -> Response * App.
Variable hashBody : string -> string.


(** A response outside [200, 300) is never stored: whatever the request, the
    stored responses change only by the entry of a 2xx response that came
    from downstream. *)
Lemma only_success_is_cached (now : Z) (r : Request) (s : IdemStore) (app : App) :
  let out := IdempotencyHandler App next hashBody now r (s, app) in
  responses (fst (snd out)) <> responses s ->
  200 <= Status (fst out) < 300 /\ fst out = fst (next r app).
Proof.
  unfold IdempotencyHandler.
  destruct (_ && _ && _).
  { destruct (next r app); simpl; congruence. }
  destruct (decide _).
  { destruct (next r app); simpl; congruence. }
  destruct (getCachedResponse _ _ _) as [cached|].
  { destruct (negb _); simpl; congruence. }
  destruct (SetNX _ _ _) as [locked s1] eqn:Hnx.
  assert (Hs1 : responses s1 = responses s).
  { unfold SetNX in Hnx.
    destruct (locks s !! _) as [expires|]; [destruct (now <? expires)|];
      injection Hnx as _ <-; reflexivity. }
  destruct locked; simpl; [|congruence].
  destruct (next r app) as [resp app']. simpl.
  destruct ((200 <=? Status resp) && (Status resp <? 300)) eqn:Hok; simpl; [|congruence].
  intros _. apply andb_true_iff in Hok as [H1 H2].
  apply Z.leb_le in H1. apply Z.ltb_lt in H2. auto.
Qed.

End Idempotency.

Section RateLimit.
Variable App : Type.
Variable next : Request -> App -> Response * App.
Variable itoa : Z -> string.

Lemma Incr_Expire (now : Z) (c : gmap string (Z * option Z)) (key : string) (d : Z) :
  let count := match live now c key with Some (n, _) => n + 1 | None => 1 end in
  Incr now c key = (count, snd (Incr now c key))
  /\ Expire now (snd (Incr now c key)) key d = <[key := (count, Some (now + d))]> c.
Proof.
  unfold Incr, Expire.
  destruct (live now c key) as [[n ttl]|] eqn:Hlive; simpl.
  - split; [reflexivity|].
    assert (Hl : live now (<[key := (n + 1, ttl)]> c) key = Some (n + 1, ttl)).
    { unfold live in *. rewrite lookup_insert_eq.
      destruct (c !! key) as [[n0 [e0|]]|]; try discriminate.
      - destruct (now <? e0) eqn:He; [|discriminate].
        injection Hlive as <- <-. rewrite He. reflexivity.
      - injection Hlive as <- <-. reflexivity. }
    rewrite Hl. apply insert_insert_eq.
  - split; [reflexivity|].
    assert (Hl : live now (<[key := (1, None)]> c) key = Some (1, None)).
    { unfold live. rewrite lookup_insert_eq. reflexivity. }
    rewrite Hl. apply insert_insert_eq.
Qed.

(** C9, as amended: a request whose pipeline succeeds increments the counter
    at [ratelimit:<client>:<path>] and sets its expiry to the window length
    from now, whether or not the key had one; it is rejected with 429
    [rate_limit_exceeded], without reaching the handler, exactly when the
    incremented count exceeds the limit.  A request whose pipeline fails is
    let through. *)
Theorem rate_limiter_counts_and_restarts_the_window (rl : RateLimiter) (now : Z)
  (r : Request) (c : gmap string (Z * option Z)) (app : App) :
  let key := rateLimitKey r in
  let count := match live now c key with Some (n, _) => n + 1 | None => 1 end in
  let out := RateLimitHandler App next itoa rl false now r (c, app) in
  key = ("ratelimit:"
         ++ (if decide (Header_Get (Header r) "X-Forwarded-For" = "")
             then RemoteAddr r else Header_Get (Header r) "X-Forwarded-For")
         ++ ":" ++ Path r)%string
  /\ fst (snd out) = <[key := (count, Some (now + window rl))]> c
  /\ (requests rl < count ->
      Status (fst out) = 429 /\ Payload (fst out) = too_many_requests
      /\ snd (snd out) = app)
  /\ (count <= requests rl ->
      Status (fst out) = Status (fst (next r app))
      /\ Payload (fst out) = Payload (fst (next r app))
      /\ snd (snd out) = snd (next r app))
  /\ RateLimitHandler App next itoa rl true now r (c, app)
     = (fst (next r app), (c, snd (next r app))).
Proof.
  intros key count out. split; [reflexivity|].
  subst out. unfold RateLimitHandler, isAllowed. fold key.
  destruct (Incr_Expire now c key (window rl)) as [Hincr Hexp]. fold count in Hincr, Hexp.
  rewrite Hincr, Hexp. simpl.
  split; [|split; [|split]].
  - destruct (count <=? requests rl); simpl; [destruct (next r app)|]; reflexivity.
  - intros Hover. apply Z.leb_gt in Hover. rewrite Hover. simpl. auto.
  - intros Hunder. apply Z.leb_le in Hunder. rewrite Hunder. simpl.
    destruct (next r app); simpl; auto.
  - destruct (next r app); reflexivity.
Qed.

End RateLimit.

(** ** The middleware at work *)

(** A downstream handler that creates what the body names and counts its
    commits, one that refuses every request, and the identity in place of
    SHA-256. *)
Definition creating : Request -> nat -> Response * nat :=
  fun r commits =>
    (mkResponse 201 (<["Content-Type" := "application/json"]> ∅) (Raw (Body r)),
     S commits).

Definition refusing : Request -> nat -> Response * nat :=
  fun r commits => (mkResponse 422 ∅ (ErrorJSON "bad_request" "invalid"), commits).

Definition post_ride (body : string) : Request :=
  mkRequest "POST" "/v1/rides" "10.0.0.1:5000" (<["Idempotency-Key" := "key-1"]> ∅) body.

Definition after_first_post : IdemStore * nat :=
  snd (IdempotencyHandler nat creating (fun b => b) 0 (post_ride "ride A")
         (mkIdemStore ∅ ∅, 0%nat)).


(** Another body under the same key is a conflict; a refused request is not
    stored, so the client may retry. *)
Example idempotency_conflict_and_retry :
  fst (IdempotencyHandler nat creating (fun b => b) Second (post_ride "ride B")
         after_first_post) = conflict_response
  /\ snd (IdempotencyHandler nat creating (fun b => b) Second (post_ride "ride B")
            after_first_post) = after_first_post
  /\ responses (fst (snd (IdempotencyHandler nat refusing (fun b => b) 0
                            (post_ride "ride A") (mkIdemStore ∅ ∅, 0%nat)))) = ∅
  /\ Status (fst (IdempotencyHandler nat creating (fun b => b) Second
                    (post_ride "ride A")
                    (snd (IdempotencyHandler nat refusing (fun b => b) 0
                            (post_ride "ride A") (mkIdemStore ∅ ∅, 0%nat))))) = 201.
Proof. repeat split; vm_compute; reflexivity. Qed.

(** C9, the claim as stated fails: with a window of 60 s the first request
    gives the counter an expiry at 60 s; the second, at 30 s, finds that
    expiry and replaces it by 90 s instead of keeping it; so a third request
    at 61 s, after the first window has ended, is still counted with the
    first two and, with a limit of 2, rejected. *)
Lemma expiry_is_reset_while_the_key_has_one :
  let rl := NewRateLimiter 2 (60 * Second) in
  let key := rateLimitKey (post_ride "ride A") in
  let c1 := snd (isAllowed rl false 0 ∅ key) in
  let c2 := snd (isAllowed rl false (30 * Second) c1 key) in
  key = "ratelimit:10.0.0.1:5000:/v1/rides"
  /\ c1 !! key = Some (1, Some (60 * Second))
  /\ c2 !! key = Some (2, Some (90 * Second))
  /\ fixed_window_expiry (c1 !! key) (30 * Second) (window rl) = 60 * Second
  /\ option_map snd (c2 !! key)
     <> Some (Some (fixed_window_expiry (c1 !! key) (30 * Second) (window rl)))
  /\ fst (isAllowed rl false (61 * Second) c2 key) = (false, 0, false).
Proof.
  intros rl key c1 c2.
  split; [reflexivity|].
  split; [vm_compute; reflexivity|].
  split; [vm_compute; reflexivity|].
  split; [vm_compute; reflexivity|].
  split; [vm_compute; discriminate|].
  vm_compute. reflexivity.
Qed.

End MiddlewareProps.

(* ===================================================================== *)
(** * Properties of the ride and trip life cycles *)
(* ===================================================================== *)

Module LifecycleProps.
Import Errors Models Store Cache Pricing GoNum Service TripLifecycle.
Import RideProps OfferProps InvariantProps.

(** The place of a status on the way of a ride. *)
Definition ride_rank (status : string) : nat :=
  if decide (status = RideStatusPending) then 0
  else if decide (status = RideStatusMatching) then 1
  else if decide (status = RideStatusDriverAssigned) then 2
  else if decide (status = RideStatusDriverArrived) then 3
  else if decide (status = RideStatusInProgress) then 4
  else if decide (status = RideStatusCompleted) then 5
  else 6.

Lemma existsb_two (a b s : string) :
  existsb (fun state => bool_decide (state = s)) [a; b] = true -> s = a \/ s = b.
Proof.
  intros Hin. apply existsb_exists in Hin as (x & Hx & Heq).
  apply bool_decide_eq_true in Heq. subst x.
  destruct Hx as [<-|[<-|[]]]; auto.
Qed.

(** The arrows of [ValidRideTransitions]. *)
Lemma Ride_transitions (r : Ride) (status : string) :
  Ride_CanTransitionTo r status = true ->
  In (ride_Status r, status)
    [(RideStatusPending, RideStatusMatching); (RideStatusPending, RideStatusCancelled);
     (RideStatusMatching, RideStatusDriverAssigned);
     (RideStatusMatching, RideStatusCancelled);
     (RideStatusDriverAssigned, RideStatusDriverArrived);
     (RideStatusDriverAssigned, RideStatusCancelled);
     (RideStatusDriverArrived, RideStatusInProgress);
     (RideStatusDriverArrived, RideStatusCancelled);
     (RideStatusInProgress, RideStatusCompleted);
     (RideStatusInProgress, RideStatusCancelled)].
Proof.
  unfold Ride_CanTransitionTo. intros Hcan.
  destruct (ValidRideTransitions !! ride_Status r) as [l|] eqn:Hl; [|discriminate].
  unfold ValidRideTransitions in Hl.
  repeat (apply lookup_insert_Some in Hl as [[<- <-]|[_ Hl]];
          [first [ apply existsb_two in Hcan as [-> | ->]; simpl; tauto
                 | discriminate Hcan ]|]).
  rewrite lookup_empty in Hl. discriminate.
Qed.

Lemma Ride_transition_forward (r : Ride) (status : string) :
  Ride_CanTransitionTo r status = true ->
  (ride_rank (ride_Status r) < ride_rank status)%nat.
Proof.
  intros Hcan. apply Ride_transitions in Hcan. simpl in Hcan.
  repeat (destruct Hcan as [Hcan|Hcan];
          [injection Hcan as <- <-; vm_compute; lia|]).
  destruct Hcan.
Qed.

(** The arrows of [ValidTripTransitions] that lead to [paused] and to
    [completed]. *)
Lemma Trip_can_pause (t : Trip) :
  Trip_CanTransitionTo t TripStatusPaused = true <-> trip_Status t = TripStatusStarted.
Proof.
  unfold Trip_CanTransitionTo. split.
  - intros Hcan.
    destruct (ValidTripTransitions !! trip_Status t) as [l|] eqn:Hl; [|discriminate].
    unfold ValidTripTransitions in Hl.
    apply lookup_insert_Some in Hl as [[<- <-]|[_ Hl]]; [reflexivity|].
    repeat (apply lookup_insert_Some in Hl as [[<- <-]|[_ Hl]];
            [vm_compute in Hcan; discriminate|]).
    rewrite lookup_empty in Hl. discriminate.
  - intros ->. reflexivity.
Qed.

Lemma Trip_can_complete (t : Trip) :
  Trip_CanTransitionTo t TripStatusCompleted = true
  <-> trip_Status t = TripStatusStarted \/ trip_Status t = TripStatusPaused.
Proof.
  unfold Trip_CanTransitionTo. split.
  - intros Hcan.
    destruct (ValidTripTransitions !! trip_Status t) as [l|] eqn:Hl; [|discriminate].
    unfold ValidTripTransitions in Hl.
    apply lookup_insert_Some in Hl as [[<- <-]|[_ Hl]]; [left; reflexivity|].
    apply lookup_insert_Some in Hl as [[<- <-]|[_ Hl]]; [right; reflexivity|].
    repeat (apply lookup_insert_Some in Hl as [[<- <-]|[_ Hl]];
            [vm_compute in Hcan; discriminate|]).
    rewrite lookup_empty in Hl. discriminate.
  - intros [-> | ->]; reflexivity.
Qed.


(** ** Pausing and resuming *)

Lemma trip_lookup_update (now : Z) (id status : string) (d : DB) (trip : Trip) :
  tripRepo_GetByID d id = Some trip ->
  tripRepo_GetByID (tripRepo_UpdateStatus now id status d) id
  = Some (trip_with_status trip status now).
Proof.
  intros Hget. unfold tripRepo_GetByID, tripRepo_UpdateStatus in *. simpl.
  rewrite sql_get_update by (intros row Hrow; exact Hrow).
  rewrite Hget. reflexivity.
Qed.

(** X1: a pause followed by a resumption gives the trip back as it was.
    [PauseTrip] goes through on a started trip only; the resumption, whenever
    it comes, then goes through, and the row differs from the one before the
    pause in [updated_at] alone: the time spent paused is recorded nowhere
    ([pause_duration_secs] keeps its value). *)
Theorem PauseTrip_then_ResumeTrip (tripID : string) (w w1 : World) :
  PauseTrip tripID w = (None, w1) ->
  exists trip,
    tripRepo_GetByID (db w) tripID = Some trip
    /\ trip_Status trip = TripStatusStarted
    /\ tripRepo_GetByID (db w1) tripID
       = Some (trip_with_status trip TripStatusPaused (now w))
    /\ forall t,
         fst (ResumeTrip tripID (at_time w1 t)) = None
         /\ tripRepo_GetByID (db (snd (ResumeTrip tripID (at_time w1 t)))) tripID
            = Some (trip_with_status trip TripStatusStarted t).
Proof.
  unfold PauseTrip. intros Hrun.
  destruct (tripRepo_GetByID (db w) tripID) as [trip|] eqn:Hget; [|discriminate].
  destruct (negb _) eqn:Hcan; [discriminate|].
  apply negb_false_iff, Trip_can_pause in Hcan. injection Hrun as <-.
  exists trip. split; [reflexivity|]. split; [exact Hcan|].
  pose proof (trip_lookup_update (now w) tripID TripStatusPaused (db w) trip Hget) as Hpaused.
  split; [exact Hpaused|].
  intros t. unfold ResumeTrip. simpl. rewrite Hpaused. simpl.
  split; [reflexivity|].
  rewrite (trip_lookup_update t tripID TripStatusStarted _ _ Hpaused).
  destruct trip; reflexivity.
Qed.

Section WithExternals.
Context `{Externals} `{PricingService}.

(** X2: a successful status update moves the ride forward.  Every arrow of
    the transition table leads to a status of higher rank, so a status once
    left is never taken again; [UpdateRideStatus] writes the new status of
    the ride it found and of no other ride. *)
Theorem UpdateRideStatus_moves_forward (id status : string) (w w' : World) :
  UpdateRideStatus id status w = (None, w') ->
  exists ride,
    rideRepo_GetByID (db w) id = Some ride
    /\ (ride_rank (ride_Status ride) < ride_rank status)%nat
    /\ rideRepo_GetByID (db w') id
       = Some (ride_update ride (ride_DriverID ride) status (ride_CancelledBy ride)
                 (ride_CancellationReason ride) (now w))
    /\ (forall other, other <> id ->
          rideRepo_GetByID (db w') other = rideRepo_GetByID (db w) other).
Proof.
  unfold UpdateRideStatus. intros Hrun.
  destruct (rideRepo_GetByID (db w) id) as [ride|] eqn:Hget; [|discriminate].
  destruct (negb _) eqn:Hcan; [discriminate|].
  apply negb_false_iff in Hcan. injection Hrun as <-.
  exists ride. split; [reflexivity|].
  split; [apply Ride_transition_forward; exact Hcan|].
  split.
  - unfold rideRepo_GetByID, rideRepo_UpdateStatus in *. simpl.
    rewrite sql_get_update by (intros row Hrow; exact Hrow).
    rewrite Hget. reflexivity.
  - intros other Hother.
    unfold rideRepo_GetByID, rideRepo_UpdateStatus. simpl.
    rewrite sql_get_update_other by reflexivity.
    destruct (sql_get _ (rides (db w))) as [row|] eqn:Hrow; [|reflexivity].
    apply sql_get_Some in Hrow as [_ Hrow]. apply bool_decide_eq_true in Hrow.
    simpl. rewrite bool_decide_eq_false_2 by congruence. reflexivity.
Qed.

(** X3: completed and cancelled rides are frozen.  Neither a status update
    (to any status) nor a cancellation goes through; both answer
    [invalid_transition] and leave the world as it is. *)
Theorem terminal_rides_are_frozen (id : string) (w : World) (ride : Ride) :
  rideRepo_GetByID (db w) id = Some ride ->
  ride_Status ride = RideStatusCompleted \/ ride_Status ride = RideStatusCancelled ->
  (forall status,
      UpdateRideStatus id status w
      = (Some (InvalidTransition (ride_Status ride) status), w))
  /\ (forall req,
         CancelRide id req w
         = (Some (InvalidTransition (ride_Status ride) RideStatusCancelled), w)).
Proof.
  intros Hget Hterminal.
  assert (Hfrozen : forall status, Ride_CanTransitionTo ride status = false).
  { intros status. destruct (Ride_CanTransitionTo ride status) eqn:Hcan; [|reflexivity].
    apply Ride_transitions in Hcan. simpl in Hcan.
    destruct Hterminal as [Hst|Hst]; rewrite Hst in Hcan;
      repeat (destruct Hcan as [Hcan|Hcan]; [discriminate Hcan|]); destruct Hcan. }
  split.
  - intros status. unfold UpdateRideStatus. rewrite Hget, Hfrozen. reflexivity.
  - intros req. unfold CancelRide. rewrite Hget, Hfrozen. reflexivity.
Qed.

(** ** Ending a trip *)

Lemma EndTrip_outcome (tripID : string) (req : EndTripRequest) (w w' : World)
  (ended : Trip) :
  EndTrip tripID req w = (Ok ended, w') ->
  exists trip ride km mins,
    tripRepo_GetByID (db w) tripID = Some trip
    /\ rideRepo_GetByID (db w) (trip_RideID trip) = Some ride
    /\ tripRepo_GetByID (db w') tripID = Some ended
    /\ trip_Status ended = TripStatusCompleted
    /\ trip_EndTime ended = Some (now w)
    /\ trip_ActualDistanceKm ended = Some km
    /\ (forall odometer, end_OdometerKm req = Some odometer -> km = odometer)
    /\ trip_ActualDurationMin ended = Some mins
    /\ (trip_StartTime trip <> None -> 1 <= mins)
    /\ (let fare := ps_CalculateActualFare (ride_VehicleType ride) km mins
                      (ride_SurgeMultiplier ride) in
        trip_BaseFare ended = Some (BaseFare fare)
        /\ trip_DistanceFare ended = Some (DistanceFare fare)
        /\ trip_TimeFare ended = Some (TimeFare fare)
        /\ trip_SurgeAmount ended = Some (SurgeAmount fare)
        /\ trip_TotalFare ended = Some (Total fare))
    /\ option_map ride_Status (rideRepo_GetByID (db w') (trip_RideID trip))
       = Some RideStatusCompleted
    /\ (forall driver,
          driverRepo_GetByID (db w) (trip_DriverID trip) = Some driver ->
          driverRepo_GetByID (db w') (trip_DriverID trip)
          = Some (driver_update driver DriverStatusOnline
                    (driver_TotalTrips driver + 1) (now w)))
    /\ (forall t, GetActiveRide t (redis w') (trip_DriverID trip) = "").
Proof.
  unfold EndTrip. intros Hrun.
  destruct (tripRepo_GetByID (db w) tripID) as [trip|] eqn:Hget; [|discriminate].
  destruct (negb _) eqn:Hcan; [discriminate|].
  destruct (rideRepo_GetByID (db w) (trip_RideID trip)) as [ride|] eqn:Hride;
    [|discriminate].
  pose proof Hget as Hid. apply sql_get_Some in Hid as [_ Hid].
  apply bool_decide_eq_true in Hid.
  cbv beta iota zeta delta [tripRepo_EndTrip] in Hrun.
  injection Hrun as <- <-.
  eexists trip, ride, _, _.
  split; [reflexivity|]. split; [exact Hride|].
  split.
  { unfold tripRepo_GetByID in *. simpl. subst tripID.
    rewrite sql_get_update by (intros row Hrow; exact Hrow).
    rewrite Hget. reflexivity. }
  split; [reflexivity|]. split; [reflexivity|]. split; [reflexivity|].
  split. { intros odometer ->. reflexivity. }
  split; [reflexivity|].
  split.
  { destruct (trip_StartTime trip) as [startTime|]; [intros _|intros Hno; contradiction].
    destruct (_ <? 1) eqn:Hlt; [lia|]. apply Z.ltb_ge in Hlt. exact Hlt. }
  split. { simpl. repeat split; reflexivity. }
  split.
  { unfold rideRepo_GetByID in *. simpl.
    rewrite sql_get_update by (intros row Hrow; exact Hrow).
    rewrite Hride. reflexivity. }
  split.
  { intros driver Hdriver. unfold driverRepo_GetByID in *. simpl.
    rewrite sql_get_update by (intros row Hrow; exact Hrow).
    rewrite sql_get_update by (intros row Hrow; exact Hrow).
    rewrite Hdriver. reflexivity. }
  intros t. unfold GetActiveRide. simpl.
  destruct (decide ("user:active:" ++ trip_UserID trip
                    = driverActiveRideKey ++ trip_DriverID trip)) as [Heq|Hne].
  - rewrite Heq, lookup_delete_eq. reflexivity.
  - rewrite lookup_delete_ne by exact Hne. rewrite lookup_delete_eq. reflexivity.
Qed.


(** X5: a trip ends once.  After a trip has ended, ending it again (with
    whatever request, whenever) is refused as an invalid transition and
    changes nothing: the driver's trip count grows by one per trip. *)
Theorem EndTrip_twice_is_refused (tripID : string) (req req' : EndTripRequest)
  (w w' : World) (ended : Trip) (t : Z) :
  EndTrip tripID req w = (Ok ended, w') ->
  EndTrip tripID req' (at_time w' t)
  = (Err (InvalidTransition TripStatusCompleted TripStatusCompleted), at_time w' t).
Proof.
  intros Hrun.
  apply EndTrip_outcome in Hrun as (trip & ride & km & mins & _ & _ & Hget & Hst & _).
  unfold EndTrip. simpl. rewrite Hget.
  assert (Hcan : Trip_CanTransitionTo ended TripStatusCompleted = false).
  { destruct (Trip_CanTransitionTo ended TripStatusCompleted) eqn:Hcan; [|reflexivity].
    apply Trip_can_complete in Hcan. rewrite Hst in Hcan.
    destruct Hcan as [Hcan|Hcan]; discriminate Hcan. }
  rewrite Hcan, Hst. reflexivity.
Qed.

(** ** Pauses and the bill *)



End WithExternals.

(** ** The theorems at work *)

(** The trip of [Fixtures.driver_waiting], started. *)
Definition trip_running : World :=
  let E := Fixtures.externals [] in
  snd (StartTrip "ride-1" Fixtures.driver_waiting).


Definition at_destination : EndTripRequest := mkEndTripRequest 12.9716 77.5946 (Some 7.5%float).

(** The trip of [trip_running], ended. *)
Definition trip_over : World :=
  let E := Fixtures.externals [] in
  let P := Fixtures.pricing in
  snd (EndTrip "uuid-0" at_destination trip_running).

Lemma UpdateRideStatus_moves_forward_witness :
  let w := Fixtures.driver_waiting in
  let w' := snd (UpdateRideStatus "ride-1" "in_progress" w) in
  exists ride,
    rideRepo_GetByID (db w) "ride-1" = Some ride
    /\ (ride_rank (ride_Status ride) < ride_rank "in_progress")%nat
    /\ rideRepo_GetByID (db w') "ride-1"
       = Some (ride_update ride (ride_DriverID ride) "in_progress" (ride_CancelledBy ride)
                 (ride_CancellationReason ride) (now w))
    /\ (forall other, other <> "ride-1" ->
          rideRepo_GetByID (db w') other = rideRepo_GetByID (db w) other).
Proof.
  intros w w'.
  apply (UpdateRideStatus_moves_forward "ride-1" "in_progress" w w').
  vm_compute. reflexivity.
Defined.

Lemma terminal_rides_are_frozen_witness :
  let ride := Fixtures.ride "ride-1" "completed" (Some "driver-1") in
  let w := mkWorld (mkDB [Fixtures.user1] [Fixtures.driver "driver-1" "online"] [ride] [] [])
             Fixtures.emptyRedis (2000 * Second) 0 in
  (forall status,
      UpdateRideStatus "ride-1" status w
      = (Some (InvalidTransition "completed" status), w))
  /\ (forall req,
         CancelRide "ride-1" req w
         = (Some (InvalidTransition "completed" RideStatusCancelled), w)).
Proof.
  intros ride w.
  apply (terminal_rides_are_frozen "ride-1" w ride); [reflexivity|left; reflexivity].
Defined.

Lemma PauseTrip_then_ResumeTrip_witness :
  let w := at_time trip_running (1180 * Second) in
  let w1 := snd (PauseTrip "uuid-0" w) in
  exists trip,
    tripRepo_GetByID (db w) "uuid-0" = Some trip
    /\ trip_Status trip = TripStatusStarted
    /\ tripRepo_GetByID (db w1) "uuid-0"
       = Some (trip_with_status trip TripStatusPaused (now w))
    /\ forall t,
         fst (ResumeTrip "uuid-0" (at_time w1 t)) = None
         /\ tripRepo_GetByID (db (snd (ResumeTrip "uuid-0" (at_time w1 t)))) "uuid-0"
            = Some (trip_with_status trip TripStatusStarted t).
Proof.
  intros w w1.
  apply (PauseTrip_then_ResumeTrip "uuid-0" w w1).
  vm_compute. reflexivity.
Defined.


Lemma EndTrip_twice_is_refused_witness :
  let E := Fixtures.externals [] in
  let P := Fixtures.pricing in
  EndTrip "uuid-0" at_destination (at_time trip_over (1700 * Second))
  = (Err (InvalidTransition TripStatusCompleted TripStatusCompleted),
     at_time trip_over (1700 * Second)).
Proof.
  intros E P.
  destruct (EndTrip "uuid-0" at_destination trip_running) as [r w'] eqn:Hrun.
  destruct r as [ended|e]; [|vm_compute in Hrun; discriminate].
  assert (Hw' : w' = trip_over).
  { change trip_over with (snd (EndTrip "uuid-0" at_destination trip_running)).
    rewrite Hrun. reflexivity. }
  rewrite <- Hw'.
  exact (@EndTrip_twice_is_refused P "uuid-0" at_destination at_destination
           trip_running w' ended (1700 * Second) Hrun).
Defined.


End LifecycleProps.

(* ===================================================================== *)
(** * Properties of dispatch: riders, rides and their drivers *)
(* ===================================================================== *)

Module DispatchProps.
Import Errors Models Store Cache Pricing GoNum Service System TripLifecycle.
Import RideProps OfferProps InvariantProps LifecycleProps.

(** ** How the operations change the [rides] table *)

(** What an update may do to a row: it keeps the id and the rider, keeps the
    driver of a ride that has one, and does not bring a finished ride back. *)
Definition row_moves_on (r r' : Ride) : Prop :=
  ride_ID r' = ride_ID r
  /\ ride_UserID r' = ride_UserID r
  /\ (ride_DriverID r <> None -> ride_DriverID r' = ride_DriverID r)
  /\ (ride_is_active r' = true -> ride_is_active r = true).

(** What a new row is: its id is not taken, it has no driver, and its rider
    has no active ride. *)
Definition row_is_new (t : list Ride) (r : Ride) : Prop :=
  ~ In (ride_ID r) (List.map ride_ID t)
  /\ ride_DriverID r = None
  /\ forall r0, In r0 t -> ride_UserID r0 = ride_UserID r -> ride_is_active r0 = false.

Inductive rides_change : list Ride -> list Ride -> Prop :=
| change_same t : rides_change t t
| change_update t c set :
    (forall r, In r t -> c r = true -> row_moves_on r (set r)) ->
    rides_change t (sql_update c set t)
| change_insert t r : row_is_new t r -> rides_change t (t ++ [r])
| change_trans t1 t2 t3 :
    rides_change t1 t2 -> rides_change t2 t3 -> rides_change t1 t3.


Lemma latest_ride_None (cond : Ride -> bool) (t : list Ride) :
  latest_ride cond t = None <-> forall r, In r t -> cond r = false.
Proof.
  unfold latest_ride.
  assert (Hsome : forall l b, exists b',
             fold_left (fun best r =>
                          if cond r
                          then match best with
                               | Some b0 => if ride_CreatedAt b0 <? ride_CreatedAt r
                                            then Some r else best
                               | None => Some r
                               end
                          else best) l (Some b) = Some b').
  { induction l as [|x l IH]; intros b; simpl; [eauto|].
    destruct (cond x); [|apply IH].
    destruct (ride_CreatedAt b <? ride_CreatedAt x); apply IH. }
  induction t as [|x t IH]; simpl.
  - split; [intros _ r []|reflexivity].
  - destruct (cond x) eqn:Hx.
    + split.
      * intros Hnone. destruct (Hsome t x) as [b' Hb']. congruence.
      * intros Hall. rewrite (Hall x) in Hx by auto. discriminate.
    + rewrite IH. split.
      * intros Hall r [<-|Hin]; auto.
      * intros Hall r Hin. apply Hall. auto.
Qed.

Lemma ride_lookup_in (d : DB) (id : string) (r : Ride) :
  rideRepo_GetByID d id = Some r -> In r (rides d) /\ ride_ID r = id.
Proof.
  intros Hget. apply sql_get_Some in Hget as [Hin Hid].
  apply bool_decide_eq_true in Hid. auto.
Qed.

(** Under the primary key, the rows an update by id reaches are the row a
    lookup by id finds. *)
Lemma update_by_id (d : DB) (id : string) (ride : Ride) (set : Ride -> Ride) :
  List.NoDup (List.map ride_ID (rides d)) ->
  rideRepo_GetByID d id = Some ride ->
  row_moves_on ride (set ride) ->
  rides_change (rides d)
    (sql_update (fun r => bool_decide (ride_ID r = id)) set (rides d)).
Proof.
  intros Hpk Hget Hok. apply change_update.
  intros r Hin Hid. apply bool_decide_eq_true in Hid.
  rewrite (pk_unique_row ride_ID id (rides d) ride Hpk Hget r Hin Hid). exact Hok.
Qed.

Lemma status_update_moves_on (r : Ride) (status : string) (by_whom reason : option string)
  (now : Z) :
  (ride_is_active r = false ->
   status = RideStatusCompleted \/ status = RideStatusCancelled) ->
  row_moves_on r (ride_update r (ride_DriverID r) status by_whom reason now).
Proof.
  intros Hterminal. repeat split; intros Hactive'.
  destruct (ride_is_active r) eqn:Hactive; [reflexivity|].
  destruct (Hterminal eq_refl) as [-> | ->]; vm_compute in Hactive'; discriminate.
Qed.

Lemma can_move_is_active (r : Ride) (status : string) :
  Ride_CanTransitionTo r status = true -> ride_is_active r = true.
Proof.
  intros Hcan. apply Ride_transitions in Hcan. simpl in Hcan.
  unfold ride_is_active.
  repeat (destruct Hcan as [Hcan|Hcan];
          [injection Hcan as <- _; reflexivity|]).
  destruct Hcan.
Qed.


(** ** What follows for drivers and riders *)

Lemma rides_change_keeps_driver (t t' : list Ride) :
  rides_change t t' ->
  forall r, In r t -> ride_DriverID r <> None ->
            exists r', In r' t' /\ ride_ID r' = ride_ID r
                       /\ ride_DriverID r' = ride_DriverID r.
Proof.
  induction 1 as [t|t c set Hok|t r0 Hnew|t1 t2 t3 _ IH1 _ IH2]; intros r Hin Hd.
  - eauto.
  - exists (if c r then set r else r). split; [apply in_sql_update; eauto|].
    destruct (c r) eqn:Hc; [|auto].
    destruct (Hok r Hin Hc) as (Hid & _ & Hdriver & _). auto.
  - exists r. split; [apply in_or_app; auto|auto].
  - destruct (IH1 r Hin Hd) as (r1 & Hin1 & Hid1 & Hd1).
    destruct (IH2 r1 Hin1) as (r2 & Hin2 & Hid2 & Hd2); [congruence|].
    exists r2. split; [exact Hin2|]. split; congruence.
Qed.



Section WithExternals.
Context `{Externals} `{PricingService}.

Lemma step_rides_change (w w' : World) :
  consistent (db w) -> step w w' -> rides_change (rides (db w)) (rides (db w')).
Proof.
  intros Hc.
  destruct 1 as [req key w|id req w|id status w|rideID w|tripID req w
                |fault driverID req w|driverID offerID w|ride w|w w' Hr Ho].
  - unfold CreateRide.
    destruct (if decide (key = "") then None else _); [constructor|].
    destruct (userRepo_GetByID _ _); [|constructor].
    destruct (rideRepo_GetActiveRideByUserID _ _) eqn:Hactive; [constructor|].
    match goal with |- context [rideRepo_Create ?n ?f ?r ?d] =>
      destruct (rideRepo_Create n f r d) as [created res] eqn:Hcreate end.
    destruct res as [db1|e]; [|constructor]. simpl.
    unfold rideRepo_Create in Hcreate. cbv zeta in Hcreate.
    destruct (has_ride _ _) eqn:Hpk in Hcreate; [discriminate|].
    repeat match type of Hcreate with
           | (if ?c then _ else _) = _ => destruct c; [discriminate|]
           end.
    injection Hcreate as <- <-. cbn [rides with_rides ride_ID ride_assign] in *.
    match goal with |- context [(rides (db w) ++ [?r])%list] => set (row := r) in * end.
    assert (Hnew : has_ride (db w) (ride_ID row) = false) by exact Hpk.
    eapply change_trans.
    + apply (change_insert _ row). split; [|split].
      * intros Hin. apply has_ride_iff in Hin. congruence.
      * reflexivity.
      * intros r0 Hin Huser.
        unfold rideRepo_GetActiveRideByUserID in Hactive.
        apply (proj1 (latest_ride_None _ _)) with (r := r0) in Hactive; [|exact Hin].
        rewrite bool_decide_eq_true_2 in Hactive by exact Huser. exact Hactive.
    + apply change_update. intros r Hin Hid. apply bool_decide_eq_true in Hid.
      apply in_app_or in Hin as [Hin|[<-|[]]].
      * exfalso. assert (has_ride (db w) (ride_ID row) = true); [|congruence].
        apply has_ride_iff. replace (ride_ID row) with (ride_ID r) by exact Hid.
        apply in_map. exact Hin.
      * apply status_update_moves_on. intros Hdead. vm_compute in Hdead. discriminate.
  - unfold CancelRide.
    destruct (rideRepo_GetByID _ _) as [ride|]; [|constructor].
    destruct (negb _); [constructor|].
    destruct (ride_DriverID ride); simpl;
      (apply change_update; intros r _ _; repeat split;
       intros Hdead; vm_compute in Hdead; discriminate).
  - unfold UpdateRideStatus.
    destruct (rideRepo_GetByID _ _) as [ride|] eqn:Hget; [|constructor].
    destruct (negb _) eqn:Hcan; [constructor|]. apply negb_false_iff in Hcan. simpl.
    apply (update_by_id (db w) id ride); [apply Hc|exact Hget|].
    apply status_update_moves_on. intros Hdead.
    rewrite (can_move_is_active _ _ Hcan) in Hdead. discriminate.
  - unfold StartTrip.
    destruct (rideRepo_GetByID _ _) as [ride|] eqn:Hget; [|constructor].
    destruct (negb _) eqn:Harrived; [constructor|].
    destruct (ride_DriverID ride); [|constructor].
    destruct (tripRepo_GetByRideID _ _); [constructor|].
    match goal with |- context [tripRepo_Create ?n ?f ?t ?d] =>
      destruct (tripRepo_Create n f t d) as [created res] eqn:Hcreate end.
    destruct res as [db1|e]; [|constructor]. simpl.
    unfold tripRepo_Create in Hcreate.
    repeat match type of Hcreate with
           | (if ?c then _ else _) = _ => destruct c; [discriminate|]
           end.
    injection Hcreate as <- <-. simpl.
    apply (update_by_id (db w) rideID ride); [apply Hc|exact Hget|].
    apply status_update_moves_on. intros Hdead.
    apply negb_false_iff, bool_decide_eq_true in Harrived.
    unfold ride_is_active in Hdead. rewrite Harrived in Hdead. discriminate.
  - unfold EndTrip.
    destruct (tripRepo_GetByID _ _) as [trip|]; [|constructor].
    destruct (negb _); [constructor|].
    destruct (rideRepo_GetByID _ _) as [ride|]; [|constructor].
    simpl. apply change_update. intros r _ _. repeat split.
    intros Hdead. vm_compute in Hdead. discriminate.
  - destruct (AcceptRide fault driverID req w) as [r w'] eqn:Hrun.
    apply AcceptRide_outcome in Hrun. simpl.
    destruct r as [resp|e]; [|subst; constructor].
    destruct Hrun as (offer & ride & _ & _ & _ & _ & _ & Hget & Hmatching & _ & -> & _).
    unfold accept_updates. simpl.
    apply (update_by_id (db w) (accept_RideID req) ride); [apply Hc|exact Hget|].
    destruct (ride_lookup_in _ _ _ Hget) as [Hin _].
    repeat split.
    + intros Hdriver. exfalso.
      pose proof (assigned_one _ Hc ride Hin Hdriver) as Hone.
      rewrite (unassigned_none _ Hc ride Hin (or_intror Hmatching)) in Hone.
      discriminate.
    + intros _. unfold ride_is_active. rewrite Hmatching. reflexivity.
  - unfold DeclineRide.
    destruct (offerRepo_GetByID _ _) as [offer|]; [|constructor].
    destruct (negb _); [constructor|].
    destruct (negb _); constructor.
  - unfold FindAndOfferDrivers.
    destruct (_ && _).
    { simpl. apply change_update. intros r _ _. repeat split.
      intros Hdead. vm_compute in Hdead. discriminate. }
    destruct (length (scoreDrivers w (candidates ride w) ride) =? 0)%nat;
      [constructor|].
    simpl.
    destruct (offer_loop_keeps_rides ride
                (firstn (if (length (scoreDrivers w (candidates ride w) ride) <? 3)%nat
                         then length (scoreDrivers w (candidates ride w) ride)
                         else 3%nat)
                   (scoreDrivers w (candidates ride w) ride)) w).
    constructor.
  - rewrite Hr. constructor.
Qed.


Lemma steps_keep_the_driver (w w' : World) (rideID driverID : string) :
  reachable w -> steps w w' ->
  option_map ride_DriverID (rideRepo_GetByID (db w) rideID) = Some (Some driverID) ->
  option_map ride_DriverID (rideRepo_GetByID (db w') rideID) = Some (Some driverID).
Proof.
  intros Hreach Hsteps. induction Hsteps as [w|w w' w'' Hsteps IH Hstep]; [auto|].
  intros Hd. specialize (IH Hreach Hd).
  pose proof (steps_reachable w w' Hreach Hsteps) as Hreach'.
  pose proof (reachable_consistent w' Hreach') as Hc'.
  pose proof (reachable_consistent w'' (reachable_step w' w'' Hreach' Hstep)) as Hc''.
  destruct (rideRepo_GetByID (db w') rideID) as [r|] eqn:Hget; [|discriminate].
  injection IH as Hdriver.
  destruct (ride_lookup_in _ _ _ Hget) as [Hin Hid].
  destruct (rides_change_keeps_driver _ _ (step_rides_change w' w'' Hc' Hstep) r Hin)
    as (r' & Hin' & Hid' & Hd'); [congruence|].
  destruct (sql_get_key_Some ride_ID rideID (rides (db w''))) as [row Hrow].
  { rewrite <- Hid, <- Hid'. apply in_map. exact Hin'. }
  unfold rideRepo_GetByID. rewrite Hrow. simpl.
  rewrite <- (pk_unique_row ride_ID rideID (rides (db w'')) row (rides_pk _ Hc'') Hrow
                r' Hin') by congruence.
  congruence.
Qed.

(** X8: the driver of a ride never changes.  Once a ride has a driver, in a
    world the system can reach, the ride has that driver in every world that
    follows, whatever is called. *)
Theorem assigned_driver_never_changes (w w' : World) (rideID driverID : string) :
  reachable w -> steps w w' ->
  option_map ride_DriverID (rideRepo_GetByID (db w) rideID) = Some (Some driverID) ->
  option_map ride_DriverID (rideRepo_GetByID (db w') rideID) = Some (Some driverID).
Proof. apply steps_keep_the_driver. Qed.

(** X9: a ride is accepted once.  Once a ride has a driver, every later
    [AcceptRide] for it, by any driver, on any offer, fails and leaves the
    world as it is. *)
Theorem assigned_ride_is_not_accepted_again (w w' : World) (rideID driverID : string)
  (fault : nat -> bool) (caller : string) (req : AcceptRideRequest) :
  reachable w -> steps w w' ->
  option_map ride_DriverID (rideRepo_GetByID (db w) rideID) = Some (Some driverID) ->
  accept_RideID req = rideID ->
  exists e, AcceptRide fault caller req w' = (Err e, w').
Proof.
  intros Hreach Hsteps Hd Hid.
  pose proof (steps_keep_the_driver w w' rideID driverID Hreach Hsteps Hd) as Hd'.
  pose proof (reachable_consistent w' (steps_reachable w w' Hreach Hsteps)) as Hc.
  destruct (AcceptRide fault caller req w') as [r w''] eqn:Hrun.
  pose proof (AcceptRide_outcome fault caller req w' w'' r Hrun) as Hout.
  destruct r as [resp|e]; [exfalso|subst w''; eauto].
  destruct Hout as (offer & ride & _ & _ & _ & _ & _ & Hget & Hmatching & _).
  rewrite Hid in Hget. rewrite Hget in Hd'. injection Hd' as Hdriver.
  destruct (ride_lookup_in _ _ _ Hget) as [Hin _].
  assert (Hone : count_accepted (ride_offers (db w')) (ride_ID ride) = 1%nat).
  { apply (assigned_one _ Hc ride Hin). congruence. }
  rewrite (unassigned_none _ Hc ride Hin (or_intror Hmatching)) in Hone.
  discriminate.
Qed.

(** ** One call after another *)

Lemma sql_get_app_old {A} (cond : A -> bool) (t l : list A) (row : A) :
  sql_get cond t = Some row -> sql_get cond (t ++ l) = Some row.
Proof.
  unfold sql_get. induction t as [|x t IH]; simpl; [discriminate|].
  destruct (cond x); auto.
Qed.

(** X10: the idempotency key of a ride request.  When [CreateRide] has
    answered a request under a key with a ride, every later call under that
    key, with whatever request, answers with the stored ride of that id and
    changes nothing: no second ride is created. *)
Theorem CreateRide_replays_the_key (req : CreateRideRequest) (key : string)
  (w w' : World) (ride : Ride) :
  key <> "" ->
  CreateRide req key w = (Ok ride, w') ->
  exists stored,
    rideRepo_GetByIdempotencyKey (db w') key = Some stored
    /\ ride_ID stored = ride_ID ride
    /\ forall req' t, CreateRide req' key (at_time w' t) = (Ok stored, at_time w' t).
Proof.
  intros Hkey Hrun.
  assert (Hreplay : forall stored,
             rideRepo_GetByIdempotencyKey (db w') key = Some stored ->
             forall req' t, CreateRide req' key (at_time w' t) = (Ok stored, at_time w' t)).
  { intros stored Hstored req' t. unfold CreateRide. simpl.
    destruct (decide (key = "")); [contradiction|]. rewrite Hstored. reflexivity. }
  unfold CreateRide in Hrun.
  destruct (decide (key = "")) as [|_]; [contradiction|].
  destruct (rideRepo_GetByIdempotencyKey (db w) key) as [existing|] eqn:Hexisting.
  { injection Hrun as <- <-. exists existing. auto. }
  destruct (userRepo_GetByID _ _); [|discriminate].
  destruct (rideRepo_GetActiveRideByUserID _ _); [discriminate|].
  match type of Hrun with context [rideRepo_Create ?n ?f ?r ?d] =>
    destruct (rideRepo_Create n f r d) as [created res] eqn:Hcreate end.
  destruct res as [db1|e]; [|discriminate].
  injection Hrun as <- <-.
  unfold rideRepo_Create in Hcreate. cbv zeta in Hcreate.
  destruct (has_ride _ _) in Hcreate; [discriminate|].
  destruct (negb _) in Hcreate; [discriminate|].
  cbn [ride_IdempotencyKey ride_assign] in Hcreate.
  destruct (decide (key = "")) as [|_]; [contradiction|].
  destruct (existsb _ (rides (db w))) eqn:Hunique in Hcreate; [discriminate|].
  injection Hcreate as <- <-.
  match goal with |- context [(rides (db w) ++ [?r])%list] => set (row := r) in * end.
  assert (Hstored : rideRepo_GetByIdempotencyKey
                      (rideRepo_UpdateStatus (now w) (ride_ID row) RideStatusMatching
                         (with_rides (db w) (rides (db w) ++ [row])%list)) key
                    = Some (ride_update row (ride_DriverID row) RideStatusMatching
                              (ride_CancelledBy row) (ride_CancellationReason row) (now w))).
  { unfold rideRepo_GetByIdempotencyKey, rideRepo_UpdateStatus. simpl.
    rewrite sql_get_update_other by reflexivity.
    rewrite (sql_get_app_new _ (rides (db w)) row Hunique)
      by (apply bool_decide_eq_true; reflexivity).
    simpl. rewrite bool_decide_eq_true_2 by reflexivity. reflexivity. }
  eexists. split; [exact Hstored|]. split; [reflexivity|].
  apply Hreplay. exact Hstored.
Qed.

(** X11: no second ride while one is active.  A request of a rider who has a
    ride that is neither completed nor cancelled, under no key or under a key
    that names no ride, is refused with [active_ride_exists] and changes
    nothing. *)
Theorem CreateRide_refuses_a_second_active_ride (req : CreateRideRequest) (key : string)
  (w : World) (rider : User) (active : Ride) :
  key = "" \/ rideRepo_GetByIdempotencyKey (db w) key = None ->
  userRepo_GetByID (db w) (req_UserID req) = Some rider ->
  In active (rides (db w)) ->
  ride_UserID active = req_UserID req ->
  ride_is_active active = true ->
  CreateRide req key w = (Err UserHasActiveRide, w).
Proof.
  intros Hkey Huser Hin Howner Hactive. unfold CreateRide.
  assert (Hnone : (if decide (key = "") then None
                   else rideRepo_GetByIdempotencyKey (db w) key) = None).
  { destruct (decide (key = "")); [reflexivity|]. destruct Hkey; [contradiction|auto]. }
  rewrite Hnone, Huser.
  destruct (rideRepo_GetActiveRideByUserID (db w) (req_UserID req)) eqn:Hfound;
    [reflexivity|].
  unfold rideRepo_GetActiveRideByUserID in Hfound.
  apply (proj1 (latest_ride_None _ _)) with (r := active) in Hfound; [|exact Hin].
  rewrite Hactive, bool_decide_eq_true_2 in Hfound by exact Howner. discriminate.
Qed.

Lemma CancelRide_outcome (id : string) (req : CancelRideRequest)
  (w w' : World) :
  CancelRide id req w = (None, w') ->
  exists ride,
    rideRepo_GetByID (db w) id = Some ride
    /\ rideRepo_GetByID (db w') id
       = Some (ride_update ride (ride_DriverID ride) RideStatusCancelled
                 (Some (cancel_CancelledBy req)) (Some (cancel_Reason req)) (now w))
    /\ (forall driverID driver,
          ride_DriverID ride = Some driverID ->
          driverRepo_GetByID (db w) driverID = Some driver ->
          driverRepo_GetByID (db w') driverID
          = Some (driver_update driver DriverStatusOnline (driver_TotalTrips driver)
                    (now w)))
    /\ ride_offers (db w') = ride_offers (db w)
    /\ trips (db w') = trips (db w)
    /\ redis w' = redis w
    /\ (forall req' t,
          CancelRide id req' (at_time w' t)
          = (Some (InvalidTransition RideStatusCancelled RideStatusCancelled),
             at_time w' t))
    /\ (forall fault caller accept t,
          accept_RideID accept = id ->
          exists e, AcceptRide fault caller accept (at_time w' t) = (Err e, at_time w' t)).
Proof.
  unfold CancelRide. intros Hrun.
  destruct (rideRepo_GetByID (db w) id) as [ride|] eqn:Hget; [|discriminate].
  destruct (negb _); [discriminate|].
  assert (Hw' : rides (db w')
                = rides (rideRepo_Cancel (now w) id (cancel_CancelledBy req)
                           (cancel_Reason req) (db w))
                /\ ride_offers (db w') = ride_offers (db w)
                /\ trips (db w') = trips (db w)
                /\ redis w' = redis w).
  { injection Hrun as <-. destruct (ride_DriverID ride); repeat split. }
  destruct Hw' as (Hrides & Hoffers & Htrips & Hredis).
  assert (Hafter : rideRepo_GetByID (db w') id
                   = Some (ride_update ride (ride_DriverID ride) RideStatusCancelled
                             (Some (cancel_CancelledBy req)) (Some (cancel_Reason req))
                             (now w))).
  { unfold rideRepo_GetByID in *. rewrite Hrides. simpl.
    rewrite sql_get_update by (intros row Hrow; exact Hrow).
    rewrite Hget. reflexivity. }
  exists ride. split; [reflexivity|]. split; [exact Hafter|].
  split.
  { intros driverID driver Hd Hdriver. rewrite Hd in Hrun. injection Hrun as <-.
    unfold driverRepo_GetByID in *. simpl.
    rewrite sql_get_update by (intros row Hrow; exact Hrow).
    rewrite Hdriver. reflexivity. }
  split; [exact Hoffers|]. split; [exact Htrips|]. split; [exact Hredis|].
  split.
  - intros req' t. unfold CancelRide. simpl. rewrite Hafter. reflexivity.
  - intros fault caller accept t Hid.
    destruct (AcceptRide fault caller accept (at_time w' t)) as [r w''] eqn:Haccept.
    pose proof (AcceptRide_outcome _ _ _ _ _ _ Haccept) as Hout.
    destruct r as [resp|e]; [exfalso|subst w''; eauto].
    destruct Hout as (offer & found & _ & _ & _ & _ & _ & Hfound & Hmatching & _).
    simpl in Hfound. rewrite Hid, Hafter in Hfound. injection Hfound as <-.
    discriminate Hmatching.
Qed.

(** X12: what a cancellation does.  The ride is cancelled with the given
    originator and reason, its driver (when it has one) is online again;
    offers, trips and the presence cache stay as they are.  After that the
    ride can be neither cancelled again nor accepted. *)
Theorem CancelRide_releases_the_driver (id : string) (req : CancelRideRequest)
  (w w' : World) :
  CancelRide id req w = (None, w') ->
  exists ride,
    rideRepo_GetByID (db w) id = Some ride
    /\ rideRepo_GetByID (db w') id
       = Some (ride_update ride (ride_DriverID ride) RideStatusCancelled
                 (Some (cancel_CancelledBy req)) (Some (cancel_Reason req)) (now w))
    /\ (forall driverID driver,
          ride_DriverID ride = Some driverID ->
          driverRepo_GetByID (db w) driverID = Some driver ->
          driverRepo_GetByID (db w') driverID
          = Some (driver_update driver DriverStatusOnline (driver_TotalTrips driver)
                    (now w)))
    /\ ride_offers (db w') = ride_offers (db w)
    /\ trips (db w') = trips (db w)
    /\ redis w' = redis w
    /\ (forall req' t,
          CancelRide id req' (at_time w' t)
          = (Some (InvalidTransition RideStatusCancelled RideStatusCancelled),
             at_time w' t))
    /\ (forall fault caller accept t,
          accept_RideID accept = id ->
          exists e, AcceptRide fault caller accept (at_time w' t) = (Err e, at_time w' t)).
Proof. exact (CancelRide_outcome id req w w'). Qed.

(** X13: what a decline does.  The offer is declined as of now; after that it
    can be neither declined again nor accepted, by anyone, at any time. *)
Theorem DeclineRide_is_final (driverID offerID : string) (w w' : World) :
  DeclineRide driverID offerID w = (None, w') ->
  exists offer,
    offerRepo_GetByID (db w) offerID = Some offer
    /\ offer_DriverID offer = driverID
    /\ offer_Status offer = OfferStatusPending
    /\ offerRepo_GetByID (db w') offerID
       = Some (offer_update offer OfferStatusDeclined (Some (now w)))
    /\ rides (db w') = rides (db w)
    /\ (forall t,
          DeclineRide driverID offerID (at_time w' t)
          = (Some (BadRequest "offer already responded"), at_time w' t))
    /\ (forall fault caller accept t,
          accept_OfferID accept = offerID ->
          exists e, AcceptRide fault caller accept (at_time w' t) = (Err e, at_time w' t)).
Proof.
  unfold DeclineRide. intros Hrun.
  destruct (offerRepo_GetByID (db w) offerID) as [offer|] eqn:Hget; [|discriminate].
  destruct (negb _) eqn:Hmine; [discriminate|].
  destruct (negb (bool_decide (offer_Status offer = _))) eqn:Hpending; [discriminate|].
  apply negb_false_iff, bool_decide_eq_true in Hmine, Hpending.
  injection Hrun as <-.
  assert (Hafter : offerRepo_GetByID
                     (offerRepo_UpdateStatus (now w) offerID OfferStatusDeclined (db w))
                     offerID
                   = Some (offer_update offer OfferStatusDeclined (Some (now w)))).
  { unfold offerRepo_GetByID, offerRepo_UpdateStatus in *. simpl.
    rewrite sql_get_update by (intros row Hrow; exact Hrow).
    rewrite Hget. reflexivity. }
  exists offer. split; [reflexivity|]. split; [exact Hmine|]. split; [exact Hpending|].
  split; [exact Hafter|]. split; [reflexivity|].
  split.
  - intros t. unfold DeclineRide. simpl. rewrite Hafter. simpl.
    rewrite Hmine, bool_decide_eq_true_2 by reflexivity. reflexivity.
  - intros fault caller accept t Hid.
    destruct (AcceptRide fault caller accept (at_time (with_db w _) t)) as [r w'']
      eqn:Haccept.
    pose proof (AcceptRide_outcome _ _ _ _ _ _ Haccept) as Hout.
    destruct r as [resp|e]; [exfalso|subst w''; eauto].
    destruct Hout as (found & ride & Hfound & _ & _ & _ & Hst & _).
    simpl in Hfound. rewrite Hid, Hafter in Hfound. injection Hfound as <-.
    discriminate Hst.
Qed.

(** X14: a cancelled ride keeps its driver out of matching.  When a ride is
    cancelled after a driver accepted it, the driver is online again in the
    database, but the driver's active-ride key, set at the acceptance, is
    still there: until one hour after the acceptance the matching filters
    drop the driver for every ride. *)
Theorem cancelled_ride_keeps_the_driver_out (fault : nat -> bool) (driverID : string)
  (accept : AcceptRideRequest) (cancel : CancelRideRequest) (w w1 w2 : World)
  (resp : RideResponse) (t1 : Z) :
  accept_RideID accept <> "" ->
  AcceptRide fault driverID accept w = (Ok resp, w1) ->
  CancelRide (accept_RideID accept) cancel (at_time w1 t1) = (None, w2) ->
  option_map driver_Status (driverRepo_GetByID (db w2) driverID) = Some DriverStatusOnline
  /\ forall t ride distance,
       t < now w + Hour ->
       survives (at_time w2 t) ride (mkDriverWithDistance driverID distance) = false.
Proof.
  intros Hnamed Haccept Hcancel.
  pose proof (AcceptRide_outcome _ _ _ _ _ _ Haccept)
    as (offer & ride & _ & _ & _ & _ & _ & Hride & _ & Hdriver & Hdb & Hredis & _).
  apply CancelRide_outcome in Hcancel
    as (found & Hfound & _ & Hfreed & _ & _ & Hsame & _).
  assert (Hassigned : ride_DriverID found = Some driverID).
  { simpl in Hfound. rewrite Hdb in Hfound.
    unfold rideRepo_GetByID, accept_updates in Hfound, Hride. simpl in Hfound.
    rewrite sql_get_update in Hfound by (intros row Hrow; exact Hrow).
    rewrite Hride in Hfound. injection Hfound as <-. reflexivity. }
  split.
  - apply existsb_key in Hdriver.
    apply sql_get_key_Some in Hdriver as [row Hrow].
    assert (Hbusy : exists busy, driverRepo_GetByID (db (at_time w1 t1)) driverID = Some busy).
    { simpl. rewrite Hdb. unfold driverRepo_GetByID, accept_updates. simpl.
      rewrite sql_get_update by (intros r Hr; exact Hr).
      rewrite Hrow. simpl. eauto. }
    destruct Hbusy as [busy Hbusy].
    rewrite (Hfreed driverID busy Hassigned Hbusy). reflexivity.
  - intros t ride' distance Hsoon. unfold survives. simpl.
    destruct (offerRepo_GetByRideAndDriver _ _ _); [reflexivity|].
    destruct (negb (bool_decide (go_index _ _ = _))); [reflexivity|].
    rewrite Hsame. simpl. rewrite Hredis.
    unfold GetActiveRide, SetActiveRide. simpl.
    rewrite lookup_insert_eq.
    destruct (t <? now w + Hour) eqn:Hlt; [|apply Z.ltb_ge in Hlt; lia].
    rewrite bool_decide_eq_false_2 by exact Hnamed. reflexivity.
Qed.

End WithExternals.

(** ** The theorems at work *)

Lemma served_city_is_reachable :
  @reachable (Fixtures.externals Fixtures.two_drivers_nearby) Fixtures.pricing served_city.
Proof.
  pose (E := Fixtures.externals Fixtures.two_drivers_nearby).
  pose (P := Fixtures.pricing).
  unfold served_city. fold E. fold P.
  destruct (CreateRide Fixtures.ride_request "" Fixtures.city) as [created w1] eqn:Hrun.
  assert (Hw1 : reachable w1).
  { replace w1 with (snd (CreateRide Fixtures.ride_request "" Fixtures.city))
      by (rewrite Hrun; reflexivity).
    eapply reachable_step; [|apply step_CreateRide].
    apply reachable_init; reflexivity. }
  destruct created as [ride|e]; [|exact Hw1].
  eapply reachable_step; [|apply step_AcceptRide].
  eapply reachable_step; [exact Hw1|apply step_FindAndOfferDrivers].
Qed.

Lemma served_then_cancelled :
  @steps (Fixtures.externals Fixtures.two_drivers_nearby) Fixtures.pricing
    served_city cancelled_city.
Proof.
  eapply steps_next; [apply steps_refl|]. unfold cancelled_city. apply step_CancelRide.
Qed.


Lemma assigned_driver_never_changes_witness :
  option_map ride_DriverID (rideRepo_GetByID (db cancelled_city) "uuid-0")
  = Some (Some "driver-1").
Proof.
  apply (@assigned_driver_never_changes (Fixtures.externals Fixtures.two_drivers_nearby)
           Fixtures.pricing served_city cancelled_city "uuid-0" "driver-1"
           served_city_is_reachable served_then_cancelled).
  vm_compute. reflexivity.
Defined.

Lemma assigned_ride_is_not_accepted_again_witness :
  let E := Fixtures.externals Fixtures.two_drivers_nearby in
  exists e,
    AcceptRide healthy "driver-2" (mkAcceptRideRequest "uuid-0" "uuid-2") served_city
    = (Err e, served_city).
Proof.
  intros E.
  apply (@assigned_ride_is_not_accepted_again E Fixtures.pricing served_city served_city
           "uuid-0" "driver-1" healthy "driver-2" (mkAcceptRideRequest "uuid-0" "uuid-2")
           served_city_is_reachable (steps_refl _));
    [vm_compute; reflexivity|reflexivity].
Defined.

Lemma CreateRide_replays_the_key_witness :
  let E := Fixtures.externals [] in
  let P := Fixtures.pricing in
  let w' := snd (CreateRide Fixtures.ride_request "key-1" Fixtures.quiet_city) in
  exists stored,
    rideRepo_GetByIdempotencyKey (db w') "key-1" = Some stored
    /\ ride_ID stored = "uuid-0"
    /\ forall req' t, CreateRide req' "key-1" (at_time w' t) = (Ok stored, at_time w' t).
Proof.
  intros E P w'.
  destruct (CreateRide Fixtures.ride_request "key-1" Fixtures.quiet_city)
    as [r w1] eqn:Hfirst.
  destruct r as [ride|e]; [|vm_compute in Hfirst; discriminate].
  assert (Hid : ride_ID ride = "uuid-0").
  { vm_compute in Hfirst. injection Hfirst as <- _. reflexivity. }
  rewrite <- Hid.
  apply (@CreateRide_replays_the_key E P Fixtures.ride_request "key-1"
           Fixtures.quiet_city w' ride); [discriminate|exact Hfirst].
Defined.

Lemma CreateRide_refuses_a_second_active_ride_witness :
  let E := Fixtures.externals Fixtures.two_drivers_nearby in
  let P := Fixtures.pricing in
  CreateRide Fixtures.ride_request "" served_city = (Err UserHasActiveRide, served_city).
Proof.
  intros E P.
  destruct (rides (db served_city)) as [|active rest] eqn:Hrides;
    [vm_compute in Hrides; discriminate|].
  assert (Hactive : ride_UserID active = "user-1" /\ ride_is_active active = true).
  { vm_compute in Hrides. injection Hrides as <- _. split; reflexivity. }
  apply (@CreateRide_refuses_a_second_active_ride E P Fixtures.ride_request ""
           served_city Fixtures.user1 active).
  - left. reflexivity.
  - vm_compute. reflexivity.
  - rewrite Hrides. left. reflexivity.
  - apply Hactive.
  - apply Hactive.
Defined.

Lemma CancelRide_releases_the_driver_witness :
  let req := mkCancelRideRequest "changed my mind" "user" in
  let w := served_city in
  let w' := cancelled_city in
  exists ride,
    rideRepo_GetByID (db w) "uuid-0" = Some ride
    /\ rideRepo_GetByID (db w') "uuid-0"
       = Some (ride_update ride (ride_DriverID ride) RideStatusCancelled
                 (Some (cancel_CancelledBy req)) (Some (cancel_Reason req)) (now w))
    /\ (forall driverID driver,
          ride_DriverID ride = Some driverID ->
          driverRepo_GetByID (db w) driverID = Some driver ->
          driverRepo_GetByID (db w') driverID
          = Some (driver_update driver DriverStatusOnline (driver_TotalTrips driver)
                    (now w)))
    /\ ride_offers (db w') = ride_offers (db w)
    /\ trips (db w') = trips (db w)
    /\ redis w' = redis w
    /\ (forall req' t,
          CancelRide "uuid-0" req' (at_time w' t)
          = (Some (InvalidTransition RideStatusCancelled RideStatusCancelled),
             at_time w' t))
    /\ (forall fault caller accept t,
          accept_RideID accept = "uuid-0" ->
          exists e,
            AcceptRide fault caller accept (at_time w' t) = (Err e, at_time w' t)).
Proof.
  intros req w w'.
  apply (CancelRide_releases_the_driver "uuid-0" req w w').
  vm_compute. reflexivity.
Defined.

Lemma DeclineRide_is_final_witness :
  let w := Fixtures.offers_out (1015 * Second) in
  let w' := snd (DeclineRide "driver-2" "offer-2" w) in
  exists offer,
    offerRepo_GetByID (db w) "offer-2" = Some offer
    /\ offer_DriverID offer = "driver-2"
    /\ offer_Status offer = OfferStatusPending
    /\ offerRepo_GetByID (db w') "offer-2"
       = Some (offer_update offer OfferStatusDeclined (Some (now w)))
    /\ rides (db w') = rides (db w)
    /\ (forall t,
          DeclineRide "driver-2" "offer-2" (at_time w' t)
          = (Some (BadRequest "offer already responded"), at_time w' t))
    /\ (forall fault caller accept t,
          accept_OfferID accept = "offer-2" ->
          exists e,
            AcceptRide fault caller accept (at_time w' t) = (Err e, at_time w' t)).
Proof.
  intros w w'.
  apply (DeclineRide_is_final "driver-2" "offer-2" w w').
  vm_compute. reflexivity.
Defined.

Lemma cancelled_ride_keeps_the_driver_out_witness :
  let w := Fixtures.offers_out (1015 * Second) in
  let w1 := snd (AcceptRide healthy "driver-1" Fixtures.accept_offer_1 w) in
  let w2 := snd (CancelRide "ride-1" (mkCancelRideRequest "no show" "driver")
                   (at_time w1 (1300 * Second))) in
  option_map driver_Status (driverRepo_GetByID (db w2) "driver-1")
  = Some DriverStatusOnline
  /\ forall t ride distance,
       t < now w + Hour ->
       survives (at_time w2 t) ride (mkDriverWithDistance "driver-1" distance) = false.
Proof.
  intros w w1 w2.
  eapply (cancelled_ride_keeps_the_driver_out healthy "driver-1" Fixtures.accept_offer_1
            (mkCancelRideRequest "no show" "driver") w w1 w2 _ (1300 * Second)).
  - discriminate.
  - vm_compute. reflexivity.
  - vm_compute. reflexivity.
Defined.

End DispatchProps.

(* ===================================================================== *)
(** * Properties of driver registration, presence and offers *)
(* ===================================================================== *)

Module FleetProps.
Import Errors Models Store Cache Pricing GoNum Service System TripLifecycle Fleet.
Import RideProps OfferProps InvariantProps MatchingProps.
Import LifecycleProps DispatchProps.

(** ** Who gets an offer *)

Lemma survives_inv (w : World) (ride : Ride) (d : DriverWithDistance) :
  survives w ride d = true ->
  offerRepo_GetByRideAndDriver (db w) (ride_ID ride) (dwd_DriverID d) = None
  /\ go_index (GetDriverMeta (redis w) (dwd_DriverID d)) "status" = DriverStatusOnline
  /\ GetActiveRide (now w) (redis w) (dwd_DriverID d) = "".
Proof.
  unfold survives.
  destruct (offerRepo_GetByRideAndDriver _ _ _); [discriminate|].
  destruct (bool_decide (go_index _ _ = _)) eqn:Honline; [|discriminate].
  destruct (bool_decide (GetActiveRide _ _ _ = "")) eqn:Hidle; [|discriminate].
  apply bool_decide_eq_true in Honline, Hidle. auto.
Qed.

Lemma in_firstn {A} (n : nat) (l : list A) (x : A) : In x (firstn n l) -> In x l.
Proof.
  revert l. induction n as [|n IH]; intros [|y l]; simpl; try tauto.
  intros [->|Hin]; auto.
Qed.

Section WithExternals.
Context `{Externals}.

(** Every driver [scoreDrivers] returns passed the filters. *)
Lemma scored_driver_survived (w : World) (drivers : list DriverWithDistance)
  (ride : Ride) (driverID : string) :
  In driverID (List.map sd_DriverID (scoreDrivers w drivers ride)) ->
  exists d, In d drivers /\ dwd_DriverID d = driverID /\ survives w ride d = true.
Proof.
  intros Hin. apply in_map_iff in Hin as (s & <- & Hs).
  apply (Permutation_in _ (scoreDrivers_perm w drivers ride)) in Hs.
  apply in_map_iff in Hs as (d & <- & Hd).
  apply List.filter_In in Hd as [Hd Hsurvives].
  exists d. auto.
Qed.

Lemma new_offers_are_eligible (ride : Ride) (w : World) (o : RideOffer) :
  In o (ride_offers (db (snd (FindAndOfferDrivers ride w)))) ->
  In o (ride_offers (db w))
  \/ (offer_RideID o = ride_ID ride
      /\ offer_Status o = OfferStatusPending
      /\ offer_ExpiresAt o = now w + 15 * Second
      /\ offerRepo_GetByRideAndDriver (db w) (ride_ID ride) (offer_DriverID o) = None
      /\ go_index (GetDriverMeta (redis w) (offer_DriverID o)) "status"
         = DriverStatusOnline
      /\ GetActiveRide (now w) (redis w) (offer_DriverID o) = "").
Proof.
  unfold FindAndOfferDrivers.
  destruct (_ && _); [simpl; auto|].
  destruct (length (scoreDrivers w (candidates ride w) ride) =? 0)%nat; [simpl; auto|].
  simpl.
  set (chosen := firstn _ _).
  destruct (offer_loop ride chosen w) as (_ & _ & _ & new & -> & _ & Hnew).
  intros Hin. apply in_app_or in Hin as [Hold|Hin]; [left; exact Hold|right].
  rewrite List.Forall_forall in Hnew.
  destruct (Hnew o Hin) as (Hst & Hexp & Hride & Hdriver).
  assert (Hscored : In (offer_DriverID o)
                      (List.map sd_DriverID (scoreDrivers w (candidates ride w) ride))).
  { apply in_map_iff in Hdriver as (s & Hs & Hchosen).
    apply in_map_iff. exists s. split; [exact Hs|].
    unfold chosen in Hchosen. eapply in_firstn. exact Hchosen. }
  apply scored_driver_survived in Hscored as (d & _ & <- & Hsurvives).
  apply survives_inv in Hsurvives as (Hnone & Honline & Hidle).
  auto 10.
Qed.

(** X15: who gets an offer.  Every offer [FindAndOfferDrivers] adds is a
    pending offer of the ride, expiring in fifteen seconds, to a driver the
    presence cache has as [online], who has no active-ride key and had no
    offer of this ride before. *)
Theorem offers_go_to_eligible_drivers (ride : Ride) (w : World) (o : RideOffer) :
  In o (ride_offers (db (snd (FindAndOfferDrivers ride w)))) ->
  In o (ride_offers (db w))
  \/ (offer_RideID o = ride_ID ride
      /\ offer_Status o = OfferStatusPending
      /\ offer_ExpiresAt o = now w + 15 * Second
      /\ offerRepo_GetByRideAndDriver (db w) (ride_ID ride) (offer_DriverID o) = None
      /\ go_index (GetDriverMeta (redis w) (offer_DriverID o)) "status"
         = DriverStatusOnline
      /\ GetActiveRide (now w) (redis w) (offer_DriverID o) = "").
Proof. apply new_offers_are_eligible. Qed.

(** ** Registration *)

(** X16: what registering a driver gives.  The driver starts offline, rated
    5.0, with no trips, whatever the request says; the stored row is the
    returned one and is found by id and by phone; and the phone number is
    taken from then on: a further registration under it is refused as a
    conflict and changes nothing. *)
Theorem CreateDriver_registers (req : CreateDriverRequest) (w w' : World)
  (driver : Driver) :
  CreateDriver req w = (Ok driver, w') ->
  driver_Status driver = DriverStatusOffline
  /\ driver_Rating driver = 5.0%float
  /\ driver_TotalTrips driver = 0
  /\ driver_Phone driver = new_Phone req
  /\ driver_ID driver = uuid_New (uuids w)
  /\ driverRepo_GetByID (db w') (driver_ID driver) = Some driver
  /\ driverRepo_GetByPhone (db w') (new_Phone req) = Some driver
  /\ forall req' t,
       new_Phone req' = new_Phone req ->
       CreateDriver req' (at_time w' t)
       = (Err (Conflict "driver with this phone already exists"), at_time w' t).
Proof.
  unfold CreateDriver. intros Hrun.
  destruct (driverRepo_GetByPhone (db w) (new_Phone req)); [discriminate|].
  match type of Hrun with context [driverRepo_Create ?n ?f ?d ?b] =>
    destruct (driverRepo_Create n f d b) as [created res] eqn:Hcreate end.
  destruct res as [db1|e]; [|discriminate].
  injection Hrun as <- <-.
  unfold driverRepo_Create in Hcreate. cbv zeta in Hcreate.
  destruct (has_driver _ _) eqn:Hpk in Hcreate; [discriminate|].
  destruct (existsb _ (drivers (db w))) eqn:Hphone in Hcreate; [discriminate|].
  injection Hcreate as <- <-. simpl in Hpk, Hphone.
  assert (Hfound : driverRepo_GetByPhone
                     (with_drivers (db w)
                        (drivers (db w)
                         ++ [mkDriver (uuid_New (uuids w)) (new_Phone req) (new_Name req)
                               (if decide (new_Email req = "") then None
                                else Some (new_Email req))
                               (new_LicenseNumber req) (new_VehicleType req)
                               (new_VehicleNumber req) DriverStatusOffline 5.0%float 0
                               None None (now w) (now w)])%list)
                     (new_Phone req)
                   = Some (mkDriver (uuid_New (uuids w)) (new_Phone req) (new_Name req)
                             (if decide (new_Email req = "") then None
                              else Some (new_Email req))
                             (new_LicenseNumber req) (new_VehicleType req)
                             (new_VehicleNumber req) DriverStatusOffline 5.0%float 0
                             None None (now w) (now w))).
  { unfold driverRepo_GetByPhone. simpl.
    apply sql_get_app_new; [exact Hphone|].
    apply bool_decide_eq_true. reflexivity. }
  repeat (split; [reflexivity|]).
  split.
  { unfold driverRepo_GetByID. simpl.
    apply sql_get_app_new; [exact Hpk|].
    apply bool_decide_eq_true. reflexivity. }
  split; [exact Hfound|].
  intros req' t Hsame. unfold CreateDriver.
  cbn [db at_time next_uuid with_db]. rewrite Hsame, Hfound. reflexivity.
Qed.

(** ** Presence *)

Lemma meta_status_after_SetDriverMeta (fmt : float -> string) (r : Redis)
  (driverID status vehicleType : string) (rating : float) :
  go_index (GetDriverMeta (SetDriverMeta fmt r driverID status vehicleType rating) driverID)
    "status" = status.
Proof.
  unfold go_index, GetDriverMeta, SetDriverMeta. simpl.
  rewrite lookup_insert_eq. simpl. rewrite lookup_insert_eq. reflexivity.
Qed.

(** X17: going online makes a driver eligible.  The driver is online in the
    database and in the presence cache, whatever the status before (a busy
    driver included); the matching filters then let the driver through for
    every ride not yet offered to the driver, unless an active-ride key is
    set. *)
Theorem GoOnline_makes_eligible (fmt : float -> string) (driverID : string)
  (w w' : World) :
  GoOnline fmt driverID w = (None, w') ->
  option_map driver_Status (driverRepo_GetByID (db w') driverID) = Some DriverStatusOnline
  /\ go_index (GetDriverMeta (redis w') driverID) "status" = DriverStatusOnline
  /\ rides (db w') = rides (db w)
  /\ ride_offers (db w') = ride_offers (db w)
  /\ forall ride distance,
       offerRepo_GetByRideAndDriver (db w') (ride_ID ride) driverID = None ->
       GetActiveRide (now w') (redis w') driverID = "" ->
       survives w' ride (mkDriverWithDistance driverID distance) = true.
Proof.
  unfold GoOnline. intros Hrun.
  destruct (driverRepo_GetByID (db w) driverID) as [driver|] eqn:Hget; [|discriminate].
  injection Hrun as <-.
  assert (Hmeta : go_index (GetDriverMeta
                              (SetDriverMeta fmt (redis w) driverID DriverStatusOnline
                                 (driver_VehicleType driver) (driver_Rating driver))
                              driverID) "status" = DriverStatusOnline)
    by apply meta_status_after_SetDriverMeta.
  split.
  { unfold driverRepo_GetByID in *. simpl.
    rewrite sql_get_update by (intros row Hrow; exact Hrow).
    rewrite Hget. reflexivity. }
  split; [exact Hmeta|]. split; [reflexivity|]. split; [reflexivity|].
  intros ride distance Hnone Hidle. unfold survives.
  cbn [dwd_DriverID]. rewrite Hnone. cbn [redis with_redis with_db].
  rewrite Hmeta. cbn [redis with_redis with_db] in Hidle.
  cbn [now with_redis with_db] in *. rewrite Hidle. reflexivity.
Qed.

(** X18: a driver with an active ride cannot go offline.  While a ride that is
    neither completed nor cancelled has the driver, [GoOffline] is refused
    and changes nothing. *)
Theorem GoOffline_needs_no_active_ride (fmt : float -> string) (driverID : string)
  (w : World) (driver : Driver) (ride : Ride) :
  driverRepo_GetByID (db w) driverID = Some driver ->
  In ride (rides (db w)) ->
  ride_DriverID ride = Some driverID ->
  ride_is_active ride = true ->
  GoOffline fmt driverID w = (Some (BadRequest "cannot go offline with active ride"), w).
Proof.
  intros Hget Hin Hdriver Hactive. unfold GoOffline. rewrite Hget.
  destruct (rideRepo_GetActiveRideByDriverID (db w) driverID) eqn:Hfound; [reflexivity|].
  unfold rideRepo_GetActiveRideByDriverID in Hfound.
  apply (proj1 (latest_ride_None _ _)) with (r := ride) in Hfound; [|exact Hin].
  rewrite Hactive, bool_decide_eq_true_2 in Hfound by exact Hdriver. discriminate.
Qed.

(** X19: an offline driver gets no offer.  After [GoOffline] the driver is
    offline in the database and in the presence cache, and whatever the
    spatial index answers, [FindAndOfferDrivers] adds no offer to the driver,
    for any ride, at any time, as long as the presence cache stays as it
    is. *)
Theorem GoOffline_stops_offers (fmt : float -> string) (driverID : string)
  (w w' : World) :
  GoOffline fmt driverID w = (None, w') ->
  option_map driver_Status (driverRepo_GetByID (db w') driverID) = Some DriverStatusOffline
  /\ go_index (GetDriverMeta (redis w') driverID) "status" = DriverStatusOffline
  /\ forall ride t o,
       In o (ride_offers (db (snd (FindAndOfferDrivers ride (at_time w' t))))) ->
       In o (ride_offers (db w')) \/ offer_DriverID o <> driverID.
Proof.
  unfold GoOffline. intros Hrun.
  destruct (driverRepo_GetByID (db w) driverID) as [driver|] eqn:Hget; [|discriminate].
  destruct (rideRepo_GetActiveRideByDriverID (db w) driverID); [discriminate|].
  injection Hrun as <-.
  assert (Hmeta : go_index (GetDriverMeta
                              (SetDriverMeta fmt (redis w) driverID DriverStatusOffline
                                 (driver_VehicleType driver) (driver_Rating driver))
                              driverID) "status" = DriverStatusOffline)
    by apply meta_status_after_SetDriverMeta.
  split.
  { unfold driverRepo_GetByID in *. simpl.
    rewrite sql_get_update by (intros row Hrow; exact Hrow).
    rewrite Hget. reflexivity. }
  split; [exact Hmeta|].
  intros ride t o Hin.
  apply new_offers_are_eligible in Hin as [Hold|(_ & _ & _ & _ & Honline & _)];
    [left; exact Hold|right].
  intros Hsame. rewrite Hsame in Honline.
  cbn [redis at_time with_redis with_db] in Honline.
  rewrite Hmeta in Honline. discriminate.
Qed.

(** ** Pending offers *)

Lemma insert_desc_perm {A} (key : A -> Z) (x : A) (l : list A) :
  Permutation (insert_desc key x l) (x :: l).
Proof.
  induction l as [|y l IH]; simpl; [reflexivity|].
  destruct (key x <? key y); [|reflexivity].
  rewrite IH. apply perm_swap.
Qed.

Lemma order_by_desc_perm {A} (key : A -> Z) (t : list A) :
  Permutation (order_by_desc key t) t.
Proof.
  unfold order_by_desc. induction t as [|x t IH]; simpl; [reflexivity|].
  rewrite insert_desc_perm. apply perm_skip. exact IH.
Qed.

Lemma insert_desc_sorted {A} (key : A -> Z) (x : A) (l : list A) :
  Sorted (fun a b => key b <= key a) l ->
  Sorted (fun a b => key b <= key a) (insert_desc key x l).
Proof.
  induction 1 as [|y l Hl IH Hy]; simpl; [repeat constructor|].
  destruct (key x <? key y) eqn:Hlt.
  - apply Z.ltb_lt in Hlt. constructor; [exact IH|].
    destruct l as [|z l]; simpl; [constructor; lia|].
    destruct (key x <? key z); constructor; [|lia].
    inversion Hy; assumption.
  - apply Z.ltb_ge in Hlt. repeat constructor; assumption.
Qed.

Lemma order_by_desc_sorted {A} (key : A -> Z) (t : list A) :
  Sorted (fun a b => key b <= key a) (order_by_desc key t).
Proof.
  unfold order_by_desc. induction t as [|x t IH]; simpl; [constructor|].
  apply insert_desc_sorted. exact IH.
Qed.

Lemma pending_offer_listed (d : DB) (t : Z) (driverID : string) (o : RideOffer) :
  In o (offerRepo_GetPendingByDriverID d t driverID)
  <-> In o (ride_offers d)
      /\ offer_DriverID o = driverID
      /\ offer_Status o = OfferStatusPending
      /\ t < offer_ExpiresAt o.
Proof.
  unfold offerRepo_GetPendingByDriverID. split.
  - intros Hin. apply (Permutation_in _ (order_by_desc_perm _ _)) in Hin.
    apply List.filter_In in Hin as [Hin Hcond].
    apply andb_true_iff in Hcond as [Hcond Hlive].
    apply andb_true_iff in Hcond as [Hdriver Hpending].
    apply bool_decide_eq_true in Hdriver, Hpending. apply Z.ltb_lt in Hlive. auto.
  - intros (Hin & Hdriver & Hpending & Hlive).
    apply (Permutation_in _ (Permutation_sym (order_by_desc_perm _ _))).
    apply List.filter_In. split; [exact Hin|].
    rewrite !bool_decide_eq_true_2 by assumption.
    apply Z.ltb_lt in Hlive. rewrite Hlive. reflexivity.
Qed.

Lemma GetPendingOffers_rows (driverID : string) (w : World) :
  GetPendingOffers driverID w
  = List.map
      (fun o =>
         mkRideOfferResponse (offer_ID o) (offer_RideID o) (offer_Status o)
           (offer_ExpiresAt o)
           (option_map (fun ride => mkRideResponse ride None None)
              (rideRepo_GetByID (db w) (offer_RideID o))))
      (offerRepo_GetPendingByDriverID (db w) (now w) driverID).
Proof.
  unfold GetPendingOffers. apply List.map_ext. intros o.
  destruct (rideRepo_GetByID (db w) (offer_RideID o)); reflexivity.
Qed.

(** X20: what a driver is shown.  [GetPendingOffers] shows exactly the
    driver's offers that are pending and expire after now, each with its
    ride, the latest offer first; every offer shown passes the expiry check
    of [AcceptRide] at that instant. *)
Theorem GetPendingOffers_shows_live_offers (driverID : string) (w : World) :
  (forall shown,
      In shown (GetPendingOffers driverID w)
      <-> exists o,
            In o (ride_offers (db w))
            /\ offer_DriverID o = driverID
            /\ offer_Status o = OfferStatusPending
            /\ now w < offer_ExpiresAt o
            /\ IsExpired (now w) o = false
            /\ shown = mkRideOfferResponse (offer_ID o) (offer_RideID o) OfferStatusPending
                         (offer_ExpiresAt o)
                         (option_map (fun ride => mkRideResponse ride None None)
                            (rideRepo_GetByID (db w) (offer_RideID o))))
  /\ List.map ror_ID (GetPendingOffers driverID w)
     = List.map offer_ID (offerRepo_GetPendingByDriverID (db w) (now w) driverID)
  /\ Sorted (fun a b => offer_OfferedAt b <= offer_OfferedAt a)
       (offerRepo_GetPendingByDriverID (db w) (now w) driverID).
Proof.
  split; [|split].
  - intros shown. rewrite GetPendingOffers_rows, in_map_iff. split.
    + intros (o & <- & Hin).
      apply pending_offer_listed in Hin as (Hin & Hdriver & Hpending & Hlive).
      exists o. rewrite Hpending. repeat split; try assumption.
      unfold IsExpired. apply Z.ltb_ge. lia.
    + intros (o & Hin & Hdriver & Hpending & Hlive & _ & ->).
      exists o. rewrite Hpending. split; [reflexivity|].
      apply pending_offer_listed. auto.
  - rewrite GetPendingOffers_rows, List.map_map. reflexivity.
  - apply order_by_desc_sorted.
Qed.

(** X21: an accepted ride is offered no more.  After a successful
    [AcceptRide] no offer of the ride is pending, so no driver is shown one,
    at any time. *)
Theorem accepted_ride_is_offered_no_more (fault : nat -> bool) (driverID : string)
  (req : AcceptRideRequest) (w w' : World) (resp : RideResponse) :
  AcceptRide fault driverID req w = (Ok resp, w') ->
  (forall o, In o (ride_offers (db w')) -> offer_RideID o = accept_RideID req ->
             offer_Status o <> OfferStatusPending)
  /\ forall other t shown,
       In shown (GetPendingOffers other (at_time w' t)) ->
       ror_RideID shown <> accept_RideID req.
Proof.
  intros Hrun.
  pose proof (AcceptRide_outcome _ _ _ _ _ _ Hrun)
    as (offer & ride & _ & _ & _ & _ & _ & _ & _ & _ & Hdb & _).
  assert (Hnone : forall o, In o (ride_offers (db w')) ->
                            offer_RideID o = accept_RideID req ->
                            offer_Status o <> OfferStatusPending).
  { intros o Hin. rewrite Hdb in Hin. unfold accept_updates in Hin. simpl in Hin.
    apply in_sql_update in Hin as (o1 & _ & ->).
    destruct (bool_decide (offer_RideID o1 = accept_RideID req)
              && bool_decide (offer_Status o1 = OfferStatusPending)) eqn:Hcond.
    - intros _. discriminate.
    - intros Hride Hpending.
      rewrite !bool_decide_eq_true_2 in Hcond by assumption. discriminate. }
  split; [exact Hnone|].
  intros other t shown Hin Hride. rewrite GetPendingOffers_rows in Hin.
  apply in_map_iff in Hin as (o & <- & Hin). simpl in Hride.
  apply pending_offer_listed in Hin as (Hin & _ & Hpending & _).
  exact (Hnone o Hin Hride Hpending).
Qed.

End WithExternals.

(** ** The theorems at work *)

Lemma offers_go_to_eligible_drivers_witness :
  let E := Fixtures.externals Fixtures.stale_index in
  let w := Fixtures.stale_cache in
  let ride := Fixtures.ride "ride-1" "matching" None in
  let o := mkRideOffer "uuid-1" "ride-1" "driver-1" "pending" (1000 * Second) None
             (1015 * Second) in
  In o (ride_offers (db w))
  \/ (offer_RideID o = ride_ID ride
      /\ offer_Status o = OfferStatusPending
      /\ offer_ExpiresAt o = now w + 15 * Second
      /\ offerRepo_GetByRideAndDriver (db w) (ride_ID ride) (offer_DriverID o) = None
      /\ go_index (GetDriverMeta (redis w) (offer_DriverID o)) "status"
         = DriverStatusOnline
      /\ GetActiveRide (now w) (redis w) (offer_DriverID o) = "").
Proof.
  intros E w ride o.
  apply (@offers_go_to_eligible_drivers E ride w o).
  vm_compute. left. reflexivity.
Defined.

Definition new_driver : CreateDriverRequest :=
  mkCreateDriverRequest "9800000009" "Ravi" "" "KA-09" "sedan" "KA09XY0009".

Lemma CreateDriver_registers_witness :
  let E := Fixtures.externals [] in
  let w := Fixtures.quiet_city in
  let driver := mkDriver "uuid-0" "9800000009" "Ravi" None "KA-09" "sedan" "KA09XY0009"
                  "offline" 5.0 0 None None (now w) (now w) in
  let w' := snd (CreateDriver new_driver w) in
  driver_Status driver = DriverStatusOffline
  /\ driver_Rating driver = 5.0%float
  /\ driver_TotalTrips driver = 0
  /\ driver_Phone driver = new_Phone new_driver
  /\ driver_ID driver = uuid_New (uuids w)
  /\ driverRepo_GetByID (db w') (driver_ID driver) = Some driver
  /\ driverRepo_GetByPhone (db w') (new_Phone new_driver) = Some driver
  /\ forall req' t,
       new_Phone req' = new_Phone new_driver ->
       CreateDriver req' (at_time w' t)
       = (Err (Conflict "driver with this phone already exists"), at_time w' t).
Proof.
  intros E w driver w'.
  apply (@CreateDriver_registers E new_driver w w' driver).
  vm_compute. reflexivity.
Defined.

Lemma GoOnline_makes_eligible_witness :
  let fmt : float -> string := fun _ => "5.0" in
  let w := Fixtures.city in
  let w' := snd (GoOnline fmt "driver-1" w) in
  option_map driver_Status (driverRepo_GetByID (db w') "driver-1") = Some DriverStatusOnline
  /\ go_index (GetDriverMeta (redis w') "driver-1") "status" = DriverStatusOnline
  /\ rides (db w') = rides (db w)
  /\ ride_offers (db w') = ride_offers (db w)
  /\ forall ride distance,
       offerRepo_GetByRideAndDriver (db w') (ride_ID ride) "driver-1" = None ->
       GetActiveRide (now w') (redis w') "driver-1" = "" ->
       survives w' ride (mkDriverWithDistance "driver-1" distance) = true.
Proof.
  intros fmt w w'.
  apply (GoOnline_makes_eligible fmt "driver-1" w w').
  vm_compute. reflexivity.
Defined.

Lemma GoOffline_needs_no_active_ride_witness :
  GoOffline (fun _ => "5.0") "driver-1" served_city
  = (Some (BadRequest "cannot go offline with active ride"), served_city).
Proof.
  destruct (rides (db served_city)) as [|ride rest] eqn:Hrides;
    [vm_compute in Hrides; discriminate|].
  assert (Hride : ride_DriverID ride = Some "driver-1" /\ ride_is_active ride = true).
  { vm_compute in Hrides. injection Hrides as <- _. split; reflexivity. }
  destruct (driverRepo_GetByID (db served_city) "driver-1") as [driver|] eqn:Hdriver;
    [|vm_compute in Hdriver; discriminate].
  apply (GoOffline_needs_no_active_ride (fun _ => "5.0") "driver-1" served_city driver ride).
  - exact Hdriver.
  - rewrite Hrides. left. reflexivity.
  - apply Hride.
  - apply Hride.
Defined.

Lemma GoOffline_stops_offers_witness :
  let E := Fixtures.externals Fixtures.two_drivers_nearby in
  let w := Fixtures.city in
  let w' := snd (GoOffline (fun _ => "4.0") "driver-2" w) in
  option_map driver_Status (driverRepo_GetByID (db w') "driver-2")
  = Some DriverStatusOffline
  /\ go_index (GetDriverMeta (redis w') "driver-2") "status" = DriverStatusOffline
  /\ forall ride t o,
       In o (ride_offers (db (snd (FindAndOfferDrivers ride (at_time w' t))))) ->
       In o (ride_offers (db w')) \/ offer_DriverID o <> "driver-2".
Proof.
  intros E w w'.
  apply (@GoOffline_stops_offers E (fun _ => "4.0") "driver-2" w w').
  vm_compute. reflexivity.
Defined.

Lemma accepted_ride_is_offered_no_more_witness :
  let w := Fixtures.offers_out (1015 * Second) in
  let w' := snd (AcceptRide healthy "driver-1" Fixtures.accept_offer_1 w) in
  (forall o, In o (ride_offers (db w')) -> offer_RideID o = "ride-1" ->
             offer_Status o <> OfferStatusPending)
  /\ forall other t shown,
       In shown (GetPendingOffers other (at_time w' t)) ->
       ror_RideID shown <> "ride-1".
Proof.
  intros w w'.
  eapply (accepted_ride_is_offered_no_more healthy "driver-1" Fixtures.accept_offer_1
            w w' _).
  vm_compute. reflexivity.
Defined.

(** Driver 2 of [Fixtures.offers_out] is shown the one offer; once driver 1
    has accepted the ride, nothing. *)
Example pending_offers_before_and_after :
  let w := Fixtures.offers_out (1015 * Second) in
  List.map (fun shown => (ror_ID shown, ror_RideID shown, ror_Status shown))
    (GetPendingOffers "driver-2" w)
  = [("offer-2", "ride-1", "pending")]
  /\ GetPendingOffers "driver-2"
       (snd (AcceptRide healthy "driver-1" Fixtures.accept_offer_1 w)) = []
  /\ GetPendingOffers "driver-2" (at_time w (1015 * Second)) = [].
Proof. vm_compute. repeat split; reflexivity. Qed.

End FleetProps.

(* ===================================================================== *)
(** * Properties of the payment service *)
(* ===================================================================== *)

Module PaymentProps.
Import Errors Models Store Cache Service TripLifecycle Payments.
Import RideProps OfferProps InvariantProps LifecycleProps.

(** The ledger at a later instant. *)
Definition later (l : Ledger) (t : Z) : Ledger := with_world l (at_time (world l) t).

(** The methods the service knows. *)
Definition known_method (m : string) : Prop :=
  m = PaymentMethodCash \/ m = PaymentMethodWallet
  \/ m = PaymentMethodCard \/ m = PaymentMethodUPI.

(** A row as an update of the status leaves it. *)
Definition settled (p : Payment) (status : string) (txn : option string)
  (doc : PSPDocument) (now : Z) : Payment :=
  mkPayment (pay_ID p) (pay_TripID p) (pay_UserID p) (pay_DriverID p)
    (pay_Amount p) (pay_Currency p) (pay_Method p) status txn (Some doc)
    (pay_IdempotencyKey p) (pay_CreatedAt p) now.

(** ** The repository *)

Lemma payment_lookup_update (now : Z) (id status : string) (txn : option string)
  (doc : PSPDocument) (t : list Payment) (p : Payment) :
  paymentRepo_GetByID t id = Some p ->
  paymentRepo_GetByID (paymentRepo_UpdateStatus now id status txn doc t) id
  = Some (settled p status txn doc now).
Proof.
  intros Hget. unfold paymentRepo_GetByID, paymentRepo_UpdateStatus in *.
  rewrite sql_get_update by (intros row Hrow; exact Hrow).
  rewrite Hget. reflexivity.
Qed.

(** One step of [ORDER BY created_at DESC LIMIT 1]. *)
Definition later_of (tripID : string) (best : option Payment) (p : Payment)
  : option Payment :=
  if bool_decide (pay_TripID p = tripID) then
    match best with
    | Some b => if pay_CreatedAt b <? pay_CreatedAt p then Some p else best
    | None => Some p
    end
  else best.

Lemma latest_payment_from (tripID : string) (t : list Payment) (start : option Payment)
  (b : Payment) :
  fold_left (later_of tripID) t start = Some b ->
  start = Some b \/ (In b t /\ pay_TripID b = tripID).
Proof.
  revert start. induction t as [|x t IH]; simpl; intros start Hfold; [auto|].
  apply IH in Hfold as [Hstep|[Hin Htrip]]; [|auto].
  unfold later_of in Hstep.
  destruct (bool_decide (pay_TripID x = tripID)) eqn:Hx; [|auto].
  apply bool_decide_eq_true in Hx.
  destruct start as [b0|].
  - destruct (pay_CreatedAt b0 <? pay_CreatedAt x); [|auto].
    injection Hstep as <-. auto.
  - injection Hstep as <-. auto.
Qed.

(** The latest payment of a trip, when a row later than all the others of
    the trip is appended. *)
Lemma latest_payment_appended (t : list Payment) (row : Payment) (tripID : string) :
  pay_TripID row = tripID ->
  (forall p, In p t -> pay_TripID p = tripID -> pay_CreatedAt p < pay_CreatedAt row) ->
  paymentRepo_GetByTripID (t ++ [row]) tripID = Some row.
Proof.
  intros Htrip Hearlier. unfold paymentRepo_GetByTripID.
  change (fold_left (later_of tripID) (t ++ [row]) None = Some row).
  rewrite fold_left_app. simpl. unfold later_of at 1.
  rewrite bool_decide_eq_true_2 by exact Htrip.
  destruct (fold_left (later_of tripID) t None) as [b|] eqn:Hbest; [|reflexivity].
  apply latest_payment_from in Hbest as [Hbest|[Hin Hb]]; [discriminate|].
  specialize (Hearlier b Hin Hb). apply Z.ltb_lt in Hearlier.
  rewrite Hearlier. reflexivity.
Qed.

(** Updates that keep the trip and the time of creation commute with the
    choice of the latest payment. *)
Lemma latest_payment_updated (f : Payment -> Payment) (t : list Payment) (tripID : string) :
  (forall p, pay_TripID (f p) = pay_TripID p) ->
  (forall p, pay_CreatedAt (f p) = pay_CreatedAt p) ->
  paymentRepo_GetByTripID (List.map f t) tripID
  = option_map f (paymentRepo_GetByTripID t tripID).
Proof.
  intros Htrip Hcreated. unfold paymentRepo_GetByTripID.
  change (fold_left (later_of tripID) (List.map f t) (option_map f None)
          = option_map f (fold_left (later_of tripID) t None)).
  generalize (@None Payment).
  induction t as [|x t IH]; intros start; simpl; [reflexivity|].
  rewrite <- IH. f_equal. unfold later_of. rewrite Htrip.
  destruct (bool_decide (pay_TripID x = tripID)); [|reflexivity].
  destruct start as [b|]; simpl; [|reflexivity].
  rewrite !Hcreated. destruct (pay_CreatedAt b <? pay_CreatedAt x); reflexivity.
Qed.

Section WithExternals.
Context `{Externals}.

(** ** A charge *)

(** What [ProcessPayment] has done when it answers with a receipt and the
    [payments] table is not the one before. *)
Lemma ProcessPayment_charge (req : CreatePaymentRequest) (l l' : Ledger)
  (receipt : PaymentResponse) :
  ProcessPayment req l = (Ok receipt, l') ->
  payments l' <> payments l ->
  exists trip fare txn doc,
    (if decide (charge_IdempotencyKey req = "") then None
     else paymentRepo_GetByIdempotencyKey (payments l) (charge_IdempotencyKey req)) = None
    /\ tripRepo_GetByID (db (world l)) (charge_TripID req) = Some trip
    /\ trip_Status trip = TripStatusCompleted
    /\ trip_TotalFare trip = Some fare
    /\ known_method (charge_Method req)
    /\ existsb (fun p => bool_decide (pay_ID p = uuid_New (uuids (world l)))) (payments l)
       = false
    /\ (charge_IdempotencyKey req <> "" ->
        existsb (fun p => bool_decide (pay_IdempotencyKey p
                                       = Some (charge_IdempotencyKey req)))
          (payments l) = false)
    /\ l' = mkLedger (next_uuid (next_uuid (world l)))
              (paymentRepo_UpdateStatus (now (world l)) (uuid_New (uuids (world l)))
                 PaymentStatusCompleted (Some txn) doc
                 (payments l
                  ++ [mkPayment (uuid_New (uuids (world l))) (trip_ID trip)
                        (trip_UserID trip) (trip_DriverID trip) fare "INR"
                        (charge_Method req) PaymentStatusPending None None
                        (if decide (charge_IdempotencyKey req = "") then None
                         else Some (charge_IdempotencyKey req))
                        (now (world l)) (now (world l))])%list)
    /\ receipt = mkPaymentResponse (uuid_New (uuids (world l))) (trip_ID trip) fare "INR"
                   (charge_Method req) PaymentStatusCompleted (Some txn).
Proof.
  unfold ProcessPayment. intros Hrun Hchanged.
  destruct (if decide (charge_IdempotencyKey req = "") then None else _) as [existing|]
    eqn:Hkey.
  { injection Hrun as _ <-. contradiction. }
  destruct (tripRepo_GetByID (db (world l)) (charge_TripID req)) as [trip|] eqn:Htrip;
    [|discriminate].
  destruct (negb _) eqn:Hdone; [discriminate|].
  apply negb_false_iff, bool_decide_eq_true in Hdone.
  destruct (trip_TotalFare trip) as [fare|] eqn:Hfare; [|discriminate].
  destruct (match paymentRepo_GetByTripID _ _ with Some _ => _ | None => None end)
    as [paid|].
  { injection Hrun as _ <-. contradiction. }
  match type of Hrun with context [paymentRepo_Create ?n ?f ?p ?d ?t] =>
    destruct (paymentRepo_Create n f p d t) as [created res] eqn:Hcreate end.
  destruct res as [t1|e]; [|discriminate].
  unfold paymentRepo_Create in Hcreate. cbv zeta in Hcreate.
  cbn [pay_ID pay_Currency pay_TripID pay_UserID pay_DriverID pay_Amount pay_Method
       pay_PSPTransactionID pay_PSPResponse pay_IdempotencyKey] in Hcreate.
  destruct (existsb _ (payments l)) eqn:Hpk in Hcreate; [discriminate|].
  destruct (negb (has_trip _ _)) in Hcreate; [discriminate|].
  destruct (negb (has_user _ _)) in Hcreate; [discriminate|].
  destruct (negb (has_driver _ _)) in Hcreate; [discriminate|].
  match type of Hcreate with
  | (if ?c then _ else _) = _ => destruct c eqn:Hunique; [discriminate|]
  end.
  injection Hcreate as <- <-.
  cbv zeta in Hrun. cbn [world payments pay_ID pay_Method] in Hrun.
  assert (Hmethod : known_method (charge_Method req)
                    /\ exists txn doc,
                         l' = mkLedger (next_uuid (next_uuid (world l)))
                                (paymentRepo_UpdateStatus (now (world l))
                                   (uuid_New (uuids (world l)))
                                   PaymentStatusCompleted (Some txn) doc
                                   (payments l
                                    ++ [mkPayment (uuid_New (uuids (world l))) (trip_ID trip)
                                          (trip_UserID trip) (trip_DriverID trip) fare "INR"
                                          (charge_Method req) PaymentStatusPending None None
                                          (if decide (charge_IdempotencyKey req = "")
                                           then None
                                           else Some (charge_IdempotencyKey req))
                                          (now (world l)) (now (world l))])%list)
                         /\ receipt = mkPaymentResponse (uuid_New (uuids (world l)))
                                        (trip_ID trip) fare "INR" (charge_Method req)
                                        PaymentStatusCompleted (Some txn)).
  { unfold known_method.
    destruct (decide (charge_Method req = PaymentMethodCash)) as [Hcash|_].
    { simpl in Hrun. injection Hrun as <- <-. split; [auto|].
      eexists _, _. split; reflexivity. }
    destruct (decide (charge_Method req = PaymentMethodWallet)) as [Hwallet|_].
    { simpl in Hrun. injection Hrun as <- <-. split; [auto|].
      eexists _, _. split; reflexivity. }
    destruct (decide (charge_Method req = PaymentMethodCard
                      \/ charge_Method req = PaymentMethodUPI)) as [Hext|_];
      [|discriminate].
    simpl in Hrun. injection Hrun as <- <-. split; [tauto|].
    eexists _, _. split; reflexivity. }
  destruct Hmethod as (Hknown & txn & doc & Hl' & Hreceipt).
  exists trip, fare, txn, doc.
  split; [reflexivity|]. split; [reflexivity|]. split; [exact Hdone|].
  split; [exact Hfare|]. split; [exact Hknown|]. split; [exact Hpk|].
  split; [|split; [exact Hl'|exact Hreceipt]].
  intros Hnamed. destruct (decide (charge_IdempotencyKey req = "")); [contradiction|].
  exact Hunique.
Qed.

(** X22: what a charge is.  When [ProcessPayment] answers with a receipt and
    has written to the [payments] table, the trip of the request is completed
    and has a fare, the method is one the service knows, and exactly one row
    was added: a completed payment of that fare, in INR, from the rider of the
    trip to its driver, which the receipt shows. *)
Theorem ProcessPayment_charges_the_fare (req : CreatePaymentRequest) (l l' : Ledger)
  (receipt : PaymentResponse) :
  ProcessPayment req l = (Ok receipt, l') ->
  payments l' <> payments l ->
  exists trip fare row,
    tripRepo_GetByID (db (world l)) (charge_TripID req) = Some trip
    /\ trip_Status trip = TripStatusCompleted
    /\ trip_TotalFare trip = Some fare
    /\ known_method (charge_Method req)
    /\ length (payments l') = S (length (payments l))
    /\ paymentRepo_GetByID (payments l') (receipt_ID receipt) = Some row
    /\ Payment_ToResponse row = receipt
    /\ pay_TripID row = charge_TripID req
    /\ pay_UserID row = trip_UserID trip
    /\ pay_DriverID row = trip_DriverID trip
    /\ pay_Amount row = fare
    /\ pay_Currency row = "INR"
    /\ pay_Method row = charge_Method req
    /\ pay_Status row = PaymentStatusCompleted
    /\ db (world l') = db (world l).
Proof.
  intros Hrun Hchanged.
  destruct (ProcessPayment_charge req l l' receipt Hrun Hchanged)
    as (trip & fare & txn & doc & _ & Htrip & Hdone & Hfare & Hknown & Hpk & _ & -> & ->).
  pose proof Htrip as Hid. apply sql_get_Some in Hid as [_ Hid].
  apply bool_decide_eq_true in Hid.
  eexists trip, fare, _.
  split; [exact Htrip|]. split; [exact Hdone|]. split; [exact Hfare|].
  split; [exact Hknown|].
  split.
  { simpl. unfold paymentRepo_UpdateStatus, sql_update.
    rewrite List.length_map, List.length_app. simpl. lia. }
  split.
  { simpl. apply payment_lookup_update. unfold paymentRepo_GetByID.
    apply sql_get_app_new; [exact Hpk|]. apply bool_decide_eq_true. reflexivity. }
  split; [reflexivity|]. split; [exact Hid|].
  repeat (split; [reflexivity|]). reflexivity.
Qed.

(** X23: nothing is charged for a trip that is not settled.  Under no key, or
    a key that names no payment, a request for a trip that does not exist, is
    not completed or has no fare is refused, and neither the [payments] table
    nor anything else changes. *)
Theorem ProcessPayment_refuses_unsettled_trips (req : CreatePaymentRequest) (l : Ledger) :
  charge_IdempotencyKey req = ""
  \/ paymentRepo_GetByIdempotencyKey (payments l) (charge_IdempotencyKey req) = None ->
  (forall trip,
      tripRepo_GetByID (db (world l)) (charge_TripID req) = Some trip ->
      trip_Status trip <> TripStatusCompleted \/ trip_TotalFare trip = None) ->
  exists e, ProcessPayment req l = (Err (Api e), l) /\ 400 <= Errors.StatusCode e < 500.
Proof.
  intros Hkey Hunsettled. unfold ProcessPayment.
  assert (Hnone : (if decide (charge_IdempotencyKey req = "") then None
                   else paymentRepo_GetByIdempotencyKey (payments l)
                          (charge_IdempotencyKey req)) = None).
  { destruct (decide (charge_IdempotencyKey req = "")); [reflexivity|].
    destruct Hkey; [contradiction|auto]. }
  rewrite Hnone.
  destruct (tripRepo_GetByID (db (world l)) (charge_TripID req)) as [trip|].
  - destruct (bool_decide (trip_Status trip = TripStatusCompleted)) eqn:Hdone; simpl.
    + apply bool_decide_eq_true in Hdone.
      destruct (Hunsettled trip eq_refl) as [Hnot|Hfare]; [contradiction|].
      rewrite Hfare. eexists. split; [reflexivity|]. simpl. lia.
    + eexists. split; [reflexivity|]. simpl. lia.
  - eexists. split; [reflexivity|]. simpl. lia.
Qed.

(** X24: a charge is replayed under its key.  When a request under a key has
    been charged, every later request under that key, for whatever trip and
    method, is answered with the receipt of the charge and writes nothing. *)
Theorem charge_is_replayed_under_its_key (req req' : CreatePaymentRequest)
  (l l' : Ledger) (receipt : PaymentResponse) (t : Z) :
  ProcessPayment req l = (Ok receipt, l') ->
  payments l' <> payments l ->
  charge_IdempotencyKey req <> "" ->
  charge_IdempotencyKey req' = charge_IdempotencyKey req ->
  ProcessPayment req' (later l' t) = (Ok receipt, later l' t).
Proof.
  intros Hrun Hchanged Hnamed Hsame.
  destruct (ProcessPayment_charge req l l' receipt Hrun Hchanged)
    as (trip & fare & txn & doc & _ & _ & _ & _ & _ & _ & Hunique & -> & ->).
  specialize (Hunique Hnamed).
  unfold ProcessPayment. cbn [later with_world payments world]. rewrite Hsame.
  destruct (decide (charge_IdempotencyKey req = "")) as [|_]; [contradiction|].
  unfold paymentRepo_GetByIdempotencyKey, paymentRepo_UpdateStatus.
  rewrite sql_get_update_other by reflexivity.
  rewrite (sql_get_app_new _ (payments l) _ Hunique)
    by (apply bool_decide_eq_true; reflexivity).
  simpl. rewrite bool_decide_eq_true_2 by reflexivity. reflexivity.
Qed.

(** X25: a trip is charged once.  When a trip has been charged and its earlier
    payments (failed or pending ones) are older, every later request for the
    trip that is not caught by another payment's key, by whatever method, is
    answered with the receipt of the charge and writes nothing. *)
Theorem trip_is_charged_once (req req' : CreatePaymentRequest) (l l' : Ledger)
  (receipt : PaymentResponse) (t : Z) :
  ProcessPayment req l = (Ok receipt, l') ->
  payments l' <> payments l ->
  (forall p, In p (payments l) -> pay_TripID p = charge_TripID req ->
             pay_CreatedAt p < now (world l)) ->
  charge_TripID req' = charge_TripID req ->
  charge_IdempotencyKey req' = ""
  \/ paymentRepo_GetByIdempotencyKey (payments l') (charge_IdempotencyKey req') = None ->
  ProcessPayment req' (later l' t) = (Ok receipt, later l' t).
Proof.
  intros Hrun Hchanged Hearlier Hsame Hkey.
  destruct (ProcessPayment_charge req l l' receipt Hrun Hchanged)
    as (trip & fare & txn & doc & _ & Htrip & Hdone & Hfare & _ & _ & _ & -> & ->).
  pose proof Htrip as Hid. apply sql_get_Some in Hid as [_ Hid].
  apply bool_decide_eq_true in Hid.
  unfold ProcessPayment. cbn [later with_world payments world] in *.
  assert (Hnone : (if decide (charge_IdempotencyKey req' = "") then None
                   else paymentRepo_GetByIdempotencyKey
                          (paymentRepo_UpdateStatus (now (world l))
                             (uuid_New (uuids (world l))) PaymentStatusCompleted
                             (Some txn) doc
                             (payments l
                              ++ [mkPayment (uuid_New (uuids (world l))) (trip_ID trip)
                                    (trip_UserID trip) (trip_DriverID trip) fare "INR"
                                    (charge_Method req) PaymentStatusPending None None
                                    (if decide (charge_IdempotencyKey req = "") then None
                                     else Some (charge_IdempotencyKey req))
                                    (now (world l)) (now (world l))])%list)
                          (charge_IdempotencyKey req')) = None).
  { destruct (decide (charge_IdempotencyKey req' = "")); [reflexivity|].
    destruct Hkey; [contradiction|auto]. }
  rewrite Hnone, Hsame. cbn [db at_time next_uuid]. rewrite Htrip.
  rewrite bool_decide_eq_true_2 by exact Hdone. cbn [negb]. rewrite Hfare.
  unfold paymentRepo_UpdateStatus, sql_update.
  rewrite latest_payment_updated
    by (intros p; destruct (bool_decide (pay_ID p = _)); reflexivity).
  rewrite latest_payment_appended; [| exact Hid |].
  - cbn [option_map pay_ID].
    rewrite (bool_decide_eq_true_2 (uuid_New (uuids (world l)) = uuid_New (uuids (world l))))
      by reflexivity.
    reflexivity.
  - intros p Hin Hp. simpl. apply Hearlier; assumption.
Qed.

(** X26: a payment is refunded once.  A refund goes through on a completed
    payment only; it leaves the payment [refunded], with the transaction id it
    had; a second refund, whenever it comes, is refused and changes nothing. *)
Theorem RefundPayment_is_final (paymentID : string) (l l' : Ledger) :
  RefundPayment paymentID l = (None, l') ->
  exists p doc,
    paymentRepo_GetByID (payments l) paymentID = Some p
    /\ pay_Status p = PaymentStatusCompleted
    /\ paymentRepo_GetByID (payments l') paymentID
       = Some (settled p PaymentStatusRefunded (pay_PSPTransactionID p) doc
                 (now (world l)))
    /\ length (payments l') = length (payments l)
    /\ forall t,
         RefundPayment paymentID (later l' t)
         = (Some (BadRequest "can only refund completed payments"), later l' t).
Proof.
  unfold RefundPayment. intros Hrun.
  destruct (paymentRepo_GetByID (payments l) paymentID) as [p|] eqn:Hget; [|discriminate].
  destruct (negb _) eqn:Hdone; [discriminate|].
  apply negb_false_iff, bool_decide_eq_true in Hdone.
  injection Hrun as <-. eexists p, _.
  pose proof (payment_lookup_update (now (world l)) paymentID PaymentStatusRefunded
                (pay_PSPTransactionID p)
                (PSPRefund ("REF_" ++ short_uuid (uuids (world l))) (now (world l)))
                (payments l) p Hget) as Hafter.
  split; [reflexivity|]. split; [exact Hdone|]. split; [exact Hafter|].
  split.
  { simpl. unfold paymentRepo_UpdateStatus, sql_update. apply List.length_map. }
  intros t. cbn [later with_world payments world]. rewrite Hafter. reflexivity.
Qed.

(** X27: an unknown method charges nothing, but may leave a row.  With a
    method the service does not know, no call ends in a new completed
    payment: it replays an earlier payment, or fails and writes nothing, or
    fails with [invalid payment method] after the payment row was inserted,
    and the row stays, pending. *)
Theorem unknown_method_leaves_a_pending_payment (req : CreatePaymentRequest)
  (l l' : Ledger) (r : result PaymentResponse) :
  ~ known_method (charge_Method req) ->
  ProcessPayment req l = (r, l') ->
  (exists existing, In existing (payments l)
                    /\ r = Ok (Payment_ToResponse existing) /\ l' = l)
  \/ (exists e, r = Err e /\ payments l' = payments l)
  \/ (r = Err (BadRequest "invalid payment method")
      /\ exists row,
           payments l' = (payments l ++ [row])%list
           /\ pay_TripID row = charge_TripID req
           /\ pay_Method row = charge_Method req
           /\ pay_Status row = PaymentStatusPending
           /\ pay_PSPTransactionID row = None).
Proof.
  unfold ProcessPayment. intros Hunknown Hrun.
  destruct (if decide (charge_IdempotencyKey req = "") then None else _) as [existing|]
    eqn:Hkey.
  { injection Hrun as <- <-. left. exists existing. split; [|auto].
    destruct (decide (charge_IdempotencyKey req = "")); [discriminate|].
    apply sql_get_Some in Hkey as [Hin _]. exact Hin. }
  destruct (tripRepo_GetByID (db (world l)) (charge_TripID req)) as [trip|] eqn:Htrip;
    [|injection Hrun as <- <-; right; left; eauto].
  destruct (negb _); [injection Hrun as <- <-; right; left; eauto|].
  destruct (trip_TotalFare trip) as [fare|];
    [|injection Hrun as <- <-; right; left; eauto].
  destruct (match paymentRepo_GetByTripID _ _ with Some _ => _ | None => None end)
    as [paid|] eqn:Hpaid.
  { injection Hrun as <- <-. left. exists paid. split; [|auto].
    destruct (paymentRepo_GetByTripID (payments l) (charge_TripID req)) as [p|] eqn:Hlatest;
      [|discriminate].
    destruct (bool_decide _); [|discriminate]. injection Hpaid as <-.
    apply latest_payment_from in Hlatest as [Hlatest|[Hin _]]; [discriminate|exact Hin]. }
  right.
  match type of Hrun with context [paymentRepo_Create ?n ?f ?p ?d ?t] =>
    destruct (paymentRepo_Create n f p d t) as [created res] eqn:Hcreate end.
  destruct res as [t1|e]; [|injection Hrun as <- <-; left; eauto].
  unfold paymentRepo_Create in Hcreate. cbv zeta in Hcreate.
  repeat match type of Hcreate with
         | (if ?c then _ else _) = _ => destruct c; [discriminate|]
         end.
  injection Hcreate as <- <-.
  pose proof Htrip as Hid. apply sql_get_Some in Hid as [_ Hid].
  apply bool_decide_eq_true in Hid.
  cbv zeta in Hrun. cbn [pay_Method] in Hrun.
  destruct (decide (charge_Method req = PaymentMethodCash)) as [Hm|_];
    [exfalso; apply Hunknown; unfold known_method; auto|].
  destruct (decide (charge_Method req = PaymentMethodWallet)) as [Hm|_];
    [exfalso; apply Hunknown; unfold known_method; auto|].
  destruct (decide (charge_Method req = PaymentMethodCard
                    \/ charge_Method req = PaymentMethodUPI)) as [Hm|_];
    [exfalso; apply Hunknown; unfold known_method; tauto|].
  injection Hrun as <- <-. right. split; [reflexivity|].
  eexists. split; [reflexivity|]. simpl. auto.
Qed.

End WithExternals.

(** ** The theorems at work *)

(** Identifiers in the form of a UUID, the counter in the first group. *)
Definition uuid_of (n : nat) : string :=
  let digits := pretty n in
  (String.substring 0 (8 - String.length digits) "00000000" ++ digits
   ++ "-7425-40de-944b-e07fc1f90ae7")%string.

Definition issuer : Externals :=
  {| uuid_New := uuid_of;
     redis_GeoRadius := fun _ _ _ _ => [];
     strconv_ParseFloat := fun _ => None |}.

(** The books after the trip of [trip_over]: no payment yet. *)
Definition trip_unpaid : Ledger := mkLedger trip_over [].

Definition pay_cash : CreatePaymentRequest := mkCreatePaymentRequest "uuid-0" "cash" "pay-1".

Definition pay_in_shells : CreatePaymentRequest :=
  mkCreatePaymentRequest "uuid-0" "shells" "".

Definition cash_receipt : PaymentResponse :=
  mkPaymentResponse "00000001-7425-40de-944b-e07fc1f90ae7" "uuid-0" 179 "INR" "cash"
    "completed" (Some "CASH_00000002").

(** The books after the cash payment. *)
Definition trip_paid : Ledger :=
  let E := issuer in
  snd (ProcessPayment pay_cash trip_unpaid).

Lemma cash_is_taken :
  @ProcessPayment (issuer) pay_cash trip_unpaid = (Ok cash_receipt, trip_paid).
Proof. vm_compute. reflexivity. Qed.

Lemma ProcessPayment_charges_the_fare_witness :
  exists trip fare row,
    tripRepo_GetByID (db (world trip_unpaid)) "uuid-0" = Some trip
    /\ trip_Status trip = TripStatusCompleted
    /\ trip_TotalFare trip = Some fare
    /\ known_method "cash"
    /\ length (payments trip_paid) = S (length (payments trip_unpaid))
    /\ paymentRepo_GetByID (payments trip_paid) (uuid_of 1) = Some row
    /\ Payment_ToResponse row = cash_receipt
    /\ pay_TripID row = "uuid-0"
    /\ pay_UserID row = trip_UserID trip
    /\ pay_DriverID row = trip_DriverID trip
    /\ pay_Amount row = fare
    /\ pay_Currency row = "INR"
    /\ pay_Method row = "cash"
    /\ pay_Status row = PaymentStatusCompleted
    /\ db (world trip_paid) = db (world trip_unpaid).
Proof.
  apply (@ProcessPayment_charges_the_fare (issuer) pay_cash trip_unpaid
           trip_paid cash_receipt cash_is_taken).
  vm_compute. discriminate.
Defined.

Lemma ProcessPayment_refuses_unsettled_trips_witness :
  let E := issuer in
  let l := mkLedger trip_running [] in
  exists e, ProcessPayment pay_cash l = (Err (Api e), l) /\ 400 <= Errors.StatusCode e < 500.
Proof.
  intros E l.
  apply (@ProcessPayment_refuses_unsettled_trips E pay_cash l).
  - right. reflexivity.
  - intros trip Htrip. left. vm_compute in Htrip. injection Htrip as <-. discriminate.
Defined.

Lemma charge_is_replayed_under_its_key_witness :
  let E := issuer in
  ProcessPayment (mkCreatePaymentRequest "another-trip" "upi" "pay-1")
    (later trip_paid (3000 * Second))
  = (Ok cash_receipt, later trip_paid (3000 * Second)).
Proof.
  intros E.
  apply (@charge_is_replayed_under_its_key E pay_cash
           (mkCreatePaymentRequest "another-trip" "upi" "pay-1") trip_unpaid trip_paid
           cash_receipt (3000 * Second) cash_is_taken).
  - vm_compute. discriminate.
  - discriminate.
  - reflexivity.
Defined.

Lemma trip_is_charged_once_witness :
  let E := issuer in
  ProcessPayment (mkCreatePaymentRequest "uuid-0" "card" "") (later trip_paid (3000 * Second))
  = (Ok cash_receipt, later trip_paid (3000 * Second)).
Proof.
  intros E.
  apply (@trip_is_charged_once E pay_cash (mkCreatePaymentRequest "uuid-0" "card" "")
           trip_unpaid trip_paid cash_receipt (3000 * Second) cash_is_taken).
  - vm_compute. discriminate.
  - intros p [].
  - reflexivity.
  - left. reflexivity.
Defined.

Lemma RefundPayment_is_final_witness :
  let E := issuer in
  let l' := snd (RefundPayment (uuid_of 1) trip_paid) in
  exists p doc,
    paymentRepo_GetByID (payments trip_paid) (uuid_of 1) = Some p
    /\ pay_Status p = PaymentStatusCompleted
    /\ paymentRepo_GetByID (payments l') (uuid_of 1)
       = Some (settled p PaymentStatusRefunded (pay_PSPTransactionID p) doc
                 (now (world trip_paid)))
    /\ length (payments l') = length (payments trip_paid)
    /\ forall t,
         RefundPayment (uuid_of 1) (later l' t)
         = (Some (BadRequest "can only refund completed payments"), later l' t).
Proof.
  intros E l'.
  apply (@RefundPayment_is_final E (uuid_of 1) trip_paid l').
  vm_compute. reflexivity.
Defined.

Lemma unknown_method_leaves_a_pending_payment_witness :
  let E := issuer in
  let out := ProcessPayment pay_in_shells trip_unpaid in
  List.map (fun p => (pay_ID p, pay_Method p, pay_Status p)) (payments (snd out))
  = [(uuid_of 1, "shells", "pending")]
  /\ ((exists existing, In existing (payments trip_unpaid)
                        /\ fst out = Ok (Payment_ToResponse existing)
                        /\ snd out = trip_unpaid)
      \/ (exists e, fst out = Err e /\ payments (snd out) = payments trip_unpaid)
      \/ (fst out = Err (BadRequest "invalid payment method")
          /\ exists row,
               payments (snd out) = (payments trip_unpaid ++ [row])%list
               /\ pay_TripID row = charge_TripID pay_in_shells
               /\ pay_Method row = charge_Method pay_in_shells
               /\ pay_Status row = PaymentStatusPending
               /\ pay_PSPTransactionID row = None)).
Proof.
  intros E out. split; [vm_compute; reflexivity|].
  apply (@unknown_method_leaves_a_pending_payment E pay_in_shells trip_unpaid
           (snd out) (fst out)).
  - intros [Hm|[Hm|[Hm|Hm]]]; discriminate Hm.
  - unfold out. destruct (ProcessPayment pay_in_shells trip_unpaid); reflexivity.
Defined.

End PaymentProps.

(* ===================================================================== *)
(** * Properties of the traffic in front of the handlers *)
(* ===================================================================== *)

Module TrafficProps.
Import Errors Models Store Service Middleware Handlers.
Import OfferProps InvariantProps MiddlewareProps.

(** ** A burst of requests under the rate limiter *)

(** The decisions of [isAllowed] on one key for the requests arriving at
    [times], and the counters they leave. *)
Fixpoint burst (rl : RateLimiter) (key : string) (c : gmap string (Z * option Z))
  (times : list Z) : list (bool * Z) * gmap string (Z * option Z) :=
  match times with
  | [] => ([], c)
  | t :: later =>
      let '((allowed, remaining, _), c1) := isAllowed rl false t c key in
      let '(decisions, c2) := burst rl key c1 later in
      ((allowed, remaining) :: decisions, c2)
  end.

(** The decision on the k-th request of a window. *)
Definition kth_decision (rl : RateLimiter) (k : nat) : bool * Z :=
  (Z.of_nat k <=? requests rl, Z.max 0 (requests rl - Z.of_nat k)).

Lemma burst_counts (rl : RateLimiter) (key : string) (times : list Z) :
  Sorted (fun a b => a <= b < a + window rl) times ->
  forall (n : nat) (c : gmap string (Z * option Z)),
    (forall t, List.hd_error times = Some t ->
               match live t c key with
               | Some (m, _) => m = Z.of_nat n
               | None => n = 0%nat
               end) ->
    fst (burst rl key c times)
    = List.map (fun k => kth_decision rl (n + k)) (List.seq 1 (length times)).
Proof.
  induction 1 as [|t later Hsorted IH Hnext]; intros n c Hstart; [reflexivity|].
  cbn [burst length]. unfold isAllowed.
  destruct (Incr_Expire t c key (window rl)) as [Hincr Hexpire].
  cbv zeta in Hincr, Hexpire.
  set (count := match live t c key with Some (m, _) => m + 1 | None => 1 end) in *.
  assert (Hcount : count = Z.of_nat (n + 1)).
  { specialize (Hstart t eq_refl). unfold count.
    destruct (live t c key) as [[m ttl]|]; [subst m|subst n]; lia. }
  rewrite Hincr, Hexpire.
  destruct (burst rl key (<[key := (count, Some (t + window rl))]> c) later)
    as [decisions c2] eqn:Hrest.
  cbn [fst]. rewrite <- List.seq_shift, List.map_map. cbn [List.seq List.map].
  f_equal.
  - unfold kth_decision. rewrite Hcount. f_equal.
    destruct (_ <? 0) eqn:Hneg; [apply Z.ltb_lt in Hneg|apply Z.ltb_ge in Hneg]; lia.
  - replace decisions with (fst (burst rl key (<[key := (count, Some (t + window rl))]> c)
                                   later)) by (rewrite Hrest; reflexivity).
    rewrite (IH (n + 1)%nat).
    + apply List.map_ext. intros k. f_equal. lia.
    + intros t' Hhd. destruct later as [|t1 later]; [discriminate|].
      injection Hhd as <-. inversion Hnext as [|? ? Hgap]; subst.
      unfold live. rewrite lookup_insert_eq.
      destruct (t1 <? t + window rl) eqn:Hlive; [exact Hcount|].
      apply Z.ltb_ge in Hlive. lia.
Qed.

(** X28: a burst is counted through.  When the requests of one client on one
    path arrive less than a window apart, starting with no counter, the k-th
    of them is the k-th of the window however long the burst lasts: it is
    let in exactly when k is within the limit, and is told
    [max 0 (limit - k)] requests remain.  Refused requests count too, and
    nothing but a pause of a whole window lets the client in again. *)
Theorem burst_is_counted_through (rl : RateLimiter) (key : string)
  (c : gmap string (Z * option Z)) (times : list Z) :
  Sorted (fun a b => a <= b < a + window rl) times ->
  (forall t, List.hd_error times = Some t -> live t c key = None) ->
  fst (burst rl key c times)
  = List.map (kth_decision rl) (List.seq 1 (length times)).
Proof.
  intros Hsorted Hfresh.
  rewrite (burst_counts rl key times Hsorted 0 c); [reflexivity|].
  intros t Hhd. rewrite (Hfresh t Hhd). reflexivity.
Qed.

(** ** The first answer under an idempotency key *)

Section Idempotency.
Variable App : Type.
Variable next : Request -> App -> Response * App.
Variable hashBody : string -> string.

(** X29: the first successful answer is the answer.  When a POST, PUT or
    PATCH under a key finds neither a stored response nor a lock and the
    handler answers with a status in [200, 300), then for the next 24 hours
    every such request under the key with a body of the same hash gets that
    status and body back, with the [Content-Type] of the answer as its only
    header, and the handler does not run; a body of another hash gets 409
    [idempotency_conflict]. *)
Theorem first_answer_is_kept (now : Z) (r r' : Request) (s : IdemStore) (app app' : App)
  (t : Z) :
  let key := Header_Get (Header r) IdempotencyHeader in
  let first := IdempotencyHandler App next hashBody now r (s, app) in
  let answer := fst (next r app) in
  let s' := fst (snd first) in
  unsafe_method (Method r) -> unsafe_method (Method r') ->
  key <> "" ->
  Header_Get (Header r') IdempotencyHeader = key ->
  getCachedResponse now s (idempotencyPrefix ++ key) = None ->
  fst (SetNX now s ((idempotencyPrefix ++ key) ++ ":lock")) = true ->
  200 <= Status answer < 300 ->
  now <= t < now + idempotencyTTL ->
  fst first = answer
  /\ (hashBody (Body r') = hashBody (Body r) ->
      IdempotencyHandler App next hashBody t r' (s', app')
      = (mkResponse (Status answer)
           (<["Content-Type" := Header_Get (Headers answer) "Content-Type"]> ∅)
           (Payload answer), (s', app')))
  /\ (hashBody (Body r') <> hashBody (Body r) ->
      IdempotencyHandler App next hashBody t r' (s', app')
      = (conflict_response, (s', app'))).
Proof.
  intros key first answer s' Hmethod Hmethod' Hkey Hsame Hmiss Hlock Hok Ht.
  assert (Hguard : forall m, unsafe_method m ->
                     negb (bool_decide (m = MethodPost))
                     && negb (bool_decide (m = MethodPut))
                     && negb (bool_decide (m = MethodPatch)) = false).
  { intros m [-> | [-> | ->]]; reflexivity. }
  set (stored := mkCachedResponse (Status answer)
                   (<["Content-Type" := Header_Get (Headers answer) "Content-Type"]> ∅)
                   (Payload answer) (hashBody (Body r))).
  assert (Hfirst : fst first = answer
                   /\ responses s' !! (idempotencyPrefix ++ key)%string
                      = Some (stored, now + idempotencyTTL)).
  { unfold s', first, stored, answer, IdempotencyHandler. rewrite (Hguard _ Hmethod).
    fold key. destruct (decide (key = "")) as [|_]; [contradiction|].
    rewrite Hmiss.
    destruct (SetNX now s ((idempotencyPrefix ++ key) ++ ":lock")) as [locked s1] eqn:Hnx.
    simpl in Hlock. subst locked. cbn [negb].
    assert (Hs1 : responses s1 = responses s).
    { unfold SetNX in Hnx.
      destruct (locks s !! _) as [expires|]; [destruct (now <? expires)|];
        inversion Hnx; reflexivity. }
    unfold answer in Hok. destruct (next r app) as [resp app1]. cbn [fst snd] in *.
    assert (H2xx : (200 <=? Status resp) && (Status resp <? 300) = true).
    { apply andb_true_iff. split; [apply Z.leb_le|apply Z.ltb_lt]; lia. }
    rewrite H2xx. cbn [responses locks]. rewrite Hs1, lookup_insert_eq. auto. }
  destruct Hfirst as [Hanswer Hstored].
  split; [exact Hanswer|].
  assert (Hhit : getCachedResponse t s' (idempotencyPrefix ++ key) = Some stored).
  { unfold getCachedResponse. rewrite Hstored.
    destruct (t <? now + idempotencyTTL) eqn:Hlive; [reflexivity|].
    apply Z.ltb_ge in Hlive. lia. }
  split; intros Hhash; unfold IdempotencyHandler; rewrite (Hguard _ Hmethod'), Hsame;
    (destruct (decide (key = "")) as [|_]; [contradiction|]); rewrite Hhit;
    cbn [BodyHash StatusCode CachedHeaders CachedBody stored].
  - rewrite bool_decide_eq_true_2 by (symmetry; exact Hhash). reflexivity.
  - rewrite bool_decide_eq_false_2 by (intros Heq; apply Hhash; symmetry; exact Heq).
    reflexivity.
Qed.

End Idempotency.

(** ** Errors of [AcceptRide] over HTTP *)

Definition internal_server_error : Response :=
  mkResponse 500 (<["Content-Type" := "application/json"]> ∅)
    (ErrorJSON "internal_error" "internal server error").

Lemma acceptRideTx_errors (fault : nat -> bool) (now : Z) (driverID : string)
  (req : AcceptRideRequest) (tx tx' : Tx) (e : error) :
  acceptRideTx fault now driverID req tx = (Err e, tx') ->
  (exists what, e = SqlError what)
  \/ In e [NotFound "offer"; Unauthorized "offer not for this driver";
           BadRequest "offer ride mismatch"; OfferExpired;
           BadRequest "offer already responded"; NotFound "ride"; RideAlreadyAssigned].
Proof.
  unfold acceptRideTx. intros Hrun.
  repeat match type of Hrun with
         | (if ?c then _ else _) = _ => destruct c
         | (match ?x with _ => _ end) = _ => destruct x
         end;
    try discriminate; injection Hrun as <- _; simpl; eauto 12.
Qed.

(** X30: how a failed acceptance is answered.  Whatever makes [AcceptRide]
    fail, the handler's answer is JSON with one of the statuses 400, 401,
    404, 409, 410 and 500; the business refusals carry their own code and
    message, and a failure of the database is answered 500 [internal_error]
    with a fixed message, never with the message of the driver. *)
Theorem AcceptRide_failure_over_http (fault : nat -> bool) (driverID : string)
  (req : AcceptRideRequest) (w : World) (e : error) :
  fst (AcceptRide fault driverID req w) = Err e ->
  In (Status (handleError e)) [400; 401; 404; 409; 410; 500]
  /\ Headers (handleError e) = <["Content-Type" := "application/json"]> ∅
  /\ (forall a, e = Api a ->
        handleError e
        = mkResponse (Errors.StatusCode a) (<["Content-Type" := "application/json"]> ∅)
            (ErrorJSON (Code a) (Message a)))
  /\ (forall what, e = SqlError what -> handleError e = internal_server_error).
Proof.
  intros Hrun.
  assert (Hkind : (exists what, e = SqlError what)
                  \/ In e [NotFound "offer"; Unauthorized "offer not for this driver";
                           BadRequest "offer ride mismatch"; OfferExpired;
                           BadRequest "offer already responded"; NotFound "ride";
                           RideAlreadyAssigned]).
  { unfold AcceptRide in Hrun.
    destruct (fault 0%nat); [injection Hrun as <-; eauto|].
    destruct (acceptRideTx fault (now w) driverID req (BeginTxx (db w))) as [r tx]
      eqn:Htx.
    destruct r as [ride|e']; [discriminate|]. injection Hrun as <-.
    eapply acceptRideTx_errors. exact Htx. }
  split; [|split; [|split]].
  - destruct Hkind as [[what ->]|Hin]; [simpl; auto 10|].
    simpl in Hin. repeat (destruct Hin as [<-|Hin]; [simpl; auto 10|]). destruct Hin.
  - destruct Hkind as [[what ->]|Hin]; [reflexivity|].
    simpl in Hin. repeat (destruct Hin as [<-|Hin]; [reflexivity|]). destruct Hin.
  - intros a ->. reflexivity.
  - intros what ->. reflexivity.
Qed.

(** ** The properties at work *)

(** Four requests ten seconds apart under a limit of two a minute: the third
    and the fourth are refused. *)
Lemma burst_is_counted_through_witness :
  fst (burst (NewRateLimiter 2 (60 * Second)) "ratelimit:10.0.0.1:5000:/v1/rides" ∅
         [0; 10 * Second; 20 * Second; 30 * Second])
  = [(true, 1); (true, 0); (false, 0); (false, 0)].
Proof.
  apply (burst_is_counted_through (NewRateLimiter 2 (60 * Second))
           "ratelimit:10.0.0.1:5000:/v1/rides" ∅
           [0; 10 * Second; 20 * Second; 30 * Second]).
  - repeat (apply Sorted_cons;
            [|first [apply HdRel_nil|apply HdRel_cons; vm_compute; split; congruence]]).
    apply Sorted_nil.
  - intros t _. reflexivity.
Defined.

(** However long the client keeps asking within a minute of its last
    request, it is not let in again; after a minute of silence it is. *)
Example burst_never_ends :
  let rl := NewRateLimiter 2 (60 * Second) in
  let key := "ratelimit:10.0.0.1:5000:/v1/rides" in
  let busy := burst rl key ∅ (List.map (fun k => Z.of_nat k * (59 * Second)) (List.seq 0 8)) in
  List.map fst (fst busy) = [true; true; false; false; false; false; false; false]
  /\ fst (isAllowed rl false (7 * (59 * Second) + 60 * Second) (snd busy) key)
     = (true, 1, false).
Proof. split; vm_compute; reflexivity. Qed.

(** The ride posted at 0 is answered from the store 23 hours later, to the
    same body; another body under the key is a conflict. *)
Lemma first_answer_is_kept_witness :
  IdempotencyHandler nat creating (fun b => b) (23 * Hour) (post_ride "ride A")
    (fst after_first_post, 7%nat)
  = (mkResponse 201 (<["Content-Type" := "application/json"]> ∅) (Raw "ride A"),
     (fst after_first_post, 7%nat))
  /\ IdempotencyHandler nat creating (fun b => b) (23 * Hour) (post_ride "ride B")
       (fst after_first_post, 7%nat)
     = (conflict_response, (fst after_first_post, 7%nat)).
Proof.
  assert (Hpost : unsafe_method (Method (post_ride "ride A"))) by (left; reflexivity).
  assert (Hkey : Header_Get (Header (post_ride "ride A")) IdempotencyHeader <> "")
    by (vm_compute; discriminate).
  assert (Hday : 0 <= 23 * Hour < 0 + idempotencyTTL) by (vm_compute; split; congruence).
  assert (H2xx : 200 <= Status (fst (creating (post_ride "ride A") 0%nat)) < 300)
    by (vm_compute; split; congruence).
  assert (Hmiss : getCachedResponse 0 (mkIdemStore ∅ ∅)
                    (idempotencyPrefix
                     ++ Header_Get (Header (post_ride "ride A")) IdempotencyHeader)
                  = None) by (vm_compute; reflexivity).
  assert (Hlock : fst (SetNX 0 (mkIdemStore ∅ ∅)
                         ((idempotencyPrefix
                           ++ Header_Get (Header (post_ride "ride A")) IdempotencyHeader)
                          ++ ":lock")) = true) by (vm_compute; reflexivity).
  split.
  - apply (first_answer_is_kept nat creating (fun b => b) 0 (post_ride "ride A")
             (post_ride "ride A") (mkIdemStore ∅ ∅) 0%nat 7%nat (23 * Hour)
             Hpost Hpost Hkey eq_refl Hmiss Hlock H2xx Hday).
    reflexivity.
  - apply (first_answer_is_kept nat creating (fun b => b) 0 (post_ride "ride A")
             (post_ride "ride B") (mkIdemStore ∅ ∅) 0%nat 7%nat (23 * Hour)
             Hpost Hpost Hkey eq_refl Hmiss Hlock H2xx Hday).
    discriminate.
Defined.

(** The second driver, whose offer lapsed when the first accepted, is
    answered 400; with the database down the driver is answered 500 and is
    not shown the fault. *)
Lemma AcceptRide_failure_over_http_witness :
  let late := mkAcceptRideRequest "uuid-0" "uuid-2" in
  fst (AcceptRide healthy "driver-2" late served_city)
  = Err (BadRequest "offer already responded")
  /\ handleError (BadRequest "offer already responded")
     = mkResponse 400 (<["Content-Type" := "application/json"]> ∅)
         (ErrorJSON "bad_request" "offer already responded")
  /\ fst (AcceptRide (fun _ => true) "driver-2" late served_city)
     = Err (SqlError "begin")
  /\ handleError (SqlError "begin") = internal_server_error.
Proof.
  intros late.
  assert (Hlate : fst (AcceptRide healthy "driver-2" late served_city)
                  = Err (BadRequest "offer already responded"))
    by (vm_compute; reflexivity).
  assert (Hdown : fst (AcceptRide (fun _ => true) "driver-2" late served_city)
                  = Err (SqlError "begin")) by reflexivity.
  split; [exact Hlate|]. split; [|split; [exact Hdown|]].
  - destruct (AcceptRide_failure_over_http healthy "driver-2" late served_city
                (BadRequest "offer already responded") Hlate) as (_ & _ & Hapi & _).
    exact (Hapi _ eq_refl).
  - destruct (AcceptRide_failure_over_http (fun _ => true) "driver-2" late served_city
                (SqlError "begin") Hdown) as (_ & _ & _ & Hsql).
    exact (Hsql _ eq_refl).
Defined.

End TrafficProps.
